(** * eBay -> Wix synchronisation service: a shallow embedding

    The development embeds [EbayWixSyncService]
    (src/ebay-wix-sync/ebay-wix-sync.service.ts) and states the properties
    of its fetcher, enricher and mapper.

    Modelling conventions.
    - A JavaScript string is a [string]; one [ascii] stands for one UTF-16
      code unit (code units above 255 are outside the model).
    - A value that may be [undefined] or [null] is an [option]; the empty
      string is a present but falsy value.
    - Remote services (the token endpoint, the two eBay APIs) are oracles
      indexed by the number of calls made so far; the service threads a
      [World] holding the application token, the call counters and the log.
    - Pauses ([enforceRateLimit], [setTimeout]) only delay the run and are
      not represented. *)

From Stdlib Require Import String Ascii List ListSet Bool Arith ZArith Lia.
Import ListNotations.
Open Scope string_scope.
Open Scope list_scope.

(* ===================================================================== *)
(** ** JavaScript strings *)
(* ===================================================================== *)

Module Js.

(** Truthiness of a string-or-undefined value. *)
Definition truthy (v : option string) : bool :=
  match v with
  | None => false
  | Some s => negb (s =? "")
  end.

(** [a || b] on string-or-undefined values. *)
Definition or_else (a b : option string) : option string :=
  if truthy a then a else b.

(** [a || 'lit']. *)
Definition or_lit (a : option string) (lit : string) : string :=
  match a with
  | Some s => if s =? "" then lit else s
  | None => lit
  end.

(** [strip_prefix p s] is [Some r] when [s = p ++ r]. *)
Fixpoint strip_prefix (p s : string) : option string :=
  match p with
  | EmptyString => Some s
  | String a p' =>
      match s with
      | EmptyString => None
      | String b s' => if Ascii.eqb a b then strip_prefix p' s' else None
      end
  end.

(** [String.prototype.includes]. *)
Fixpoint includes (s pat : string) : bool :=
  match strip_prefix pat s with
  | Some _ => true
  | None =>
      match s with
      | EmptyString => false
      | String _ s' => includes s' pat
      end
  end.

(** [s.replace(/pat/, rep)] for a regular expression that is a literal and
    carries no [g] flag: the leftmost occurrence only. *)
Fixpoint replace_first (pat rep s : string) : string :=
  match strip_prefix pat s with
  | Some rest => rep ++ rest
  | None =>
      match s with
      | EmptyString => EmptyString
      | String c s' => String c (replace_first pat rep s')
      end
  end.

Definition is_digit (c : ascii) : bool :=
  let n := nat_of_ascii c in ((48 <=? n) && (n <=? 57))%nat.

(** Drops the maximal run of decimal digits at the head of [s]. *)
Fixpoint drop_digits (s : string) : string :=
  match s with
  | String c s' => if is_digit c then drop_digits s' else s
  | EmptyString => EmptyString
  end.

(** The maximal run of decimal digits at the head of [s]. *)
Fixpoint take_digits (s : string) : string :=
  match s with
  | String c s' => if is_digit c then String c (take_digits s') else EmptyString
  | EmptyString => EmptyString
  end.

(** White space and line terminators among the code units below 256. *)
Definition is_space (c : ascii) : bool :=
  let n := nat_of_ascii c in
  (((9 <=? n) && (n <=? 13)) || (n =? 32) || (n =? 160))%nat.

Fixpoint trim_start (s : string) : string :=
  match s with
  | String c s' => if is_space c then trim_start s' else s
  | EmptyString => EmptyString
  end.

(** Removes trailing white space: a character is kept when something
    that is not white space follows or it is itself not white space. *)
Fixpoint trim_end (s : string) : string :=
  match s with
  | EmptyString => EmptyString
  | String c s' =>
      match trim_end s' with
      | EmptyString => if is_space c then EmptyString else String c EmptyString
      | r => String c r
      end
  end.

(** [String.prototype.trim]. *)
Definition trim (s : string) : string := trim_end (trim_start s).

(** [s.slice(0, n)] for [0 <= n]. *)
Fixpoint slice0 (n : nat) (s : string) : string :=
  match n, s with
  | S n', String c s' => String c (slice0 n' s')
  | _, _ => EmptyString
  end.

(** [arr.join(sep)] on an array of strings. *)
Fixpoint join (sep : string) (l : list string) : string :=
  match l with
  | [] => ""
  | [x] => x
  | x :: rest => x ++ sep ++ join sep rest
  end.

(** A JavaScript number as far as the service needs it: the result of
    [parseInt] and [parseFloat].  [Fin m e] is the decimal [m * 10^e] as
    it is written, before it is rounded to a double: rounding, overflow to
    [Infinity] and the sign of zero are not represented, and one number
    has several representations ([Fin 10 (-1)] and [Fin 1 0]).  The
    statements below only use which string is parsed and the value of the
    literals '0' and '1'. *)
Inductive number : Type :=
| NaN
| Infinity (negative : bool)
| Fin (m : Z) (e : Z).

Definition digit_val (c : ascii) : Z := Z.of_nat (nat_of_ascii c - 48).

(** Value of a string of decimal digits, most significant first. *)
Fixpoint digits_val (acc : Z) (s : string) : Z :=
  match s with
  | String c s' => digits_val (10 * acc + digit_val c) s'
  | EmptyString => acc
  end.

(** An optional sign: [(negative, rest)]. *)
Definition read_sign (s : string) : bool * string :=
  match s with
  | String "-" s' => (true, s')
  | String "+" s' => (false, s')
  | _ => (false, s)
  end.

Definition apply_sign (neg : bool) (z : Z) : Z := if neg then (- z)%Z else z.

(** [parseInt(s, 10)]: leading white space, an optional sign, then the
    longest run of decimal digits; [NaN] when that run is empty. *)
Definition parseInt10 (s : string) : number :=
  let (neg, r) := read_sign (trim_start s) in
  match take_digits r with
  | EmptyString => NaN
  | ds => Fin (apply_sign neg (digits_val 0 ds)) 0
  end.

(** The exponent part [e[+-]digits] of a decimal literal, when present and
    well formed. *)
Definition read_exponent (s : string) : Z :=
  match s with
  | String c s' =>
      if (Ascii.eqb c "e" || Ascii.eqb c "E")%bool then
        let (neg, r) := read_sign s' in
        match take_digits r with
        | EmptyString => 0%Z
        | ds => apply_sign neg (digits_val 0 ds)
        end
      else 0%Z
  | EmptyString => 0%Z
  end.

(** [parseFloat(s)]: leading white space, an optional sign, then the longest
    prefix that is a decimal literal ([Infinity], [digits[.digits][exp]] or
    [.digits[exp]]); [NaN] when there is none. *)
Definition parseFloat (s : string) : number :=
  let (neg, r) := read_sign (trim_start s) in
  match strip_prefix "Infinity" r with
  | Some _ => Infinity neg
  | None =>
      let ip := take_digits r in
      let r1 := drop_digits r in
      let fp := match r1 with
                | String "." r2 => take_digits r2
                | _ => EmptyString
                end in
      let r3 := match r1 with
                | String "." r2 => drop_digits r2
                | _ => r1
                end in
      match ip, fp with
      | EmptyString, EmptyString => NaN
      | _, _ =>
          Fin (apply_sign neg (digits_val (digits_val 0 ip) fp))
              (read_exponent r3 - Z.of_nat (String.length fp))
      end
  end.

End Js.

(* ===================================================================== *)
(** ** The resolution-upgrade transform *)
(* ===================================================================== *)

(** Matches [/\/s-l\d+\./] at the head of [s]; the result is what follows
    the match.  [\d+] is greedy and can only be followed by the dot when it
    has taken the whole run of digits. *)
Definition match_size_suffix (s : string) : option string :=
  match Js.strip_prefix "/s-l" s with
  | Some r =>
      match Js.take_digits r with
      | EmptyString => None
      | _ =>
          match Js.drop_digits r with
          | String "." rest => Some rest
          | _ => None
          end
      end
  | None => None
  end.

(** [s.replace(/\/s-l\d+\./, '/s-l1600.')]. *)
Fixpoint replace_size_suffix (s : string) : string :=
  match match_size_suffix s with
  | Some rest => "/s-l1600." ++ rest
  | None =>
      match s with
      | EmptyString => EmptyString
      | String c s' => String c (replace_size_suffix s')
      end
  end.

(** [convertToHighRes(url)] on a string. *)
Definition convertToHighRes (url : string) : string :=
  if url =? "" then url
  else
    Js.replace_first "-thumb." "."
      (replace_size_suffix
         (Js.replace_first "/thumbs/" "/" url)).

(** [convertToHighRes(url)] on a value that may be absent: [!url] returns
    the argument as it is. *)
Definition convertToHighRes_val (url : option string) : option string :=
  match url with
  | Some s => Some (convertToHighRes s)
  | None => None
  end.

(* ===================================================================== *)
(** ** Data model *)
(* ===================================================================== *)

(** An image URL as the service meets it: a string, or [None] for
    [undefined] and [null]. *)
Definition Url := option string.

Definition Url_dec : forall x y : Url, {x = y} + {x <> y}.
Proof. decide equality; apply string_dec. Defined.

(** A [pictureURL]-like field: absent, one string, or an array. *)
Inductive UrlField : Type :=
| UrlAbsent
| UrlSingle (u : string)
| UrlArray (us : list Url).

(** The array the service iterates over for such a field:
    [if (f) { urls = Array.isArray(f) ? f : [f]; ... }]. *)
Definition urls_of (f : UrlField) : list Url :=
  match f with
  | UrlAbsent => []
  | UrlSingle u => if u =? "" then [] else [Some u]
  | UrlArray us => us
  end.

(** [arr?.[0]]. *)
Definition idx0 {A : Type} (arr : option (list A)) : option A :=
  match arr with
  | Some (x :: _) => Some x
  | _ => None
  end.

Record Price : Type := mkPrice {
  value : option string;
  currencyId : option string
}.

Record SellingStatus : Type := mkSellingStatus {
  currentPrice : option Price;
  convertedCurrentPrice : option Price
}.

Record Condition : Type := mkCondition {
  conditionDisplayName : option string
}.

(** ListingSummary: one entry of [searchResult.item]. *)
Record Listing : Type := mkListing {
  itemId : option string;
  title : option string;
  galleryURL : Url;
  pictureURL : UrlField;
  sellingStatus : option SellingStatus;
  condition : option Condition
}.

Record PicSet : Type := mkPicSet {
  ps_PictureURL : UrlField
}.

Record PictureDetailsRec : Type := mkPictureDetails {
  pd_GalleryURL : option (list Url);
  pd_PictureURL : UrlField
}.

Record VariationsRec : Type := mkVariations {
  Pictures : option (list PicSet)
}.

Record NameValue : Type := mkNameValue {
  Name : option (list string);
  Value : option (list string)
}.

(** [NameValueList]: absent, an array, or a value that is not an array
    (on which [.find] is not a function). *)
Inductive NameValueListField : Type :=
| NvlAbsent
| NvlArray (l : list NameValue)
| NvlNotArray.

Record ItemSpecificsRec : Type := mkItemSpecifics {
  NameValueList : NameValueListField
}.

Record ReturnPolicyRec : Type := mkReturnPolicy {
  ReturnsAccepted : option (list string);
  ReturnsWithin : option (list string);
  ShippingCostPaidBy : option (list string);
  Refund : option (list string)
}.

(** ListingDetail: [GetSingleItemResponse.Item[0]] as xml2js delivers it. *)
Record Item : Type := mkItem {
  Description : option (list string);
  PictureURL : UrlField;
  GalleryURL : option (list Url);
  PictureDetails : option PictureDetailsRec;
  Variations : option VariationsRec;
  ItemSpecifics : option (list ItemSpecificsRec);
  Quantity : option (list string);
  ReturnPolicy : option (list ReturnPolicyRec)
}.

(** What [getShoppingApiDetails] resolves to. *)
Record AdditionalDetails : Type := mkAdditionalDetails {
  ad_description : option string;
  ad_images : list Url;
  ad_details : option Item
}.

(** [{ images: [] }]. *)
Definition no_details : AdditionalDetails := mkAdditionalDetails None [] None.

(** EnrichedListing: [{...listing, ...additionalDetails, images,
    originalListing}]. *)
Record EnrichedListing : Type := mkEnriched {
  summary : Listing;
  description : option string;
  details : option Item;
  images : list Url;
  originalListing : Listing
}.

(* ===================================================================== *)
(** ** Image extraction *)
(* ===================================================================== *)

(** [images.add(x)] on a JavaScript [Set], kept as the list of its
    elements in insertion order. *)
Definition set_add (x : Url) (images : list Url) : list Url :=
  ListSet.set_add Url_dec x images.

(** [urls.forEach((url) => { if (url) images.add(this.convertToHighRes(url)) })]. *)
Definition add_urls (urls : list Url) (images : list Url) : list Url :=
  fold_left
    (fun images url =>
       if Js.truthy url then set_add (convertToHighRes_val url) images
       else images)
    urls images.

(** [new Set(arr)], then [Array.from] or spread. *)
Definition set_of (arr : list Url) : list Url :=
  fold_left (fun images x => set_add x images) arr [].

Definition extractBasicImages (listing : Listing) : list Url :=
  let images := [] in
  let images :=
    if Js.truthy (galleryURL listing)
    then set_add (convertToHighRes_val (galleryURL listing)) images
    else images in
  let images := add_urls (urls_of (pictureURL listing)) images in
  images.

Definition extractAllImages (item : Item) : list Url :=
  let images := [] in
  let images := add_urls (urls_of (PictureURL item)) images in
  let images :=
    match GalleryURL item with
    | Some g =>
        if Js.truthy (nth 0 g None)
        then set_add (convertToHighRes_val (nth 0 g None)) images
        else images
    | None => images
    end in
  let images :=
    match PictureDetails item with
    | Some pd =>
        let images :=
          match pd_GalleryURL pd with
          | Some g => set_add (convertToHighRes_val (nth 0 g None)) images
          | None => images
          end in
        add_urls (urls_of (pd_PictureURL pd)) images
    | None => images
    end in
  let images :=
    match Variations item with
    | Some v =>
        match Pictures v with
        | Some pics =>
            fold_left
              (fun images picSet => add_urls (urls_of (ps_PictureURL picSet)) images)
              pics images
        | None => images
        end
    | None => images
    end in
  images.

(** [[...basicImages, ...(additionalDetails.images || [])].filter((url) => !!url)]. *)
Definition combinedImages (basicImages : list Url) (additionalDetails : AdditionalDetails)
  : list Url :=
  filter Js.truthy (basicImages ++ ad_images additionalDetails).

(** [[...new Set(combinedImages)].map((url) => this.convertToHighRes(url))]. *)
Definition uniqueImages (combined : list Url) : list Url :=
  map convertToHighRes_val (set_of combined).

(** The record pushed on the success path. *)
Definition enriched (listing : Listing) (additionalDetails : AdditionalDetails)
  : EnrichedListing :=
  mkEnriched listing
    (ad_description additionalDetails)
    (ad_details additionalDetails)
    (uniqueImages (combinedImages (extractBasicImages listing) additionalDetails))
    listing.

(** The record pushed by the [catch] block: basic listing data only. *)
Definition fallback (listing : Listing) : EnrichedListing :=
  mkEnriched listing None None (extractBasicImages listing) listing.

(* ===================================================================== *)
(** ** Effects: the world, the remote services and the service monad *)
(* ===================================================================== *)

(** [error?.response?.data] of a caught error: absent, a string body, or
    an object (which has no [includes] method). *)
Inductive ErrData : Type :=
| NoData
| StrData (body : string)
| ObjData.

Record JsError : Type := mkError {
  message : string;
  response_data : ErrData
}.

(** An XML child node as the service reads it: absent, a plain string, or
    an array of strings.  With its default options, which
    [parseXmlResponse] uses, xml2js delivers every child node that is
    present as an array; a plain string is what the comparisons of the
    service expect. *)
Inductive XmlText : Type :=
| XAbsent
| XString (s : string)
| XArray (l : list string).

(** [x === 'lit'] on such a node. *)
Definition is_string (x : XmlText) (lit : string) : bool :=
  match x with
  | XString s => s =? lit
  | _ => false
  end.

Record ApiError : Type := mkApiError {
  ShortMessage : XmlText;
  LongMessage : XmlText;
  ErrorCode : XmlText
}.

Inductive ErrorsField : Type :=
| ErrorsNotArray
| ErrorsArray (errors : list ApiError).

Record GetSingleItemResponse : Type := mkResponse {
  Ack : XmlText;
  Errors : ErrorsField;
  Item_ : option (list Item)
}.

(** Outcome of [getApplicationToken] followed by [JSON.parse]. *)
Inductive TokenOutcome : Type :=
| TokenRejected (e : JsError)
| TokenGranted (access_token : option string).

(** Outcome of the [axios] POST followed by [parseXmlResponse]. *)
Inductive DetailOutcome : Type :=
| AxiosRejected (e : JsError)
| XmlRejected (e : JsError)
| Parsed (result : option GetSingleItemResponse).

(** Outcome of [finding.findItemsIneBayStores];
    [PageResult x] carries [searchResults?.searchResult?.item]. *)
Inductive PageOutcome : Type :=
| PageRejected (e : JsError)
| PageResult (item : option (list Listing)).

(** The remote services.  The token endpoint and the detail API answer by
    the number of calls made before; the detail API also sees the token
    and the item identifier of the request.  The search API answers by
    page number. *)
Record Remote : Type := mkRemote {
  getApplicationToken : nat -> TokenOutcome;
  axios_post : nat -> option string -> string -> DetailOutcome;
  findItemsIneBayStores : nat -> PageOutcome
}.

Inductive LogEntry : Type :=
| LogTokenRefreshed
| LogTokenRefreshFailed (e : JsError)
| LogPageFound (page : nat) (found : nat)
| LogReachedEnd (page : nat)
| LogNoMoreItems (page : nat)
| LogPageError (page : nat) (e : JsError)
| LogProcessing (listing : Listing)
| LogMissingItemId (listing : Listing)
| LogListingError (e : JsError)
| LogApiError (short long : XmlText)
| LogShoppingApiError (e : JsError).

Record World : Type := mkWorld {
  applicationToken : option string;
  tokenCalls : nat;
  detailCalls : nat;
  pagesRequested : list nat;
  log : list LogEntry
}.

Inductive Result (A : Type) : Type :=
| Ok (a : A)
| Throw (e : JsError).
Arguments Ok {A} a.
Arguments Throw {A} e.

(** A computation of the service: it reads and updates the world and ends
    normally or by an exception; [None] stands for a run that was cut off
    because the retry budget of the model was used up. *)
Definition M (A : Type) : Type := World -> option (Result A * World).

Definition ret {A : Type} (a : A) : M A := fun w => Some (Ok a, w).

Definition throw {A : Type} (e : JsError) : M A := fun w => Some (Throw e, w).

Definition bind {A B : Type} (m : M A) (k : A -> M B) : M B :=
  fun w =>
    match m w with
    | Some (Ok a, w') => k a w'
    | Some (Throw e, w') => Some (Throw e, w')
    | None => None
    end.

(** [try { m } catch (error) { handler error }]. *)
Definition try_catch {A : Type} (m : M A) (handler : JsError -> M A) : M A :=
  fun w =>
    match m w with
    | Some (Ok a, w') => Some (Ok a, w')
    | Some (Throw e, w') => handler e w'
    | None => None
    end.

Declare Scope service_scope.
Delimit Scope service_scope with service.
Notation "x <- m ;; k" := (bind m (fun x => k))
  (at level 61, m at next level, right associativity) : service_scope.
Notation "m ;; k" := (bind m (fun _ => k))
  (at level 61, right associativity) : service_scope.
Open Scope service_scope.

Definition logger (entry : LogEntry) : M unit :=
  fun w =>
    Some (Ok tt,
          mkWorld (applicationToken w) (tokenCalls w) (detailCalls w)
                  (pagesRequested w) (log w ++ [entry])).

Definition TypeError (msg : string) : JsError := mkError msg NoData.
Definition Error (msg : string) : JsError := mkError msg NoData.

Definition refreshApplicationToken (R : Remote) : M unit :=
  fun w =>
    match getApplicationToken R (tokenCalls w) with
    | TokenGranted access_token =>
        Some (Ok tt,
              mkWorld access_token (S (tokenCalls w)) (detailCalls w)
                      (pagesRequested w) (log w ++ [LogTokenRefreshed]))
    | TokenRejected e =>
        Some (Throw e,
              mkWorld (applicationToken w) (S (tokenCalls w)) (detailCalls w)
                      (pagesRequested w) (log w ++ [LogTokenRefreshFailed e]))
    end.

(** The POST of the [GetSingleItem] request with the current token, and the
    parse of its answer. *)
Definition post_GetSingleItem (R : Remote) (itemId : string)
  : M (option GetSingleItemResponse) :=
  fun w =>
    let w' := mkWorld (applicationToken w) (tokenCalls w) (S (detailCalls w))
                      (pagesRequested w) (log w) in
    match axios_post R (detailCalls w) (applicationToken w) itemId with
    | AxiosRejected e => Some (Throw e, w')
    | XmlRejected e => Some (Throw e, w')
    | Parsed result => Some (Ok result, w')
    end.

(** [this.refreshApplicationToken()] started and not awaited: the body
    runs up to its first [await], that is, the call to the token endpoint
    is issued, and the caller goes on at once.  What follows the answer
    (the new token and its log line, or the logged and re-raised error,
    which nobody handles) happens after the detail call has returned and
    is not part of the model. *)
Definition refreshApplicationToken_started (R : Remote) : M unit :=
  fun w =>
    Some (Ok tt,
          mkWorld (applicationToken w) (S (tokenCalls w)) (detailCalls w)
                  (pagesRequested w) (log w)).

Definition is_token_code (error : ApiError) : bool :=
  is_string (ErrorCode error) "1.32" || is_string (ErrorCode error) "1.33".

(** [if (Array.isArray(errors)) errors.forEach(...)]. *)
Fixpoint report_errors (R : Remote) (errors : list ApiError) : M unit :=
  match errors with
  | [] => ret tt
  | error :: rest =>
      logger (LogApiError (ShortMessage error) (LongMessage error)) ;;
      (if is_token_code error
       then refreshApplicationToken_started R
       else ret tt) ;;
      report_errors R rest
  end.

Definition errors_of (f : ErrorsField) : list ApiError :=
  match f with
  | ErrorsArray errors => errors
  | ErrorsNotArray => []
  end.

(** [data?.includes('Invalid token') || data?.includes('Token not available')]
    on a string body. *)
Definition invalid_token_body (body : string) : bool :=
  Js.includes body "Invalid token" || Js.includes body "Token not available".

(** The [try] block of [getShoppingApiDetails(itemId)]. *)
Definition getShoppingApiDetails_try (R : Remote) (itemId : string)
  : M AdditionalDetails :=
  (fun w =>
     if Js.truthy (applicationToken w) then ret tt w
     else refreshApplicationToken R w) ;;
  result <- post_GetSingleItem R itemId ;;
  match result with
  | Some response =>
      if is_string (Ack response) "Failure" then
        report_errors R (errors_of (Errors response)) ;;
        throw (Error "eBay API request failed")
      else
        match Item_ response with
        | Some (item :: _) =>
            ret (mkAdditionalDetails
                   (idx0 (Description item))
                   (extractAllImages item)
                   (Some item))
        | Some [] =>
            throw (TypeError "Cannot read properties of undefined")
        | None => ret no_details
        end
  | None => ret no_details
  end.

(** [getShoppingApiDetails(itemId)]: the [try] block and its [catch].
    [fuel] bounds the depth of the recursive retries. *)
Fixpoint getShoppingApiDetails (R : Remote) (fuel : nat) (itemId : string)
  : M AdditionalDetails :=
  match fuel with
  | O => fun _ => None
  | S fuel' =>
      try_catch
        (getShoppingApiDetails_try R itemId)
        (fun error =>
           logger (LogShoppingApiError error) ;;
           match response_data error with
           | StrData body =>
               if invalid_token_body body then
                 refreshApplicationToken R ;;
                 getShoppingApiDetails R fuel' itemId
               else ret no_details
           | NoData => ret no_details
           | ObjData => throw (TypeError "includes is not a function")
           end)
  end.

(** One turn of the [for (const listing of listings)] loop of
    [getDetailedListings]. *)
Definition getDetailedListings_step (R : Remote) (fuel : nat)
    (listing : Listing) (detailedListings : list EnrichedListing)
  : M (list EnrichedListing) :=
  try_catch
    (logger (LogProcessing listing) ;;
     match itemId listing with
     | Some id =>
         if id =? "" then
           logger (LogMissingItemId listing) ;; ret detailedListings
         else
           additionalDetails <- getShoppingApiDetails R fuel id ;;
           ret (detailedListings ++ [enriched listing additionalDetails])
     | None =>
         logger (LogMissingItemId listing) ;; ret detailedListings
     end)
    (fun error =>
       logger (LogListingError error) ;;
       ret (detailedListings ++ [fallback listing])).

Fixpoint getDetailedListings_loop (R : Remote) (fuel : nat)
    (listings : list Listing) (detailedListings : list EnrichedListing)
  : M (list EnrichedListing) :=
  match listings with
  | [] => ret detailedListings
  | listing :: rest =>
      detailedListings' <- getDetailedListings_step R fuel listing detailedListings ;;
      getDetailedListings_loop R fuel rest detailedListings'
  end.

Definition getDetailedListings (R : Remote) (fuel : nat) (listings : list Listing)
  : M (list EnrichedListing) :=
  getDetailedListings_loop R fuel listings [].

(* ===================================================================== *)
(** ** The fetcher *)
(* ===================================================================== *)

Definition BATCH_SIZE : nat := 10.
Definition MAX_PAGES : nat := 1.

Definition request_page (page : nat) : M unit :=
  fun w =>
    Some (Ok tt,
          mkWorld (applicationToken w) (tokenCalls w) (detailCalls w)
                  (pagesRequested w ++ [page]) (log w)).

(** [for (let page = ...; page <= last; page++)] with [remaining] turns
    left, [remaining = last + 1 - page]. *)
Fixpoint fetch_pages (R : Remote) (remaining : nat) (page : nat)
    (allItems : list Listing) : M (list Listing) :=
  match remaining with
  | O => ret allItems
  | S remaining' =>
      request_page page ;;
      match findItemsIneBayStores R page with
      | PageResult (Some items) =>
          logger (LogPageFound page (length items)) ;;
          if (length items <? BATCH_SIZE)%nat then
            logger (LogReachedEnd page) ;; ret (allItems ++ items)
          else fetch_pages R remaining' (S page) (allItems ++ items)
      | PageResult None =>
          logger (LogNoMoreItems page) ;; ret allItems
      | PageRejected e =>
          logger (LogPageError page e) ;;
          fetch_pages R remaining' (S page) allItems
      end
  end.

Definition getAllEbayListings (R : Remote) : M (list Listing) :=
  fetch_pages R MAX_PAGES 1 [].

(* ===================================================================== *)
(** ** The mapper *)
(* ===================================================================== *)

Module Wix.

Record PriceData : Type := mkPriceData {
  currency : string;
  price : Js.number
}.

Record Inventory : Type := mkInventory {
  status : string;
  quantity : Js.number;
  trackQuantity : bool
}.

Record InfoSection : Type := mkInfoSection {
  title : string;
  description : string
}.

Inductive SeoTag : Type :=
| TitleTag (children : string)
| MetaTag (name content : string).

(** DestinationProduct. *)
Record Product : Type := mkProduct {
  name : option string;
  productType : string;
  priceData : PriceData;
  product_description : option string;
  sku : string;
  visible : bool;
  weight : Z;
  ribbon : string;
  inventory : Inventory;
  additionalInfoSections : list InfoSection;
  brand : string;
  seoData : list SeoTag
}.

End Wix.

Definition newline : string := String (ascii_of_nat 10) EmptyString.

(** The maximum length of a product description. *)
Definition MAX_DESCRIPTION : nat := 8 * 1000.

(** How a template literal prints an array of strings or [undefined]. *)
Definition interpolate (x : option (list string)) : string :=
  match x with
  | Some l => Js.join "," l
  | None => "undefined"
  end.

(** [listing.details?.ItemSpecifics?.[0]?.NameValueList]. *)
Definition nameValueList_of (listing : EnrichedListing) : NameValueListField :=
  match details listing with
  | Some item =>
      match idx0 (ItemSpecifics item) with
      | Some specifics => NameValueList specifics
      | None => NvlAbsent
      end
  | None => NvlAbsent
  end.

Definition formatItemSpecifics (nameValueList : NameValueListField) : string :=
  match nameValueList with
  | NvlArray l =>
      Js.join (newline ++ newline)%string
        (map (fun item =>
                let values :=
                  match Value item with
                  | Some v => Js.join ", " v
                  | None => "undefined"
                  end in
                ("**" ++ interpolate (Name item) ++ ":** " ++ values)%string)
             l)
  | _ => ""
  end.

Definition formatReturnPolicy (returnPolicy : option ReturnPolicyRec) : string :=
  match returnPolicy with
  | None => ""
  | Some rp =>
      let push (label : string) (field : option (list string)) (policies : list string) :=
        match field with
        | Some v => policies ++ [(label ++ interpolate (Some v))%string]
        | None => policies
        end in
      let policies := [] in
      let policies := push "Returns: " (ReturnsAccepted rp) policies in
      let policies := push "Return Window: " (ReturnsWithin rp) policies in
      let policies := push "Return Shipping: Paid by " (ShippingCostPaidBy rp) policies in
      let policies := push "Refund Type: " (Refund rp) policies in
      Js.join newline policies
  end.

(** [extractBrand(listing)]: raises when [NameValueList] is present and has
    no [find] method. *)
Definition extractBrand (listing : EnrichedListing) : Result string :=
  match nameValueList_of listing with
  | NvlAbsent => Ok ""
  | NvlNotArray => Throw (TypeError "find is not a function")
  | NvlArray l =>
      match find (fun spec =>
                    match idx0 (Name spec) with
                    | Some n => n =? "Brand"
                    | None => false
                    end) l with
      | Some spec => Ok (Js.or_lit (idx0 (Value spec)) "")
      | None => Ok ""
      end
  end.

(** [listing.condition?.conditionDisplayName || '']. *)
Definition condition_label (listing : EnrichedListing) : string :=
  Js.or_lit
    (match condition (summary listing) with
     | Some c => conditionDisplayName c
     | None => None
     end) "".

Definition createMetaDescription (listing : EnrichedListing) : Result string :=
  let condition := condition_label listing in
  match extractBrand listing with
  | Ok brand =>
      let baseDesc := Js.or_lit (title (summary listing)) "" in
      Ok (Js.slice0 160
            (Js.trim (condition ++ " " ++ brand ++ " " ++ baseDesc)%string))
  | Throw e => Throw e
  end.

(** [x?.currentPrice?.f] and [x?.convertedCurrentPrice?.f]. *)
Definition current_price_field (listing : EnrichedListing)
    (f : Price -> option string) : option string :=
  match sellingStatus (summary listing) with
  | Some st => match currentPrice st with Some p => f p | None => None end
  | None => None
  end.

Definition converted_price_field (listing : EnrichedListing)
    (f : Price -> option string) : option string :=
  match sellingStatus (summary listing) with
  | Some st => match convertedCurrentPrice st with Some p => f p | None => None end
  | None => None
  end.

(** [convertToWixProduct(listing)]; [random_sku] stands for
    [Math.random().toString(36).substring(7)]. *)
Definition convertToWixProduct (listing : EnrichedListing) (random_sku : string)
  : Result Wix.Product :=
  let itemSpecifics := formatItemSpecifics (nameValueList_of listing) in
  match extractBrand listing with
  | Throw e => Throw e
  | Ok brand =>
      match createMetaDescription listing with
      | Throw e => Throw e
      | Ok meta =>
          Ok (Wix.mkProduct
                (title (summary listing))
                "physical"
                (Wix.mkPriceData
                   (Js.or_lit (current_price_field listing currencyId) "USD")
                   (Js.parseFloat
                      (Js.or_lit
                         (Js.or_else (current_price_field listing value)
                                     (converted_price_field listing value))
                         "0")))
                (match description listing with
                 | Some d =>
                     if (MAX_DESCRIPTION <? String.length d)%nat
                     then Some (Js.slice0 MAX_DESCRIPTION d)
                     else Some d
                 | None => None
                 end)
                random_sku
                true
                0%Z
                (condition_label listing)
                (Wix.mkInventory
                   "IN_STOCK"
                   (Js.parseInt10
                      (Js.or_lit
                         (match details listing with
                          | Some item => idx0 (Quantity item)
                          | None => None
                          end)
                         "1"))
                   true)
                [ Wix.mkInfoSection "Product Details" itemSpecifics;
                  Wix.mkInfoSection "Return Policy"
                    (formatReturnPolicy
                       (match details listing with
                        | Some item => idx0 (ReturnPolicy item)
                        | None => None
                        end)) ]
                (match brand with "" => "Unbranded" | b => b end)
                [ Wix.TitleTag (Js.or_lit (title (summary listing)) "");
                  Wix.MetaTag "description" meta ])
      end
  end.

(* ===================================================================== *)
(** ** Vocabulary of the statements *)
(* ===================================================================== *)

(** The leftmost size suffix of [s], when there is one, is [/s-l1600.]. *)
Fixpoint size_suffix_canonical (s : string) : bool :=
  match match_size_suffix s with
  | Some _ =>
      match Js.strip_prefix "/s-l1600." s with
      | Some _ => true
      | None => false
      end
  | None =>
      match s with
      | EmptyString => true
      | String _ s' => size_suffix_canonical s'
      end
  end.

(** A URL in high-resolution form: no [/thumbs/] segment, no [-thumb.]
    suffix, and a size suffix, if any, that is the large one. *)
Definition canonical (url : string) : bool :=
  negb (Js.includes url "/thumbs/")
  && size_suffix_canonical url
  && negb (Js.includes url "-thumb.").

(** [q] occurs at the head of [s]. *)
Definition starts (q s : string) : bool :=
  match Js.strip_prefix q s with
  | Some _ => true
  | None => false
  end.

(** Number of positions of [s] at which [pat] occurs. *)
Fixpoint occurrences (pat s : string) : nat :=
  match s with
  | EmptyString => 0
  | String _ s' => (if starts pat s then 1 else 0) + occurrences pat s'
  end.

(** Some digit of [s] is directly followed by [-thumb.]. *)
Fixpoint digit_before_thumb (s : string) : bool :=
  match s with
  | EmptyString => false
  | String c s' =>
      (Js.is_digit c && starts "-thumb." s') || digit_before_thumb s'
  end.

(** A URL in which each marker of the upgrade occurs once at most: at most
    one [/thumbs/] segment and at most one [-thumb.] suffix, and that
    suffix follows neither another [-thumb] nor a digit. *)
Definition single_markers (url : string) : bool :=
  (occurrences "/thumbs/" url <=? 1)%nat
  && (occurrences "-thumb." url <=? 1)%nat
  && negb (Js.includes url "-thumb-thumb.")
  && negb (digit_before_thumb url).

(** The character [a] occurs in [q] at its last position only, if at
    all. *)
Fixpoint only_last (a : ascii) (q : string) : bool :=
  match q with
  | EmptyString => true
  | String c q' =>
      match q' with
      | EmptyString => true
      | String _ _ => negb (Ascii.eqb c a) && only_last a q'
      end
  end.

(** The character [a] does not occur in [q]. *)
Fixpoint lacks (a : ascii) (q : string) : bool :=
  match q with
  | EmptyString => true
  | String c q' => negb (Ascii.eqb c a) && lacks a q'
  end.

(** [add_all l images]: the elements of [l] added to a set one by one. *)
Definition add_all (l : list Url) (images : list Url) : list Url :=
  fold_left (fun images x => set_add x images) l images.

(** The elements of [l] that are new with respect to [seen], each once,
    in the order of their first occurrence. *)
Fixpoint fresh (seen : list Url) (l : list Url) : list Url :=
  match l with
  | [] => []
  | x :: l' =>
      if set_mem Url_dec x seen then fresh seen l'
      else x :: fresh (seen ++ [x]) l'
  end.

(** The raw image URLs of a summary, gallery URL first. *)
Definition summary_urls (listing : Listing) : list Url :=
  galleryURL listing :: urls_of (pictureURL listing).

(** The raw image URLs that [extractAllImages] hands to the upgrade, in
    the order in which it does. *)
Definition detail_urls (item : Item) : list Url :=
  filter Js.truthy (urls_of (PictureURL item))
  ++ match GalleryURL item with
     | Some g => filter Js.truthy [nth 0 g None]
     | None => []
     end
  ++ match PictureDetails item with
     | Some pd =>
         match pd_GalleryURL pd with
         | Some g => [nth 0 g None]
         | None => []
         end
         ++ filter Js.truthy (urls_of (pd_PictureURL pd))
     | None => []
     end
  ++ match Variations item with
     | Some v =>
         match Pictures v with
         | Some pics =>
             flat_map (fun picSet => filter Js.truthy (urls_of (ps_PictureURL picSet))) pics
         | None => []
         end
     | None => []
     end.

(** [!!listing?.itemId]. *)
Definition has_itemId (listing : Listing) : bool := Js.truthy (itemId listing).

(** The caught error carries one of the two invalid-token texts. *)
Definition token_signal (e : JsError) : bool :=
  match response_data e with
  | StrData body => invalid_token_body body
  | _ => false
  end.

Definition detail_signal (o : DetailOutcome) : bool :=
  match o with
  | AxiosRejected e => token_signal e
  | XmlRejected e => token_signal e
  | Parsed _ => false
  end.

Definition refresh_signal (o : TokenOutcome) : bool :=
  match o with
  | TokenRejected e => token_signal e
  | TokenGranted _ => false
  end.

(** From call number [bound] on, neither remote answers with an
    invalid-token text. *)
Definition quiet_from (R : Remote) (bound : nat) : Prop :=
  forall n, bound <= n ->
    (forall token id, detail_signal (axios_post R n token id) = false)
    /\ refresh_signal (getApplicationToken R n) = false.

(** Distance of the call counters to [bound]. *)
Definition budget (bound : nat) (w : World) : nat :=
  (bound - tokenCalls w) + (bound - detailCalls w).

(** The world with one more log entry. *)
Definition logged (entry : LogEntry) (w : World) : World :=
  mkWorld (applicationToken w) (tokenCalls w) (detailCalls w)
          (pagesRequested w) (log w ++ [entry]).

(** The world after one more request to the detail API. *)
Definition requested (w : World) : World :=
  mkWorld (applicationToken w) (tokenCalls w) (S (detailCalls w))
          (pagesRequested w) (log w).

(** A page ends the fetch: it has no item list or fewer items than a
    full page. *)
Definition last_page (o : PageOutcome) : bool :=
  match o with
  | PageResult (Some items) => (length items <? BATCH_SIZE)%nat
  | PageResult None => true
  | PageRejected _ => false
  end.

(** The items a page contributes. *)
Definition page_items (o : PageOutcome) : list Listing :=
  match o with
  | PageResult (Some items) => items
  | _ => []
  end.

(** What the detail call handed to the upgrade, when it found an item. *)
Definition detail_raw (ad : AdditionalDetails) : list Url :=
  match ad_details ad with
  | Some item => detail_urls item
  | None => []
  end.

(* ===================================================================== *)
(** ** Sample worlds, remotes and listings *)
(* ===================================================================== *)

Module Sample.

(** A world in which a token is present and nothing has happened yet. *)
Definition w_token : World := mkWorld (Some "v^1.1#i^1#token") 0 0 [] [].

Definition invalid_token_error : JsError :=
  mkError "Request failed with status code 401"
          (StrData "<Errors><ShortMessage>Invalid token</ShortMessage></Errors>").

(** The detail API rejects the first [k] requests with an invalid-token
    body and finds nothing afterwards; the token endpoint always grants. *)
Definition R_invalid (k : nat) : Remote :=
  mkRemote
    (fun _ => TokenGranted (Some "v^1.1#i^1#fresh"))
    (fun n _ _ => if (n <? k)%nat then AxiosRejected invalid_token_error
                  else Parsed None)
    (fun _ => PageResult None).

(** The detail API rejects every request with an invalid-token body. *)
Definition R_always_invalid : Remote :=
  mkRemote
    (fun _ => TokenGranted (Some "v^1.1#i^1#fresh"))
    (fun _ _ _ => AxiosRejected invalid_token_error)
    (fun _ => PageResult None).

(** A failure answer with error code 1.32 as xml2js delivers it with its
    default options: every child node is an array. *)
Definition failure_response : GetSingleItemResponse :=
  mkResponse (XArray ["Failure"])
    (ErrorsArray
       [mkApiError (XArray ["Invalid token."])
                   (XArray ["Invalid token. Please specify a valid token."])
                   (XArray ["1.32"])])
    None.

Definition R_ack_failure : Remote :=
  mkRemote
    (fun _ => TokenGranted (Some "v^1.1#i^1#fresh"))
    (fun _ _ _ => Parsed (Some failure_response))
    (fun _ => PageResult None).

(** The detail API rejects every request with a JSON object as body, which
    makes the [catch] block of the detail call raise. *)
Definition R_object_body : Remote :=
  mkRemote
    (fun _ => TokenGranted (Some "v^1.1#i^1#fresh"))
    (fun _ _ _ => AxiosRejected (mkError "Request failed with status code 500" ObjData))
    (fun _ => PageResult None).

(** The detail API finds no item. *)
Definition R_no_item : Remote :=
  mkRemote
    (fun _ => TokenGranted (Some "v^1.1#i^1#fresh"))
    (fun _ _ _ => Parsed None)
    (fun _ => PageResult None).

Definition bare_item : Item :=
  mkItem None UrlAbsent None None None None None None.

(** The detail API returns one picture, already in large size. *)
Definition R_one_picture : Remote :=
  mkRemote
    (fun _ => TokenGranted (Some "v^1.1#i^1#fresh"))
    (fun _ _ _ =>
       Parsed (Some
         (mkResponse (XString "Success") ErrorsNotArray
            (Some [mkItem None
                     (UrlArray [Some "https://i.ebayimg.com/images/g/abc/s-l1600.jpg"])
                     None None None None None None]))))
    (fun _ => PageResult None).

(** A summary whose gallery URL is the thumbnail of that picture. *)
Definition listing_thumbnail : Listing :=
  mkListing (Some "110") (Some "Lamp")
    (Some "https://i.ebayimg.com/thumbs/images/g/abc/s-l64.jpg")
    UrlAbsent None None.

(** A summary without an item identifier. *)
Definition listing_no_id : Listing :=
  mkListing None (Some "Lamp")
    (Some "https://i.ebayimg.com/images/g/abc/s-l64.jpg")
    UrlAbsent None None.

(** A summary whose two image URLs differ after one upgrade and agree
    after two. *)
Definition listing_nested_thumbs : Listing :=
  mkListing (Some "110") (Some "Lamp")
    (Some "https://i.ebayimg.com/thumbs/thumbs/a.jpg")
    (UrlSingle "https://i.ebayimg.com/thumbs/a.jpg")
    None None.

(** A summary with a gallery URL and two pictures. *)
Definition listing_three : Listing :=
  mkListing (Some "111") (Some "Vase")
    (Some "https://i.ebayimg.com/thumbs/images/g/v/s-l64.jpg")
    (UrlArray [Some "https://i.ebayimg.com/images/g/v/s-l225.jpg";
               Some "https://i.ebayimg.com/images/g/w/s-l225.jpg"])
    None None.

(** An enriched listing with every optional nested field absent. *)
Definition enriched_bare : EnrichedListing :=
  mkEnriched (mkListing (Some "110") None None UrlAbsent None None)
             None None [] (mkListing (Some "110") None None UrlAbsent None None).

(** The same with a quantity that is present and not a number. *)
Definition enriched_bad_quantity : EnrichedListing :=
  mkEnriched (mkListing (Some "110") None None UrlAbsent None None)
             None
             (Some (mkItem None UrlAbsent None None None None (Some ["abc"]) None))
             [] (mkListing (Some "110") None None UrlAbsent None None).

(** [n] copies of the letter x. *)
Fixpoint xs (n : nat) : string :=
  match n with
  | O => EmptyString
  | S n' => String "x" (xs n')
  end.

(** An enriched listing whose description is one character too long. *)
Definition enriched_long : EnrichedListing :=
  mkEnriched (mkListing (Some "110") (Some "Lamp") None UrlAbsent None None)
             (Some (xs (S MAX_DESCRIPTION))) None []
             (mkListing (Some "110") (Some "Lamp") None UrlAbsent None None).

Definition product_long : Wix.Product :=
  Wix.mkProduct (Some "Lamp") "physical" (Wix.mkPriceData "USD" (Js.Fin 0 0))
    (Some (xs MAX_DESCRIPTION)) "k3x9qf" true 0%Z ""
    (Wix.mkInventory "IN_STOCK" (Js.Fin 1 0) true)
    [Wix.mkInfoSection "Product Details" ""; Wix.mkInfoSection "Return Policy" ""]
    "Unbranded"
    [Wix.TitleTag "Lamp"; Wix.MetaTag "description" "Lamp"].

End Sample.

(* ===================================================================== *)
(** ** The publisher and the scheduled run *)
(* ===================================================================== *)

(** What the detail call resolves to on a parsed answer. *)
Definition details_of (result : option GetSingleItemResponse) : AdditionalDetails :=
  match result with
  | Some response =>
      if is_string (Ack response) "Failure" then no_details
      else
        match Item_ response with
        | Some (item :: _) =>
            mkAdditionalDetails (idx0 (Description item)) (extractAllImages item)
                                (Some item)
        | _ => no_details
        end
  | None => no_details
  end.

(** Outcome of the POST to [/stores/v1/products]: rejected, or the
    response data, of which the service reads [product.id].  [None] is a
    response without [product]; [Some id] one whose product has the
    identifier [id] (possibly absent). *)
Inductive CreateOutcome : Type :=
| CreateRejected (e : JsError)
| CreateResponse (product : option (option string)).

(** Outcome of the POST to [/stores/v1/products/<id>/media]. *)
Inductive MediaOutcome : Type :=
| MediaRejected (e : JsError)
| MediaAttached.

(** The Wix API and the random generator: both answer by the number of
    calls made before; the API also sees the payload. *)
Record WixRemote : Type := mkWixRemote {
  wix_create : nat -> Wix.Product -> CreateOutcome;
  wix_media : nat -> option string -> list Url -> MediaOutcome;
  random_sku : nat -> string
}.

Inductive PublishLog : Type :=
| LogCreateError (e : JsError)
| LogMediaError (e : JsError)
| LogPublishError (listing_title : option string) (error_message : string)
| LogProcessed (processedCount total : nat)
| LogProcessedTotal (processedCount : nat)
| LogSyncStart
| LogRetrieved (found : nat)
| LogBatch (number : nat)
| LogNoListings
| LogSyncCompleted
| LogSyncError (e : JsError).

(** The state of a whole run: the world of the eBay side, the payloads
    posted to Wix so far, the number of random SKUs drawn, and the log
    lines of the publisher and of the run. *)
Record Run : Type := mkRun {
  ebay : World;
  skuDraws : nat;
  createCalls : list Wix.Product;
  mediaCalls : list (option string * list Url);
  publishLog : list PublishLog
}.

(** Computations of the publisher and of the run. *)
Definition P (A : Type) : Type := Run -> option (Result A * Run).

Definition retP {A : Type} (a : A) : P A := fun st => Some (Ok a, st).

Definition throwP {A : Type} (e : JsError) : P A := fun st => Some (Throw e, st).

Definition bindP {A B : Type} (m : P A) (k : A -> P B) : P B :=
  fun st =>
    match m st with
    | Some (Ok a, st') => k a st'
    | Some (Throw e, st') => Some (Throw e, st')
    | None => None
    end.

Definition try_catchP {A : Type} (m : P A) (handler : JsError -> P A) : P A :=
  fun st =>
    match m st with
    | Some (Ok a, st') => Some (Ok a, st')
    | Some (Throw e, st') => handler e st'
    | None => None
    end.

(** A computation of the eBay side, run inside the whole run. *)
Definition on_ebay {A : Type} (m : M A) : P A :=
  fun st =>
    match m (ebay st) with
    | Some (res, w') =>
        Some (res, mkRun w' (skuDraws st) (createCalls st) (mediaCalls st)
                         (publishLog st))
    | None => None
    end.

Declare Scope run_scope.
Delimit Scope run_scope with run.
Notation "x <- m ;; k" := (bindP m (fun x => k))
  (at level 61, m at next level, right associativity) : run_scope.
Notation "m ;; k" := (bindP m (fun _ => k))
  (at level 61, right associativity) : run_scope.

Definition loggerP (entry : PublishLog) : P unit :=
  fun st =>
    Some (Ok tt,
          mkRun (ebay st) (skuDraws st) (createCalls st) (mediaCalls st)
                (publishLog st ++ [entry])).

(** [Math.random().toString(36).substring(7)]. *)
Definition draw_sku (X : WixRemote) : P string :=
  fun st =>
    Some (Ok (random_sku X (skuDraws st)),
          mkRun (ebay st) (S (skuDraws st)) (createCalls st) (mediaCalls st)
                (publishLog st)).

(** A pure result inside a run. *)
Definition of_result {A : Type} (r : Result A) : P A :=
  match r with
  | Ok a => retP a
  | Throw e => throwP e
  end.

(** [createWixProduct(product)]: resolves to [response.data]; a rejection
    is logged and raised again. *)
Definition createWixProduct (X : WixRemote) (product : Wix.Product)
  : P (option (option string)) :=
  fun st =>
    let posted := mkRun (ebay st) (skuDraws st) (createCalls st ++ [product])
                        (mediaCalls st) (publishLog st) in
    match wix_create X (length (createCalls st)) product with
    | CreateResponse data => Some (Ok data, posted)
    | CreateRejected e =>
        Some (Throw e,
              mkRun (ebay st) (skuDraws st) (createCalls st ++ [product])
                    (mediaCalls st) (publishLog st ++ [LogCreateError e]))
    end.

(** [addMediaToWixProduct(productId, mediaUrls)]. *)
Definition addMediaToWixProduct (X : WixRemote) (productId : option string)
    (mediaUrls : list Url) : P unit :=
  fun st =>
    match wix_media X (length (mediaCalls st)) productId mediaUrls with
    | MediaAttached =>
        Some (Ok tt,
              mkRun (ebay st) (skuDraws st) (createCalls st)
                    (mediaCalls st ++ [(productId, mediaUrls)]) (publishLog st))
    | MediaRejected e =>
        Some (Throw e,
              mkRun (ebay st) (skuDraws st) (createCalls st)
                    (mediaCalls st ++ [(productId, mediaUrls)])
                    (publishLog st ++ [LogMediaError e]))
    end.

(** One turn of the [for (const listing of listings)] loop of
    [processListings]; [total] is [listings.length]. *)
Definition processListings_step (X : WixRemote) (total : nat)
    (listing : EnrichedListing) (processedCount : nat) : P nat :=
  try_catchP
    (random <- draw_sku X ;;
     wixProduct <- of_result (convertToWixProduct listing random) ;;
     createdProduct <- createWixProduct X wixProduct ;;
     match images listing with
     | [] => retP tt
     | _ :: _ =>
         match createdProduct with
         | Some id => addMediaToWixProduct X id (images listing)
         | None => throwP (TypeError "Cannot read properties of undefined")
         end
     end ;;
     loggerP (LogProcessed (S processedCount) total) ;;
     retP (S processedCount))%run
    (fun error =>
       loggerP (LogPublishError (title (originalListing listing)) (message error)) ;;
       retP processedCount)%run.

Fixpoint processListings_loop (X : WixRemote) (total : nat)
    (listings : list EnrichedListing) (processedCount : nat) : P nat :=
  match listings with
  | [] => retP processedCount
  | listing :: rest =>
      (processedCount' <- processListings_step X total listing processedCount ;;
       processListings_loop X total rest processedCount')%run
  end.

(** [processListings(listings)]; the model returns [processedCount], which
    the service only logs. *)
Definition processListings (X : WixRemote) (listings : list EnrichedListing)
  : P nat :=
  (processedCount <- processListings_loop X (length listings) listings 0 ;;
   loggerP (LogProcessedTotal processedCount) ;;
   retP processedCount)%run.

(** [for (let i = ...; i < listings.length; i += BATCH_SIZE)] with [turns]
    turns left at most. *)
Fixpoint sync_batches (R : Remote) (X : WixRemote) (fuel : nat)
    (listings : list Listing) (turns : nat) (i : nat) : P unit :=
  match turns with
  | O => retP tt
  | S turns' =>
      if (i <? length listings)%nat then
        (let batch := firstn BATCH_SIZE (skipn i listings) in
         detailedListings <- on_ebay (getDetailedListings R fuel batch) ;;
         processListings X detailedListings ;;
         loggerP (LogBatch (i / BATCH_SIZE + 1)) ;;
         sync_batches R X fuel listings turns' (i + BATCH_SIZE))%run
      else retP tt
  end.

(** [syncEbayListingsWithWix()].  The batch loop makes at most
    [listings.length] turns, since [BATCH_SIZE] is positive. *)
Definition syncEbayListingsWithWix (R : Remote) (X : WixRemote) (fuel : nat)
  : P unit :=
  try_catchP
    (loggerP LogSyncStart ;;
     listings <- on_ebay (getAllEbayListings R) ;;
     loggerP (LogRetrieved (length listings)) ;;
     (if (0 <? length listings)%nat
      then sync_batches R X fuel listings (length listings) 0
      else loggerP LogNoListings) ;;
     loggerP LogSyncCompleted)%run
    (fun error => loggerP (LogSyncError error)).

(** The mapper returns a product for this record. *)
Definition mappable (listing : EnrichedListing) : bool :=
  match nameValueList_of listing with
  | NvlNotArray => false
  | _ => true
  end.

(** What holds of every record of the enricher. *)
Definition well_formed_record (r : EnrichedListing) : Prop :=
  summary r = originalListing r
  /\ has_itemId (originalListing r) = true
  /\ (forall x, In x (images r) -> Js.truthy x = true)
  /\ (r = fallback (originalListing r)
      \/ exists ad, r = enriched (originalListing r) ad).

(** The record carries at least one image. *)
Definition has_images (listing : EnrichedListing) : bool :=
  match images listing with
  | [] => false
  | _ :: _ => true
  end.

Module SampleRun.

(** A Wix API that accepts everything and numbers the products. *)
Definition X_accepts : WixRemote :=
  mkWixRemote
    (fun n _ => CreateResponse (Some (Some "3f2c9a10-product")))
    (fun _ _ _ => MediaAttached)
    (fun _ => "k3x9qf").

(** A Wix API that rejects every product. *)
Definition X_rejects : WixRemote :=
  mkWixRemote
    (fun _ _ => CreateRejected (mkError "Request failed with status code 400" NoData))
    (fun _ _ _ => MediaAttached)
    (fun _ => "k3x9qf").

(** A Wix API that creates products and rejects their media. *)
Definition X_no_media : WixRemote :=
  mkWixRemote
    (fun n _ => CreateResponse (Some (Some "3f2c9a10-product")))
    (fun _ _ _ => MediaRejected (mkError "Request failed with status code 413" NoData))
    (fun _ => "k3x9qf").

Definition st_start : Run := mkRun Sample.w_token 0 [] [] [].

(** An eBay store with three listings on its first page. *)
Definition R_three_listings : Remote :=
  mkRemote
    (fun _ => TokenGranted (Some "v^1.1#i^1#fresh"))
    (fun _ _ _ => AxiosRejected (mkError "Request failed with status code 500" ObjData))
    (fun page =>
       if (page =? 1)%nat
       then PageResult (Some [Sample.listing_thumbnail; Sample.listing_three;
                              Sample.listing_nested_thumbs])
       else PageResult None).

(** A record with three item specifics, two of them named 'Brand'. *)
Definition enriched_branded : EnrichedListing :=
  mkEnriched Sample.listing_three None
    (Some (mkItem None UrlAbsent None None None
             (Some [mkItemSpecifics
                      (NvlArray [mkNameValue (Some ["Color"]) (Some ["Red"]);
                                 mkNameValue (Some ["Brand"]) (Some ["Acme"; "Ajax"]);
                                 mkNameValue (Some ["Brand"]) (Some ["Other"])])])
             None None))
    [] Sample.listing_three.

(** A record whose current price has a currency and no value, and whose
    converted price has both. *)
Definition enriched_converted_price : EnrichedListing :=
  mkEnriched
    (mkListing (Some "110") (Some "Lamp") None UrlAbsent
       (Some (mkSellingStatus (Some (mkPrice (Some "") (Some "EUR")))
                              (Some (mkPrice (Some "12.50") (Some "USD")))))
       None)
    None None []
    (mkListing (Some "110") (Some "Lamp") None UrlAbsent None None).

End SampleRun.

(* ===================================================================== *)
(** ** Strings and the resolution upgrade *)
(* ===================================================================== *)

Section Strings.

Lemma strip_prefix_app (p s r : string) :
  Js.strip_prefix p s = Some r -> s = (p ++ r)%string.
Proof.
  revert s. induction p as [|a p IH]; intros s H; simpl in *.
  - congruence.
  - destruct s as [|b s]; [discriminate|].
    destruct (Ascii.eqb_spec a b) as [->|]; [|discriminate].
    simpl. f_equal. auto.
Qed.

Lemma digits_split (s : string) :
  (Js.take_digits s ++ Js.drop_digits s)%string = s.
Proof.
  induction s as [|c s IH]; simpl; [reflexivity|].
  destruct (Js.is_digit c); simpl; congruence.
Qed.

Lemma replace_first_absent (pat rep s : string) :
  Js.includes s pat = false -> Js.replace_first pat rep s = s.
Proof.
  induction s as [|c s IH]; simpl.
  - destruct (Js.strip_prefix pat ""); [discriminate | reflexivity].
  - destruct (Js.strip_prefix pat (String c s)); [discriminate|].
    intros H. f_equal. auto.
Qed.

Lemma replace_size_suffix_canonical (s : string) :
  size_suffix_canonical s = true -> replace_size_suffix s = s.
Proof.
  induction s as [|c s IH].
  - reflexivity.
  - cbn [size_suffix_canonical replace_size_suffix].
    destruct (match_size_suffix (String c s)) as [rest|] eqn:Hm.
    + destruct (Js.strip_prefix "/s-l1600." (String c s)) as [r|] eqn:Hp;
        [intros _ | discriminate].
      apply strip_prefix_app in Hp. rewrite Hp in Hm |- *.
      cbn in Hm. injection Hm as <-. reflexivity.
    + intros H. f_equal. auto.
Qed.

(** A URL already in high-resolution form is left as it is. *)
Lemma convertToHighRes_canonical (url : string) :
  canonical url = true -> convertToHighRes url = url.
Proof.
  unfold canonical, convertToHighRes. intros H.
  apply andb_prop in H as [H H3]. apply andb_prop in H as [H1 H2].
  apply negb_true_iff in H1, H3.
  destruct (url =? ""); [reflexivity|].
  rewrite (replace_first_absent _ _ _ H1).
  rewrite (replace_size_suffix_canonical _ H2).
  apply replace_first_absent, H3.
Qed.

Lemma replace_first_nonempty (pat rep s : string) :
  rep <> "" -> s <> "" -> Js.replace_first pat rep s <> "".
Proof.
  intros Hr Hs. destruct s as [|c s]; [congruence|]. simpl.
  destruct (Js.strip_prefix pat (String c s)).
  - destruct rep; [congruence | discriminate].
  - discriminate.
Qed.

Lemma replace_size_suffix_nonempty (s : string) :
  s <> "" -> replace_size_suffix s <> "".
Proof.
  intros Hs. destruct s as [|c s]; [congruence|].
  cbn [replace_size_suffix].
  destruct (match_size_suffix (String c s)); discriminate.
Qed.

(** The upgrade never turns a URL into the empty string. *)
Lemma convertToHighRes_nonempty (url : string) :
  url <> "" -> convertToHighRes url <> "".
Proof.
  intros H. unfold convertToHighRes.
  destruct (String.eqb_spec url ""); [congruence|].
  apply replace_first_nonempty; [discriminate|].
  apply replace_size_suffix_nonempty.
  apply replace_first_nonempty; [discriminate | assumption].
Qed.

Lemma truthy_convertToHighRes (u : Url) :
  Js.truthy (convertToHighRes_val u) = Js.truthy u.
Proof.
  destruct u as [s|]; [|reflexivity]. simpl.
  destruct (String.eqb_spec s "") as [->|Hs]; [reflexivity|].
  destruct (String.eqb_spec (convertToHighRes s) "") as [E|]; [|reflexivity].
  exfalso. revert E. apply convertToHighRes_nonempty, Hs.
Qed.


(** *** Prefixes, occurrences and suffixes *)

Lemma strip_prefix_self (p r : string) : Js.strip_prefix p (p ++ r) = Some r.
Proof.
  induction p as [|a p IH]; simpl; [reflexivity|].
  now rewrite Ascii.eqb_refl.
Qed.

Lemma string_app_assoc (a b c : string) :
  ((a ++ b) ++ c)%string = (a ++ b ++ c)%string.
Proof. induction a as [|x a IH]; simpl; congruence. Qed.

Lemma starts_app (q r : string) : starts q (q ++ r) = true.
Proof. unfold starts. now rewrite strip_prefix_self. Qed.

Lemma starts_split (q s : string) :
  starts q s = true -> exists r, s = (q ++ r)%string.
Proof.
  unfold starts. destruct (Js.strip_prefix q s) as [r|] eqn:H; [|discriminate].
  intros _. exists r. apply strip_prefix_app, H.
Qed.

Lemma starts_cons (a : ascii) (q : string) (c : ascii) (s : string) :
  starts (String a q) (String c s) = Ascii.eqb a c && starts q s.
Proof. unfold starts. simpl. destruct (Ascii.eqb a c); reflexivity. Qed.

Lemma includes_cons (c : ascii) (s pat : string) :
  Js.includes (String c s) pat = starts pat (String c s) || Js.includes s pat.
Proof.
  unfold starts. cbn [Js.includes].
  destruct (Js.strip_prefix pat (String c s)); reflexivity.
Qed.

Lemma includes_suffix (a b pat : string) :
  Js.includes (a ++ b) pat = false -> Js.includes b pat = false.
Proof.
  induction a as [|c a IH]; [trivial|].
  cbn [append]. rewrite includes_cons. intros H.
  apply orb_false_iff in H as [_ H]. auto.
Qed.

Lemma occurrences_cons (pat : string) (c : ascii) (s : string) :
  occurrences pat (String c s)
  = (if starts pat (String c s) then 1 else 0) + occurrences pat s.
Proof. reflexivity. Qed.

Lemma occurrences_suffix (pat a b : string) :
  occurrences pat b <= occurrences pat (a ++ b).
Proof.
  induction a as [|c a IH]; [apply Nat.le_refl|].
  cbn [append]. rewrite occurrences_cons. lia.
Qed.

Lemma occurrences_zero (a : ascii) (p s : string) :
  occurrences (String a p) s = 0 -> Js.includes s (String a p) = false.
Proof.
  induction s as [|c s IH]; [reflexivity|].
  rewrite occurrences_cons, includes_cons.
  destruct (starts (String a p) (String c s)); [discriminate|].
  intros H. apply IH. lia.
Qed.

Lemma digit_before_thumb_cons (c : ascii) (s : string) :
  digit_before_thumb (String c s)
  = (Js.is_digit c && starts "-thumb." s) || digit_before_thumb s.
Proof. reflexivity. Qed.

Lemma digit_before_thumb_suffix (a b : string) :
  digit_before_thumb (a ++ b) = false -> digit_before_thumb b = false.
Proof.
  induction a as [|c a IH]; [trivial|].
  cbn [append]. rewrite digit_before_thumb_cons. intros H.
  apply orb_false_iff in H as [_ H]. auto.
Qed.

Lemma only_last_tail (a c : ascii) (q : string) :
  only_last a (String c q) = true -> only_last a q = true.
Proof.
  destruct q as [|d q]; [reflexivity|].
  intros H. apply andb_prop in H as [_ H]. exact H.
Qed.

Lemma lacks_tail (a c : ascii) (q : string) :
  lacks a (String c q) = true -> lacks a q = true.
Proof. intros H. apply andb_prop in H as [_ H]. exact H. Qed.

Lemma lacks_only_last (a : ascii) (q : string) :
  lacks a q = true -> only_last a q = true.
Proof.
  induction q as [|c q IH]; [reflexivity|].
  intros H. apply andb_prop in H as [H1 H2].
  destruct q as [|d q]; [reflexivity|].
  change (negb (Ascii.eqb c a) && only_last a (String d q) = true).
  rewrite H1. apply IH, H2.
Qed.

Lemma lacks_app (a : ascii) (x y : string) :
  lacks a x = true -> lacks a y = true -> lacks a (x ++ y) = true.
Proof.
  induction x as [|c x IH]; [trivial|].
  intros H Hy. apply andb_prop in H as [H1 H2].
  cbn [append lacks]. rewrite H1. auto.
Qed.

(** A prefix in which [a] occurs at the end only, met at the head of a
    string that begins with [a], is [a] itself or empty. *)
Lemma only_last_head (a : ascii) (q rest s : string) :
  only_last a q = true ->
  starts q (String a rest) = true ->
  starts (String a "") s = true ->
  starts q s = true.
Proof.
  intros HQ Hq Hs. destruct q as [|c q]; [reflexivity|].
  rewrite starts_cons in Hq. apply andb_prop in Hq as [Hc _].
  destruct q as [|d q].
  - apply Ascii.eqb_eq in Hc. now subst.
  - apply andb_prop in HQ as [HQ _].
    apply Ascii.eqb_eq in Hc. subst.
    now rewrite Ascii.eqb_refl in HQ.
Qed.

Lemma lacks_head (a : ascii) (q rest s : string) :
  lacks a q = true ->
  starts q (String a rest) = true ->
  starts q s = true.
Proof.
  intros HQ Hq. destruct q as [|c q]; [reflexivity|].
  rewrite starts_cons in Hq. apply andb_prop in Hq as [Hc _].
  apply andb_prop in HQ as [HQ _].
  apply Ascii.eqb_eq in Hc. subst. now rewrite Ascii.eqb_refl in HQ.
Qed.

(** *** Digits and the size suffix *)

Lemma digit_not_slash (c : ascii) :
  Js.is_digit c = true -> Ascii.eqb c "/" = false.
Proof.
  intros H. destruct (Ascii.eqb_spec c "/") as [->|]; [discriminate | reflexivity].
Qed.

Lemma digit_not_dot (c : ascii) :
  Js.is_digit c = true -> Ascii.eqb c "." = false.
Proof.
  intros H. destruct (Ascii.eqb_spec c ".") as [->|]; [discriminate | reflexivity].
Qed.

Lemma take_digits_lacks_slash (r : string) : lacks "/" (Js.take_digits r) = true.
Proof.
  induction r as [|c r IH]; [reflexivity|]. cbn [Js.take_digits].
  destruct (Js.is_digit c) eqn:E; [|reflexivity].
  cbn [lacks]. now rewrite (digit_not_slash _ E).
Qed.

Lemma take_digits_lacks_dot (r : string) : lacks "." (Js.take_digits r) = true.
Proof.
  induction r as [|c r IH]; [reflexivity|]. cbn [Js.take_digits].
  destruct (Js.is_digit c) eqn:E; [|reflexivity].
  cbn [lacks]. now rewrite (digit_not_dot _ E).
Qed.

Lemma take_digits_then_dot (r t : string) :
  Js.take_digits (Js.take_digits r ++ String "." t) = Js.take_digits r
  /\ Js.drop_digits (Js.take_digits r ++ String "." t) = String "." t.
Proof.
  induction r as [|c r [IH1 IH2]]; [split; reflexivity|].
  cbn [Js.take_digits]. destruct (Js.is_digit c) eqn:E; [|split; reflexivity].
  cbn [append Js.take_digits Js.drop_digits]. rewrite E, IH1, IH2. split; reflexivity.
Qed.

Lemma match_size_suffix_inv (s rest : string) :
  match_size_suffix s = Some rest ->
  exists r,
    Js.take_digits r <> ""
    /\ s = ("/s-l" ++ Js.take_digits r ++ String "." rest)%string.
Proof.
  unfold match_size_suffix.
  destruct (Js.strip_prefix "/s-l" s) as [r|] eqn:Hp; [|discriminate].
  apply strip_prefix_app in Hp. intros H. exists r.
  destruct (Js.take_digits r) as [|d ds] eqn:Hd; [discriminate|].
  destruct (Js.drop_digits r) as [|c t] eqn:Hr; [discriminate|].
  assert (c = "."%char /\ t = rest) as [-> ->].
  { destruct c as [[] [] [] [] [] [] [] []]; try discriminate.
    injection H as <-. auto. }
  split; [discriminate|].
  rewrite Hp. f_equal. rewrite <- Hd, <- Hr. symmetry. apply digits_split.
Qed.

Lemma match_size_suffix_intro (r rest t : string) :
  Js.take_digits r <> "" ->
  match_size_suffix (("/s-l" ++ Js.take_digits r ++ String "." rest) ++ t)
  = Some (rest ++ t)%string.
Proof.
  intros H. rewrite !string_app_assoc.
  unfold match_size_suffix. rewrite strip_prefix_self.
  cbn [append].
  destruct (take_digits_then_dot r (rest ++ t)) as [-> ->].
  destruct (Js.take_digits r) eqn:E; [congruence | reflexivity].
Qed.

Lemma digits_then_thumb (r t : string) :
  Js.take_digits r <> "" ->
  digit_before_thumb (Js.take_digits r ++ "-thumb." ++ t) = true.
Proof.
  induction r as [|c r IH]; [intros H; now elim H|].
  cbn [Js.take_digits]. destruct (Js.is_digit c) eqn:E; [|intros H; now elim H].
  intros _.
  change (digit_before_thumb
            (String c (Js.take_digits r ++ "-thumb." ++ t)) = true).
  rewrite digit_before_thumb_cons, E.
  destruct (Js.take_digits r) as [|d ds] eqn:Hd.
  - reflexivity.
  - rewrite IH by discriminate. apply orb_true_r.
Qed.

(** *** Replacing the leftmost match *)

Section ReplaceLeftmost.

(** [R] replaces the leftmost match of [m] by [rep]; [Q] is a class of
    prefixes that no replacement creates. *)
Variable m : string -> option string.
Variable rep : string.
Variable R : string -> string.
Hypothesis R_eq :
  forall s,
    R s = match m s with
          | Some rest => (rep ++ rest)%string
          | None =>
              match s with
              | EmptyString => EmptyString
              | String c s' => String c (R s')
              end
          end.

Variable Q : string -> bool.
Hypothesis Q_tail : forall c q, Q (String c q) = true -> Q q = true.
Hypothesis Q_head :
  forall q s rest,
    Q q = true -> m s = Some rest ->
    starts q (rep ++ rest) = true -> starts q s = true.

Lemma replace_keeps_prefix (q s : string) :
  Q q = true -> starts q (R s) = true -> starts q s = true.
Proof.
  revert q. induction s as [|c s IH]; intros q HQ; rewrite R_eq.
  - destruct (m "") as [rest|] eqn:Hm; [now apply Q_head | trivial].
  - destruct (m (String c s)) as [rest|] eqn:Hm; [now apply Q_head|].
    destruct q as [|a q]; [reflexivity|].
    rewrite !starts_cons. intros H. apply andb_prop in H as [-> H].
    apply (IH q); eauto.
Qed.

Lemma replace_creates_no_match (a : ascii) (p : string) :
  Q p = true ->
  (forall s rest,
     m s = Some rest -> Js.includes s (String a p) = false ->
     Js.includes (rep ++ rest) (String a p) = false) ->
  forall s,
    Js.includes s (String a p) = false -> Js.includes (R s) (String a p) = false.
Proof.
  intros HQ Htail. induction s as [|c s IH]; intros H; rewrite R_eq.
  - destruct (m "") as [rest|] eqn:Hm; [exact (Htail _ _ Hm H) | exact H].
  - destruct (m (String c s)) as [rest|] eqn:Hm; [exact (Htail _ _ Hm H)|].
    rewrite includes_cons in H |- *. apply orb_false_iff in H as [H1 H2].
    rewrite (IH H2), orb_false_r. rewrite starts_cons in H1 |- *.
    destruct (Ascii.eqb a c); [|reflexivity]. cbn [andb] in *.
    destruct (starts p (R s)) eqn:E; [|reflexivity].
    apply replace_keeps_prefix in E; [congruence | exact HQ].
Qed.

Lemma replace_adds_no_occurrence (a : ascii) (p : string) :
  Q p = true ->
  (forall s rest,
     m s = Some rest ->
     occurrences (String a p) (rep ++ rest) <= occurrences (String a p) s) ->
  forall s, occurrences (String a p) (R s) <= occurrences (String a p) s.
Proof.
  intros HQ Htail. induction s as [|c s IH]; rewrite R_eq.
  - destruct (m "") as [rest|] eqn:Hm; [exact (Htail _ _ Hm) | apply Nat.le_refl].
  - destruct (m (String c s)) as [rest|] eqn:Hm; [exact (Htail _ _ Hm)|].
    rewrite !occurrences_cons, !starts_cons.
    destruct (Ascii.eqb a c); cbn [andb]; [|lia].
    destruct (starts p (R s)) eqn:E.
    + apply replace_keeps_prefix in E; [|exact HQ]. rewrite E. lia.
    + destruct (starts p s); lia.
Qed.

Lemma replace_keeps_digit_free :
  Q "-thumb." = true ->
  (forall s rest,
     m s = Some rest -> digit_before_thumb s = false ->
     digit_before_thumb (rep ++ rest) = false) ->
  forall s, digit_before_thumb s = false -> digit_before_thumb (R s) = false.
Proof.
  intros HQ Htail. induction s as [|c s IH]; intros H; rewrite R_eq.
  - destruct (m "") as [rest|] eqn:Hm; [exact (Htail _ _ Hm H) | reflexivity].
  - destruct (m (String c s)) as [rest|] eqn:Hm; [exact (Htail _ _ Hm H)|].
    rewrite digit_before_thumb_cons in H |- *.
    apply orb_false_iff in H as [H1 H2].
    rewrite (IH H2), orb_false_r.
    destruct (Js.is_digit c); [|reflexivity]. cbn [andb] in *.
    destruct (starts "-thumb." (R s)) eqn:E; [|reflexivity].
    apply replace_keeps_prefix in E; [congruence | exact HQ].
Qed.

End ReplaceLeftmost.

Lemma replace_first_eq (pat rep s : string) :
  Js.replace_first pat rep s
  = match Js.strip_prefix pat s with
    | Some rest => (rep ++ rest)%string
    | None =>
        match s with
        | EmptyString => EmptyString
        | String c s' => String c (Js.replace_first pat rep s')
        end
    end.
Proof. destruct s; reflexivity. Qed.

Lemma replace_size_suffix_eq (s : string) :
  replace_size_suffix s
  = match match_size_suffix s with
    | Some rest => ("/s-l1600." ++ rest)%string
    | None =>
        match s with
        | EmptyString => EmptyString
        | String c s' => String c (replace_size_suffix s')
        end
    end.
Proof. destruct s; reflexivity. Qed.

(** The three replacements of the upgrade create no prefix of the
    classes below. *)
Lemma thumbs_segment_keeps_prefix (q s : string) :
  only_last "/" q = true ->
  starts q (Js.replace_first "/thumbs/" "/" s) = true -> starts q s = true.
Proof.
  apply (replace_keeps_prefix (Js.strip_prefix "/thumbs/") "/"
           (Js.replace_first "/thumbs/" "/") (replace_first_eq _ _)
           (only_last "/") (only_last_tail "/")).
  intros q0 s0 rest HQ Hm Hq. apply strip_prefix_app in Hm. subst s0.
  now apply (only_last_head "/" q0 rest).
Qed.

Lemma size_suffix_keeps_prefix (q s : string) :
  only_last "/" q = true ->
  starts q (replace_size_suffix s) = true -> starts q s = true.
Proof.
  apply (replace_keeps_prefix match_size_suffix "/s-l1600."
           replace_size_suffix replace_size_suffix_eq
           (only_last "/") (only_last_tail "/")).
  intros q0 s0 rest HQ Hm Hq.
  apply match_size_suffix_inv in Hm as (r & _ & ->).
  now apply (only_last_head "/" q0 ("s-l1600." ++ rest)).
Qed.

Lemma thumb_suffix_keeps_prefix (q s : string) :
  lacks "." q = true ->
  starts q (Js.replace_first "-thumb." "." s) = true -> starts q s = true.
Proof.
  apply (replace_keeps_prefix (Js.strip_prefix "-thumb.") "."
           (Js.replace_first "-thumb." ".") (replace_first_eq _ _)
           (lacks ".") (lacks_tail ".")).
  intros q0 s0 rest HQ Hm Hq. now apply (lacks_head "." q0 rest).
Qed.

(** A prefix that ends in a dot, met after the [-thumb.] suffix was
    replaced, was there before, or was there with [-thumb.] for the dot. *)
Lemma thumb_suffix_prefix (q s : string) :
  lacks "." q = true ->
  starts (q ++ ".") (Js.replace_first "-thumb." "." s) = true ->
  starts (q ++ ".") s = true \/ starts (q ++ "-thumb.") s = true.
Proof.
  revert q. induction s as [|c s IH]; intros q HQ; rewrite replace_first_eq.
  - cbn [Js.strip_prefix]. auto.
  - destruct (Js.strip_prefix "-thumb." (String c s)) as [rest|] eqn:Hp.
    + destruct q as [|a q].
      * intros _. right. unfold starts. cbn [append]. now rewrite Hp.
      * cbn [append]. rewrite starts_cons. intros H.
        apply andb_prop in H as [Hc _]. apply andb_prop in HQ as [HQ _].
        apply Ascii.eqb_eq in Hc. subst. discriminate.
    + destruct q as [|a q].
      * cbn [append]. rewrite !starts_cons. intros H.
        left. apply andb_prop in H as [-> _]. reflexivity.
      * cbn [append]. rewrite !starts_cons. intros H.
        apply andb_prop in H as [-> H]. cbn [andb].
        apply andb_prop in HQ as [_ HQ]. apply (IH q HQ H).
Qed.

(** *** The three steps of the upgrade on a URL with single markers *)

(** With one [/thumbs/] segment at most, none is left after the first
    replacement. *)
Lemma thumbs_segment_removed (s : string) :
  occurrences "/thumbs/" s <= 1 ->
  Js.includes (Js.replace_first "/thumbs/" "/" s) "/thumbs/" = false.
Proof.
  induction s as [|c s IH]; [reflexivity|].
  rewrite occurrences_cons, replace_first_eq. unfold starts at 1.
  destruct (Js.strip_prefix "/thumbs/" (String c s)) as [rest|] eqn:Hp; intros H.
  - apply strip_prefix_app in Hp. injection Hp as -> ->.
    apply occurrences_zero.
    pose proof (occurrences_suffix "/thumbs/" "thumbs" ("/" ++ rest)) as Hs.
    cbn [append] in *. lia.
  - rewrite includes_cons, IH by lia. rewrite orb_false_r.
    destruct (starts "/thumbs/" (String c (Js.replace_first "/thumbs/" "/" s)))
      eqn:E; [|reflexivity].
    rewrite starts_cons in E. apply andb_prop in E as [Hc E].
    apply thumbs_segment_keeps_prefix in E; [|reflexivity].
    apply Ascii.eqb_eq in Hc. subst c.
    apply starts_split in E as [r ->]. discriminate.
Qed.

Lemma size_suffix_creates_no_match (a : ascii) (p : string) :
  only_last "/" p = true ->
  (forall rest,
     Js.includes ("/s-l1600." ++ rest) (String a p) = Js.includes rest (String a p)) ->
  forall s,
    Js.includes s (String a p) = false ->
    Js.includes (replace_size_suffix s) (String a p) = false.
Proof.
  intros HQ Hrep.
  apply (replace_creates_no_match match_size_suffix "/s-l1600."
           replace_size_suffix replace_size_suffix_eq
           (only_last "/") (only_last_tail "/")); [|exact HQ|].
  - intros q0 s0 rest H Hm Hq.
    apply match_size_suffix_inv in Hm as (r & _ & ->).
    now apply (only_last_head "/" q0 ("s-l1600." ++ rest)).
  - intros s0 rest Hm H. rewrite Hrep.
    apply match_size_suffix_inv in Hm as (r & _ & ->).
    apply includes_suffix in H. apply includes_suffix in H.
    apply (includes_suffix "." rest), H.
Qed.

Lemma thumbs_segment_creates_no_match (a : ascii) (p : string) :
  only_last "/" p = true ->
  (forall rest,
     Js.includes ("/" ++ rest) (String a p) = Js.includes rest (String a p)) ->
  forall s,
    Js.includes s (String a p) = false ->
    Js.includes (Js.replace_first "/thumbs/" "/" s) (String a p) = false.
Proof.
  intros HQ Hrep.
  apply (replace_creates_no_match (Js.strip_prefix "/thumbs/") "/"
           (Js.replace_first "/thumbs/" "/") (replace_first_eq _ _)
           (only_last "/") (only_last_tail "/")); [|exact HQ|].
  - intros q0 s0 rest H Hm Hq. apply strip_prefix_app in Hm. subst s0.
    now apply (only_last_head "/" q0 rest).
  - intros s0 rest Hm H. rewrite Hrep.
    apply strip_prefix_app in Hm. subst s0.
    apply (includes_suffix "/thumbs/" rest), H.
Qed.

Lemma thumb_suffix_creates_no_segment (s : string) :
  Js.includes s "/thumbs/" = false ->
  Js.includes (Js.replace_first "-thumb." "." s) "/thumbs/" = false.
Proof.
  apply (replace_creates_no_match (Js.strip_prefix "-thumb.") "."
           (Js.replace_first "-thumb." ".") (replace_first_eq _ _)
           (lacks ".") (lacks_tail ".")); [|reflexivity|].
  - intros q0 s0 rest H Hm Hq. now apply (lacks_head "." q0 rest).
  - intros s0 rest Hm H. apply strip_prefix_app in Hm. subst s0.
    apply (includes_suffix "-thumb." rest), H.
Qed.

Lemma thumbs_segment_adds_no_thumb_suffix (s : string) :
  occurrences "-thumb." (Js.replace_first "/thumbs/" "/" s)
  <= occurrences "-thumb." s.
Proof.
  apply (replace_adds_no_occurrence (Js.strip_prefix "/thumbs/") "/"
           (Js.replace_first "/thumbs/" "/") (replace_first_eq _ _)
           (only_last "/") (only_last_tail "/")); [|reflexivity|].
  - intros q0 s0 rest H Hm Hq. apply strip_prefix_app in Hm. subst s0.
    now apply (only_last_head "/" q0 rest).
  - intros s0 rest Hm. apply strip_prefix_app in Hm. subst s0.
    apply (occurrences_suffix "-thumb." "/thumbs/" rest).
Qed.

Lemma size_suffix_adds_no_thumb_suffix (s : string) :
  occurrences "-thumb." (replace_size_suffix s) <= occurrences "-thumb." s.
Proof.
  apply (replace_adds_no_occurrence match_size_suffix "/s-l1600."
           replace_size_suffix replace_size_suffix_eq
           (only_last "/") (only_last_tail "/")); [|reflexivity|].
  - intros q0 s0 rest H Hm Hq.
    apply match_size_suffix_inv in Hm as (r & _ & ->).
    now apply (only_last_head "/" q0 ("s-l1600." ++ rest)).
  - intros s0 rest Hm.
    apply match_size_suffix_inv in Hm as (r & _ & ->).
    change (occurrences "-thumb." rest
            <= occurrences "-thumb." ("/s-l" ++ Js.take_digits r ++ String "." rest)).
    rewrite <- (string_app_assoc "/s-l" (Js.take_digits r) (String "." rest)).
    etransitivity; [apply (occurrences_suffix "-thumb." "." rest)|].
    apply occurrences_suffix.
Qed.

Lemma thumbs_segment_keeps_digit_free (s : string) :
  digit_before_thumb s = false ->
  digit_before_thumb (Js.replace_first "/thumbs/" "/" s) = false.
Proof.
  apply (replace_keeps_digit_free (Js.strip_prefix "/thumbs/") "/"
           (Js.replace_first "/thumbs/" "/") (replace_first_eq _ _)
           (only_last "/") (only_last_tail "/")); [|reflexivity|].
  - intros q0 s0 rest H Hm Hq. apply strip_prefix_app in Hm. subst s0.
    now apply (only_last_head "/" q0 rest).
  - intros s0 rest Hm H. apply strip_prefix_app in Hm. subst s0.
    apply (digit_before_thumb_suffix "/thumbs/" rest), H.
Qed.

Lemma size_suffix_keeps_digit_free (s : string) :
  digit_before_thumb s = false ->
  digit_before_thumb (replace_size_suffix s) = false.
Proof.
  apply (replace_keeps_digit_free match_size_suffix "/s-l1600."
           replace_size_suffix replace_size_suffix_eq
           (only_last "/") (only_last_tail "/")); [|reflexivity|].
  - intros q0 s0 rest H Hm Hq.
    apply match_size_suffix_inv in Hm as (r & _ & ->).
    now apply (only_last_head "/" q0 ("s-l1600." ++ rest)).
  - intros s0 rest Hm H.
    apply match_size_suffix_inv in Hm as (r & _ & ->).
    apply digit_before_thumb_suffix in H. apply digit_before_thumb_suffix in H.
    apply (digit_before_thumb_suffix "." rest), H.
Qed.

(** After the second replacement the leftmost size suffix is the large
    one. *)
Lemma size_suffix_made_canonical (s : string) :
  size_suffix_canonical (replace_size_suffix s) = true.
Proof.
  induction s as [|c s IH]; [reflexivity|].
  rewrite replace_size_suffix_eq.
  destruct (match_size_suffix (String c s)) as [rest|] eqn:Hm; [reflexivity|].
  cbn [size_suffix_canonical].
  destruct (match_size_suffix (String c (replace_size_suffix s)))
    as [rest'|] eqn:Hm'; [exfalso | exact IH].
  apply match_size_suffix_inv in Hm' as (r & Hr & E).
  injection E as -> E.
  assert (Hs : starts ("s-l" ++ Js.take_digits r ++ ".") (replace_size_suffix s) = true).
  { rewrite E.
    replace (String "s" (String "-" (String "l" (Js.take_digits r ++ String "." rest'))))
      with (("s-l" ++ Js.take_digits r ++ ".") ++ rest')%string
      by (rewrite !string_app_assoc; reflexivity).
    apply starts_app. }
  apply size_suffix_keeps_prefix in Hs.
  - apply starts_split in Hs as [t ->].
    change (String "/" (("s-l" ++ Js.take_digits r ++ ".") ++ t))
      with (("/s-l" ++ Js.take_digits r ++ String "." "") ++ t)%string in Hm.
    rewrite (match_size_suffix_intro r "" t Hr) in Hm. discriminate.
  - apply lacks_only_last.
    apply (lacks_app "/" "s-l"); [reflexivity|].
    apply lacks_app; [apply take_digits_lacks_slash | reflexivity].
Qed.

(** The third replacement keeps the leftmost size suffix the large one,
    unless it removes [-thumb] between digits and a dot. *)
Lemma thumb_suffix_keeps_size_suffix (s : string) :
  size_suffix_canonical s = true ->
  digit_before_thumb s = false ->
  size_suffix_canonical (Js.replace_first "-thumb." "." s) = true.
Proof.
  induction s as [|c s IH]; [reflexivity|].
  intros Hc Hd. rewrite replace_first_eq.
  destruct (Js.strip_prefix "-thumb." (String c s)) as [rest|] eqn:Hp.
  - apply strip_prefix_app in Hp. rewrite Hp in Hc. exact Hc.
  - cbn [size_suffix_canonical] in Hc |- *.
    destruct (match_size_suffix (String c s)) as [r0|] eqn:Hm.
    + destruct (Js.strip_prefix "/s-l1600." (String c s)) as [t|] eqn:Hq;
        [|discriminate].
      apply strip_prefix_app in Hq. injection Hq as -> ->. reflexivity.
    + rewrite digit_before_thumb_cons in Hd.
      apply orb_false_iff in Hd as [Hd1 Hd2].
      destruct (match_size_suffix (String c (Js.replace_first "-thumb." "." s)))
        as [rest'|] eqn:Hm'; [exfalso | exact (IH Hc Hd2)].
      apply match_size_suffix_inv in Hm' as (r & Hr & E).
      assert (Hs : starts (("/s-l" ++ Js.take_digits r) ++ ".")
                     (Js.replace_first "-thumb." "." (String c s)) = true).
      { rewrite replace_first_eq, Hp, E.
        replace ("/s-l" ++ Js.take_digits r ++ String "." rest')%string
          with ((("/s-l" ++ Js.take_digits r) ++ ".") ++ rest')%string
          by (rewrite !string_app_assoc; reflexivity).
        apply starts_app. }
      apply thumb_suffix_prefix in Hs.
      * destruct Hs as [Hs|Hs]; apply starts_split in Hs as [t Ht].
        -- rewrite Ht in Hm.
           rewrite (string_app_assoc "/s-l" (Js.take_digits r) ".") in Hm.
           rewrite (match_size_suffix_intro r "" t Hr) in Hm. discriminate.
        -- assert (Hx : digit_before_thumb (String c s) = true).
           { rewrite Ht. rewrite !string_app_assoc.
             destruct (digit_before_thumb
                         ("/s-l" ++ Js.take_digits r ++ "-thumb." ++ t)) eqn:Hx;
               [reflexivity|].
             apply (digit_before_thumb_suffix "/s-l") in Hx.
             now rewrite digits_then_thumb in Hx. }
           rewrite digit_before_thumb_cons, Hd1, Hd2 in Hx. discriminate.
      * apply (lacks_app "." "/s-l"); [reflexivity | apply take_digits_lacks_dot].
Qed.

(** With one [-thumb.] suffix at most, and that not after another
    [-thumb], none is left after the third replacement. *)
Lemma thumb_suffix_removed (s : string) :
  occurrences "-thumb." s <= 1 ->
  Js.includes s "-thumb-thumb." = false ->
  Js.includes (Js.replace_first "-thumb." "." s) "-thumb." = false.
Proof.
  induction s as [|c s IH]; [reflexivity|].
  rewrite occurrences_cons, replace_first_eq. intros H Hbb.
  assert (Hs : starts "-thumb." (Js.replace_first "-thumb." "." (String c s)) = true ->
               starts "-thumb." (String c s) = true).
  { intros Hs. apply (thumb_suffix_prefix "-thumb") in Hs; [|reflexivity].
    destruct Hs as [Hs|Hs]; [exact Hs|].
    rewrite includes_cons in Hbb. apply orb_false_iff in Hbb as [Hbb _].
    change (starts "-thumb-thumb." (String c s) = true) in Hs.
    congruence. }
  rewrite replace_first_eq in Hs. unfold starts at 1 in H.
  destruct (Js.strip_prefix "-thumb." (String c s)) as [rest|] eqn:Hp.
  - apply strip_prefix_app in Hp. injection Hp as -> ->.
    change (Js.includes rest "-thumb." = false).
    apply occurrences_zero.
    pose proof (occurrences_suffix "-thumb." "thumb." rest) as Hs'.
    cbn [append] in *. lia.
  - rewrite includes_cons in Hbb |- *. apply orb_false_iff in Hbb as [_ Hbb].
    rewrite IH by (trivial; lia). rewrite orb_false_r.
    destruct (starts "-thumb." (String c (Js.replace_first "-thumb." "." s)));
      [|reflexivity].
    specialize (Hs eq_refl). unfold starts in Hs. rewrite Hp in Hs. discriminate.
Qed.

(** The upgrade of a URL with single markers is in high-resolution
    form. *)
Lemma single_markers_canonical (url : string) :
  single_markers url = true -> canonical (convertToHighRes url) = true.
Proof.
  unfold single_markers. intros H.
  apply andb_prop in H as [H Hd]. apply andb_prop in H as [H Hbb].
  apply andb_prop in H as [Ht Hb].
  apply Nat.leb_le in Ht, Hb. apply negb_true_iff in Hbb, Hd.
  unfold convertToHighRes. destruct (url =? "") eqn:E.
  - apply String.eqb_eq in E. subst. reflexivity.
  - set (s1 := Js.replace_first "/thumbs/" "/" url).
    set (s2 := replace_size_suffix s1).
    assert (T1 : Js.includes s1 "/thumbs/" = false)
      by apply thumbs_segment_removed, Ht.
    assert (T2 : Js.includes s2 "/thumbs/" = false)
      by (apply size_suffix_creates_no_match; [reflexivity | reflexivity | exact T1]).
    assert (B1 : occurrences "-thumb." s1 <= 1)
      by (etransitivity; [apply thumbs_segment_adds_no_thumb_suffix | exact Hb]).
    assert (B2 : occurrences "-thumb." s2 <= 1)
      by (etransitivity; [apply size_suffix_adds_no_thumb_suffix | exact B1]).
    assert (C1 : Js.includes s1 "-thumb-thumb." = false)
      by (apply thumbs_segment_creates_no_match;
          [reflexivity | reflexivity | exact Hbb]).
    assert (C2 : Js.includes s2 "-thumb-thumb." = false)
      by (apply size_suffix_creates_no_match;
          [reflexivity | reflexivity | exact C1]).
    assert (D1 : digit_before_thumb s1 = false)
      by apply thumbs_segment_keeps_digit_free, Hd.
    assert (D2 : digit_before_thumb s2 = false)
      by apply size_suffix_keeps_digit_free, D1.
    unfold canonical.
    rewrite (thumb_suffix_creates_no_segment _ T2).
    rewrite (thumb_suffix_keeps_size_suffix s2 (size_suffix_made_canonical s1) D2).
    rewrite (thumb_suffix_removed s2 B2 C2). reflexivity.
Qed.

End Strings.

(** C5 (as stated, refuted): the upgrade is not idempotent; a URL with two
    [/thumbs/] segments loses one of them at each application. *)
Lemma C5_not_idempotent :
  ~ (forall url : string,
       convertToHighRes (convertToHighRes url) = convertToHighRes url).
Proof.
  intros H.
  specialize (H "https://i.ebayimg.com/thumbs/thumbs/a.jpg").
  vm_compute in H. discriminate.
Qed.

(** C5 (amended): applying the upgrade twice gives the same result as
    applying it once for every URL in which each marker occurs once at
    most: at most one [/thumbs/] segment and at most one [-thumb.] suffix,
    that suffix neither directly after another [-thumb] nor directly after
    a digit.  The upgrade is a no-op on the empty string and on an absent
    URL. *)
Theorem C5_idempotent_on_single_markers (url : string) :
  single_markers url = true ->
  convertToHighRes (convertToHighRes url) = convertToHighRes url
  /\ convertToHighRes "" = ""
  /\ convertToHighRes_val (Some "") = Some ""
  /\ convertToHighRes_val None = None.
Proof.
  intros H. split; [|repeat split].
  apply convertToHighRes_canonical, single_markers_canonical, H.
Qed.

Lemma C5_idempotent_on_single_markers_witness :
  single_markers "https://i.ebayimg.com/thumbs/images/g/abc/s-l140.jpg" = true
  /\ convertToHighRes "https://i.ebayimg.com/thumbs/images/g/abc/s-l140.jpg"
     = "https://i.ebayimg.com/images/g/abc/s-l1600.jpg"
  /\ convertToHighRes
       (convertToHighRes "https://i.ebayimg.com/thumbs/images/g/abc/s-l140.jpg")
     = "https://i.ebayimg.com/images/g/abc/s-l1600.jpg".
Proof.
  split; [reflexivity|]. split; [reflexivity|].
  rewrite (proj1 (C5_idempotent_on_single_markers
             "https://i.ebayimg.com/thumbs/images/g/abc/s-l140.jpg"
             eq_refl)).
  reflexivity.
Defined.

(** Outside that class the upgrade can change its own result: a second
    [-thumb.] suffix, a [-thumb] before the suffix and a digit before it
    each leave work for a second application. *)
Lemma upgrade_repeats_on_other_markers :
  convertToHighRes (convertToHighRes "a-thumb.b-thumb.jpg")
  <> convertToHighRes "a-thumb.b-thumb.jpg"
  /\ convertToHighRes (convertToHighRes "a-thumb-thumb.jpg")
     <> convertToHighRes "a-thumb-thumb.jpg"
  /\ convertToHighRes (convertToHighRes "a/s-l12-thumb.jpg")
     <> convertToHighRes "a/s-l12-thumb.jpg".
Proof. repeat split; vm_compute; discriminate. Qed.


(* ===================================================================== *)
(** ** Sets of URLs and the two extractors *)
(* ===================================================================== *)

Section ImageSets.

Lemma set_add_old (x : Url) (s : list Url) : In x s -> set_add x s = s.
Proof.
  unfold set_add. induction s as [|a s IH]; simpl; [tauto|].
  intros [->|H].
  - destruct (Url_dec x x); congruence.
  - destruct (Url_dec x a); [reflexivity|]. f_equal. auto.
Qed.

Lemma set_add_new (x : Url) (s : list Url) : ~ In x s -> set_add x s = s ++ [x].
Proof.
  unfold set_add. induction s as [|a s IH]; simpl; [reflexivity|].
  intros H. destruct (Url_dec x a) as [->|]; [tauto|].
  f_equal. apply IH. tauto.
Qed.

Lemma add_all_fresh (l acc : list Url) : add_all l acc = acc ++ fresh acc l.
Proof.
  revert acc. induction l as [|x l IH]; intros acc; simpl.
  - now rewrite app_nil_r.
  - unfold add_all in *. simpl.
    destruct (set_mem Url_dec x acc) eqn:E.
    + apply set_mem_correct1 in E. rewrite set_add_old by exact E. apply IH.
    + apply set_mem_complete1 in E. rewrite set_add_new by exact E.
      rewrite IH, <- app_assoc. reflexivity.
Qed.

Lemma fresh_In (x : Url) (l seen : list Url) :
  In x (fresh seen l) <-> In x l /\ ~ In x seen.
Proof.
  revert seen. induction l as [|a l IH]; intros seen; simpl; [tauto|].
  destruct (set_mem Url_dec a seen) eqn:E.
  - apply set_mem_correct1 in E. rewrite IH.
    split; [tauto|]. intros [[->|H] Hn]; tauto.
  - apply set_mem_complete1 in E. simpl. rewrite IH, in_app_iff. simpl.
    destruct (Url_dec a x) as [->|Hne]; [tauto|].
    split; [tauto|]. intros [[H|H] Hn]; [tauto|]. right. tauto.
Qed.

Lemma fresh_NoDup (l seen : list Url) : NoDup (fresh seen l).
Proof.
  revert seen. induction l as [|a l IH]; intros seen; simpl; [constructor|].
  destruct (set_mem Url_dec a seen); [apply IH|].
  constructor; [|apply IH].
  rewrite fresh_In, in_app_iff. simpl. tauto.
Qed.

Lemma fresh_id (l seen : list Url) : NoDup (seen ++ l) -> fresh seen l = l.
Proof.
  revert seen. induction l as [|a l IH]; intros seen H; simpl; [reflexivity|].
  destruct (set_mem Url_dec a seen) eqn:E.
  - apply set_mem_correct1 in E. apply NoDup_remove_2 in H.
    exfalso. apply H, in_or_app. tauto.
  - f_equal. apply IH. rewrite <- app_assoc. exact H.
Qed.

Lemma add_all_In (x : Url) (l acc : list Url) :
  In x (add_all l acc) <-> In x acc \/ In x l.
Proof.
  rewrite add_all_fresh, in_app_iff, fresh_In.
  destruct (in_dec Url_dec x acc); tauto.
Qed.

Lemma add_all_NoDup (l acc : list Url) : NoDup acc -> NoDup (add_all l acc).
Proof.
  revert acc. induction l as [|x l IH]; intros acc H; simpl; [exact H|].
  apply IH. apply set_add_nodup, H.
Qed.

Lemma add_all_app (a b acc : list Url) :
  add_all (a ++ b) acc = add_all b (add_all a acc).
Proof. apply fold_left_app. Qed.

Lemma set_of_NoDup (l : list Url) : NoDup (set_of l).
Proof. apply (add_all_NoDup l []). constructor. Qed.

Lemma set_of_In (x : Url) (l : list Url) : In x (set_of l) <-> In x l.
Proof. unfold set_of. fold (add_all l []). rewrite add_all_In. simpl. tauto. Qed.

Lemma set_of_id (l : list Url) : NoDup l -> set_of l = l.
Proof.
  intros H. unfold set_of. fold (add_all l []).
  rewrite add_all_fresh. simpl. apply fresh_id, H.
Qed.

(** The guarded insertion loop as one insertion of the upgraded truthy
    URLs. *)
Lemma add_urls_eq (urls acc : list Url) :
  add_urls urls acc = add_all (map convertToHighRes_val (filter Js.truthy urls)) acc.
Proof.
  revert acc. induction urls as [|u urls IH]; intros acc; [reflexivity|].
  unfold add_urls in *. simpl. destruct (Js.truthy u); simpl; apply IH.
Qed.

Lemma extractBasicImages_eq (listing : Listing) :
  extractBasicImages listing
  = set_of (map convertToHighRes_val (filter Js.truthy (summary_urls listing))).
Proof.
  unfold extractBasicImages, summary_urls. rewrite add_urls_eq.
  simpl. destruct (Js.truthy (galleryURL listing)); reflexivity.
Qed.

Lemma add_urls_pictures (pics : list PicSet) (acc : list Url) :
  fold_left (fun images picSet => add_urls (urls_of (ps_PictureURL picSet)) images)
            pics acc
  = add_all
      (map convertToHighRes_val
         (flat_map (fun picSet => filter Js.truthy (urls_of (ps_PictureURL picSet))) pics))
      acc.
Proof.
  revert acc. induction pics as [|p pics IH]; intros acc; [reflexivity|].
  simpl. rewrite IH, add_urls_eq, map_app, add_all_app. reflexivity.
Qed.

Lemma extractAllImages_eq (item : Item) :
  extractAllImages item = set_of (map convertToHighRes_val (detail_urls item)).
Proof.
  change (set_of (map convertToHighRes_val (detail_urls item)))
    with (add_all (map convertToHighRes_val (detail_urls item)) []).
  unfold extractAllImages, detail_urls.
  rewrite !map_app, !add_all_app, add_urls_eq.
  generalize
    (add_all (map convertToHighRes_val (filter Js.truthy (urls_of (PictureURL item)))) []).
  intros acc.
  destruct (GalleryURL item) as [g|];
    [simpl; destruct (Js.truthy (nth 0 g None)); simpl|simpl];
    (destruct (PictureDetails item) as [pd|];
     [rewrite ?map_app, ?add_all_app, ?add_urls_eq;
      destruct (pd_GalleryURL pd); simpl | simpl]);
    (destruct (Variations item) as [v|]; [|reflexivity]);
    (destruct (Pictures v) as [pics|]; [|reflexivity]);
    apply add_urls_pictures.
Qed.

Lemma extractBasicImages_NoDup (listing : Listing) :
  NoDup (extractBasicImages listing).
Proof. rewrite extractBasicImages_eq. apply set_of_NoDup. Qed.

Lemma extractBasicImages_truthy (listing : Listing) (x : Url) :
  In x (extractBasicImages listing) -> Js.truthy x = true.
Proof.
  rewrite extractBasicImages_eq, set_of_In, in_map_iff.
  intros (u & <- & H). apply filter_In in H as [_ H].
  now rewrite truthy_convertToHighRes.
Qed.

Lemma filter_all {A : Type} (f : A -> bool) (l : list A) :
  (forall x, In x l -> f x = true) -> filter f l = l.
Proof.
  induction l as [|a l IH]; intros H; simpl; [reflexivity|].
  rewrite (H a (or_introl eq_refl)). f_equal. apply IH.
  intros x Hx. apply H. now right.
Qed.

(** The deduplicated list of the success path: the summary images as they
    are, then the detail images that are new. *)
Lemma set_of_combinedImages (listing : Listing) (ad : AdditionalDetails) :
  set_of (combinedImages (extractBasicImages listing) ad)
  = extractBasicImages listing
    ++ fresh (extractBasicImages listing) (filter Js.truthy (ad_images ad)).
Proof.
  unfold combinedImages. rewrite filter_app.
  rewrite (filter_all _ _ (extractBasicImages_truthy listing)).
  unfold set_of.
  fold (add_all (extractBasicImages listing ++ filter Js.truthy (ad_images ad)) []).
  rewrite add_all_app.
  change (add_all (extractBasicImages listing) []) with (set_of (extractBasicImages listing)).
  rewrite (set_of_id _ (extractBasicImages_NoDup listing)).
  apply add_all_fresh.
Qed.

End ImageSets.

(* ===================================================================== *)
(** ** The detail call *)
(* ===================================================================== *)

Section DetailCall.

Variable R : Remote.

Lemma logger_run (entry : LogEntry) (w : World) :
  logger entry w = Some (Ok tt, logged entry w).
Proof. reflexivity. Qed.

Lemma getShoppingApiDetails_S (fuel : nat) (id : string) :
  getShoppingApiDetails R (S fuel) id
  = try_catch
      (getShoppingApiDetails_try R id)
      (fun error =>
         logger (LogShoppingApiError error) ;;
         match response_data error with
         | StrData body =>
             if invalid_token_body body then
               refreshApplicationToken R ;;
               getShoppingApiDetails R fuel id
             else ret no_details
         | NoData => ret no_details
         | ObjData => throw (TypeError "includes is not a function")
         end).
Proof. reflexivity. Qed.

(** A refresh always settles, after exactly one call to the token
    endpoint. *)
Lemma refresh_run (w : World) :
  exists res w',
    refreshApplicationToken R w = Some (res, w')
    /\ tokenCalls w' = S (tokenCalls w)
    /\ detailCalls w' = detailCalls w
    /\ (forall entry, In entry (log w) -> In entry (log w'))
    /\ (forall e, res = Throw e ->
          getApplicationToken R (tokenCalls w) = TokenRejected e)
    /\ (forall e, In (LogListingError e) (log w') -> In (LogListingError e) (log w)).
Proof.
  unfold refreshApplicationToken.
  destruct (getApplicationToken R (tokenCalls w)) as [e|tok];
    eexists; eexists; (split; [reflexivity|]); simpl;
    repeat split; auto; try (intros; apply in_or_app; tauto);
    try (intros e' H; congruence);
    intros e' H; apply in_app_or in H as [H|[H|[]]]; assumption || discriminate.
Qed.

(** The error loop logs every entry and starts one refresh for each entry
    with a token code; it never raises. *)
Lemma report_errors_run (errors : list ApiError) (w : World) :
  exists w',
    report_errors R errors w = Some (Ok tt, w')
    /\ detailCalls w' = detailCalls w
    /\ tokenCalls w' = tokenCalls w + length (filter is_token_code errors)
    /\ (forall entry, In entry (log w) -> In entry (log w'))
    /\ (forall error, In error errors ->
          In (LogApiError (ShortMessage error) (LongMessage error)) (log w'))
    /\ (forall e, In (LogListingError e) (log w') -> In (LogListingError e) (log w)).
Proof.
  revert w. induction errors as [|error rest IH]; intros w.
  - exists w. simpl. repeat split; auto; try lia; tauto.
  - cbn [report_errors]. unfold bind at 1. rewrite logger_run.
    unfold bind at 1.
    set (w1 := logged (LogApiError (ShortMessage error) (LongMessage error)) w).
    assert (H1 : In (LogApiError (ShortMessage error) (LongMessage error)) (log w1))
      by (simpl; apply in_or_app; simpl; tauto).
    assert (H2 : forall entry, In entry (log w) -> In entry (log w1))
      by (intros; simpl; apply in_or_app; tauto).
    assert (H3 : forall e, In (LogListingError e) (log w1) -> In (LogListingError e) (log w)).
    { simpl. intros e H. apply in_app_or in H as [H|[H|[]]]; [assumption | discriminate]. }
    cbn [filter]. destruct (is_token_code error).
    + unfold refreshApplicationToken_started.
      match goal with
      | |- context [report_errors R rest ?w2] =>
          destruct (IH w2) as (w' & -> & Hd' & Ht' & Hl' & He' & Hn')
      end.
      exists w'. split; [reflexivity|]. simpl in *.
      repeat split; try congruence; try lia; auto.
      intros e [<-|He]; auto.
    + unfold ret at 1.
      destruct (IH w1) as (w' & -> & Hd' & Ht' & Hl' & He' & Hn').
      exists w'. split; [reflexivity|]. simpl in *.
      repeat split; try congruence; try lia; auto.
      intros e [<-|He]; auto.
Qed.


Lemma quiet_detail_index (bound : nat) (w : World) (id : string) :
  quiet_from R bound ->
  detail_signal (axios_post R (detailCalls w) (applicationToken w) id) = true ->
  detailCalls w < bound.
Proof.
  intros Hq Hs. destruct (le_lt_dec bound (detailCalls w)) as [Hle|]; [|assumption].
  destruct (Hq _ Hle) as [Hd _]. rewrite Hd in Hs. discriminate.
Qed.

Lemma quiet_token_index (bound : nat) (w : World) :
  quiet_from R bound ->
  refresh_signal (getApplicationToken R (tokenCalls w)) = true ->
  tokenCalls w < bound.
Proof.
  intros Hq Hs. destruct (le_lt_dec bound (tokenCalls w)) as [Hle|]; [|assumption].
  destruct (Hq _ Hle) as [_ Ht]. rewrite Ht in Hs. discriminate.
Qed.

(** What the request and the look at its answer do, once a token is
    there. *)
Lemma request_run (id : string) (w : World) :
  exists res w1,
    (result <- post_GetSingleItem R id ;;
     match result with
     | Some response =>
         if is_string (Ack response) "Failure" then
           report_errors R (errors_of (Errors response)) ;;
           throw (Error "eBay API request failed")
         else
           match Item_ response with
           | Some (item :: _) =>
               ret (mkAdditionalDetails
                      (idx0 (Description item))
                      (extractAllImages item)
                      (Some item))
           | Some [] =>
               throw (TypeError "Cannot read properties of undefined")
           | None => ret no_details
           end
     | None => ret no_details
     end) w = Some (res, w1)
    /\ tokenCalls w <= tokenCalls w1
    /\ detailCalls w1 = S (detailCalls w)
    /\ (forall e, res = Throw e -> token_signal e = true ->
          detail_signal (axios_post R (detailCalls w) (applicationToken w) id) = true)
    /\ (forall ad, res = Ok ad ->
          ad = no_details
          \/ exists item,
               ad = mkAdditionalDetails (idx0 (Description item))
                      (extractAllImages item) (Some item)).
Proof.
  unfold bind at 1, post_GetSingleItem.
  destruct (axios_post R (detailCalls w) (applicationToken w) id)
    as [e|e|[response|]] eqn:Hax.
  - do 2 eexists. split; [reflexivity|]. simpl.
    repeat split; auto; intros; congruence.
  - do 2 eexists. split; [reflexivity|]. simpl.
    repeat split; auto; intros; congruence.
  - destruct (is_string (Ack response) "Failure").
    + unfold bind.
      destruct (report_errors_run (errors_of (Errors response)) (requested w))
        as (w' & Hr & Hd & Ht & _).
      fold (requested w). rewrite Hr. unfold throw.
      do 2 eexists. split; [reflexivity|]. simpl in *.
      repeat split; try lia; intros e H; try discriminate.
      injection H as <-. discriminate.
    + destruct (Item_ response) as [[|item rest]|];
        do 2 eexists; (split; [reflexivity|]); simpl;
        repeat split; auto; intros x H; try discriminate;
        injection H as <-; try discriminate; eauto.
  - do 2 eexists. split; [reflexivity|]. simpl.
    repeat split; auto; intros x H; try discriminate.
    injection H as <-. auto.
Qed.

(** The [try] block always settles; an error with an invalid-token text
    brings a call counter closer to the bound from which the remotes are
    quiet. *)
Lemma try_run (id : string) (w : World) :
  exists res w1,
    getShoppingApiDetails_try R id w = Some (res, w1)
    /\ tokenCalls w <= tokenCalls w1
    /\ detailCalls w <= detailCalls w1
    /\ (forall bound e, quiet_from R bound -> res = Throw e ->
          token_signal e = true -> budget bound w1 < budget bound w)
    /\ (forall ad, res = Ok ad ->
          ad = no_details
          \/ exists item,
               ad = mkAdditionalDetails (idx0 (Description item))
                      (extractAllImages item) (Some item)).
Proof.
  unfold getShoppingApiDetails_try. unfold bind at 1.
  destruct (Js.truthy (applicationToken w)).
  - unfold ret at 1.
    destruct (request_run id w) as (res & w1 & -> & Ht & Hd & Hs & Hok).
    exists res, w1. split; [reflexivity|].
    repeat split; try lia; auto.
    intros bound e Hq -> Hsig.
    pose proof (quiet_detail_index bound w id Hq (Hs e eq_refl Hsig)).
    unfold budget. lia.
  - destruct (refresh_run w) as (res0 & w0 & -> & Ht0 & Hd0 & _ & Hrej & _).
    destruct res0 as [[]|e0].
    + destruct (request_run id w0) as (res & w1 & -> & Ht & Hd & Hs & Hok).
      exists res, w1. split; [reflexivity|].
      repeat split; try lia; auto.
      intros bound e Hq -> Hsig.
      pose proof (quiet_detail_index bound w0 id Hq (Hs e eq_refl Hsig)).
      unfold budget. lia.
    + exists (Throw e0), w0. split; [reflexivity|].
      repeat split; try lia; [|intros; discriminate].
      intros bound e Hq [= <-] Hsig.
      assert (tokenCalls w < bound).
      { apply quiet_token_index; [assumption|].
        rewrite (Hrej e0 eq_refl). exact Hsig. }
      unfold budget. lia.
Qed.


Lemma budget_mono (bound : nat) (w w' : World) :
  tokenCalls w <= tokenCalls w' -> detailCalls w <= detailCalls w' ->
  budget bound w' <= budget bound w.
Proof. unfold budget. lia. Qed.

(** With remotes that are quiet from [bound] on, a retry budget above
    the distance to [bound] lets the detail call settle. *)
Lemma detail_call_settles (bound : nat) :
  quiet_from R bound ->
  forall fuel id w,
    budget bound w < fuel ->
    exists res w',
      getShoppingApiDetails R fuel id w = Some (res, w')
      /\ budget bound w' <= budget bound w.
Proof.
  intros Hq. induction fuel as [|fuel IH]; intros id w Hb; [lia|].
  rewrite getShoppingApiDetails_S. unfold try_catch.
  destruct (try_run id w) as (res & w1 & -> & Ht & Hd & Hsig & _).
  destruct res as [ad|e].
  - do 2 eexists. split; [reflexivity|]. now apply budget_mono.
  - unfold bind at 1. rewrite logger_run.
    assert (Hb1 : budget bound (logged (LogShoppingApiError e) w1) <= budget bound w)
      by (apply budget_mono; simpl; lia).
    destruct (response_data e) as [|body|] eqn:He.
    + do 2 eexists. split; [reflexivity|]. exact Hb1.
    + destruct (invalid_token_body body) eqn:Hbody.
      * assert (Hlt : budget bound w1 < budget bound w).
        { apply (Hsig bound e Hq eq_refl). unfold token_signal. now rewrite He. }
        unfold bind.
        destruct (refresh_run (logged (LogShoppingApiError e) w1))
          as (res2 & w2 & -> & Ht2 & Hd2 & _).
        simpl in Ht2, Hd2.
        assert (Hb2 : budget bound w2 <= budget bound w1)
          by (apply budget_mono; lia).
        destruct res2 as [[]|e2].
        -- destruct (IH id w2) as (res3 & w3 & -> & Hb3); [lia|].
           do 2 eexists. split; [reflexivity|]. lia.
        -- do 2 eexists. split; [reflexivity|]. lia.
      * do 2 eexists. split; [reflexivity|]. exact Hb1.
    + do 2 eexists. split; [reflexivity|]. exact Hb1.
Qed.

(** What the detail call resolves to: nothing, or the first item of the
    response with the images [extractAllImages] finds in it. *)
Lemma detail_call_shape (fuel : nat) (id : string) (w w' : World)
    (ad : AdditionalDetails) :
  getShoppingApiDetails R fuel id w = Some (Ok ad, w') ->
  ad = no_details
  \/ exists item,
       ad = mkAdditionalDetails (idx0 (Description item))
              (extractAllImages item) (Some item).
Proof.
  revert w. induction fuel as [|fuel IH]; intros w; [discriminate|].
  rewrite getShoppingApiDetails_S. unfold try_catch.
  destruct (try_run id w) as (res & w1 & -> & _ & _ & _ & Hok).
  destruct res as [ad1|e].
  - intros [= <- <-]. auto.
  - unfold bind at 1. rewrite logger_run.
    destruct (response_data e) as [|body|].
    + intros [= <- <-]. auto.
    + destruct (invalid_token_body body).
      * unfold bind.
        destruct (refresh_run (logged (LogShoppingApiError e) w1))
          as ([[]|e2] & w2 & -> & _); [apply IH | discriminate].
      * intros [= <- <-]. auto.
    + discriminate.
Qed.

(** The detail call on an answer whose [Ack] is the plain string
    'Failure' (a shape the parser does not deliver with its default
    options): the error raised in the [try] block is caught by the [catch]
    block of the same call, which resolves to [{ images: [] }]. *)
Lemma detail_call_ack_failure (fuel : nat) (id : string) (w : World)
    (response : GetSingleItemResponse) :
  Js.truthy (applicationToken w) = true ->
  axios_post R (detailCalls w) (applicationToken w) id = Parsed (Some response) ->
  is_string (Ack response) "Failure" = true ->
  exists w',
    getShoppingApiDetails R (S fuel) id w = Some (Ok no_details, w')
    /\ detailCalls w' = S (detailCalls w)
    /\ tokenCalls w'
       = tokenCalls w + length (filter is_token_code (errors_of (Errors response)))
    /\ (forall error, In error (errors_of (Errors response)) ->
          In (LogApiError (ShortMessage error) (LongMessage error)) (log w'))
    /\ In (LogShoppingApiError (Error "eBay API request failed")) (log w')
    /\ (forall e, In (LogListingError e) (log w') -> In (LogListingError e) (log w)).
Proof.
  intros Htok Hax Hack.
  rewrite getShoppingApiDetails_S. unfold try_catch, getShoppingApiDetails_try.
  unfold bind at 1. rewrite Htok. unfold ret at 1.
  unfold bind at 1, post_GetSingleItem. rewrite Hax, Hack.
  fold (requested w). unfold bind at 1.
  destruct (report_errors_run (errors_of (Errors response)) (requested w))
    as (w1 & -> & Hd & Ht & Hl & He & Hn).
  unfold throw, bind. rewrite logger_run. cbn [Error response_data ret].
  eexists. split; [reflexivity|]. simpl in *.
  repeat split; auto.
  - intros error Hin. apply in_or_app. left. auto.
  - apply in_or_app. simpl. tauto.
  - intros e Hin. apply in_app_or in Hin as [Hin|[Hin|[]]]; [auto | discriminate].
Qed.

End DetailCall.

(** A detail API that rejects the first requests with an invalid-token
    body is asked again after each of them. *)
Lemma retry_chain (k m : nat) (id : string) (w : World) :
  Js.truthy (applicationToken w) = true ->
  detailCalls w + m = k ->
  exists w',
    getShoppingApiDetails (Sample.R_invalid k) (S m) id w = Some (Ok no_details, w')
    /\ detailCalls w' = S k
    /\ tokenCalls w' = tokenCalls w + m.
Proof.
  revert w. induction m as [|m IH]; intros w Htok Hk.
  - rewrite getShoppingApiDetails_S. unfold try_catch, getShoppingApiDetails_try.
    unfold bind at 1. rewrite Htok. unfold ret at 1.
    unfold bind at 1, post_GetSingleItem. cbn [Sample.R_invalid axios_post].
    destruct (Nat.ltb_spec (detailCalls w) k) as [Hlt|_]; [lia|].
    eexists. split; [reflexivity|]. simpl. lia.
  - rewrite getShoppingApiDetails_S. unfold try_catch, getShoppingApiDetails_try.
    unfold bind at 1. rewrite Htok. unfold ret at 1.
    unfold bind at 1, post_GetSingleItem. cbn [Sample.R_invalid axios_post].
    destruct (Nat.ltb_spec (detailCalls w) k) as [_|Hge]; [|lia].
    unfold bind at 1. rewrite logger_run.
    cbn [Sample.invalid_token_error response_data].
    replace (invalid_token_body _) with true by reflexivity.
    unfold bind, refreshApplicationToken.
    cbn [Sample.R_invalid getApplicationToken].
    match goal with
    | |- context [getShoppingApiDetails _ _ _ ?w2] =>
        destruct (IH w2) as (w' & Hrun & Hd & Ht); [reflexivity | simpl; lia |]
    end.
    exists w'. split; [exact Hrun|]. simpl in Ht. lia.
Qed.

Lemma retry_forever (fuel : nat) (id : string) (w : World) :
  Js.truthy (applicationToken w) = true ->
  getShoppingApiDetails Sample.R_always_invalid fuel id w = None.
Proof.
  revert w. induction fuel as [|fuel IH]; intros w Htok; [reflexivity|].
  rewrite getShoppingApiDetails_S. unfold try_catch, getShoppingApiDetails_try.
  unfold bind at 1. rewrite Htok. unfold ret at 1.
  unfold bind at 1, post_GetSingleItem.
  cbn [Sample.R_always_invalid axios_post].
  unfold bind at 1. rewrite logger_run.
  cbn [Sample.invalid_token_error response_data].
  replace (invalid_token_body _) with true by reflexivity.
  unfold bind, refreshApplicationToken.
  cbn [Sample.R_always_invalid getApplicationToken].
  apply IH. reflexivity.
Qed.

(** C3 (the code at the failing input): the retry is a recursive call of
    the whole detail call, so it is repeated as long as the invalid-token
    text comes back.  After [k] rejected requests the call has sent
    [k + 1] requests and refreshed the token [k] times, for every [k]; and
    when every request is rejected the call never settles, whatever the
    retry budget of the model. *)
Theorem C3_retry_repeats :
  (forall k,
     exists w',
       getShoppingApiDetails (Sample.R_invalid k) (S k) "110" Sample.w_token
       = Some (Ok no_details, w')
       /\ detailCalls w' = S k
       /\ tokenCalls w' = k)
  /\ (forall fuel,
        getShoppingApiDetails Sample.R_always_invalid fuel "110" Sample.w_token
        = None).
Proof.
  split.
  - intros k.
    destruct (retry_chain k k "110" Sample.w_token) as (w' & H & Hd & Ht);
      [reflexivity | reflexivity |].
    exists w'. simpl in Ht. auto.
  - intros fuel. apply retry_forever. reflexivity.
Qed.

(* ===================================================================== *)
(** ** The enricher *)
(* ===================================================================== *)

Section Enricher.

Variable R : Remote.
Variable fuel : nat.

Lemma has_itemId_true (listing : Listing) :
  has_itemId listing = true <-> exists id, itemId listing = Some id /\ id <> "".
Proof.
  unfold has_itemId, Js.truthy. destruct (itemId listing) as [id|].
  - destruct (String.eqb_spec id ""); simpl; split.
    + discriminate.
    + intros (id' & [= <-] & H). contradiction.
    + eauto.
    + reflexivity.
  - split; [discriminate | intros (id & H & _); discriminate].
Qed.

(** A listing without an item identifier is skipped. *)
Lemma step_skip (listing : Listing) (acc : list EnrichedListing) (w : World) :
  has_itemId listing = false ->
  getDetailedListings_step R fuel listing acc w
  = Some (Ok acc, logged (LogMissingItemId listing) (logged (LogProcessing listing) w)).
Proof.
  unfold has_itemId, Js.truthy, getDetailedListings_step, try_catch.
  unfold bind at 1. rewrite logger_run.
  destruct (itemId listing) as [id|]; [|reflexivity].
  destruct (id =? ""); [reflexivity | discriminate].
Qed.

(** The success path of one turn. *)
Lemma step_success (listing : Listing) (id : string)
    (acc : list EnrichedListing) (w w' : World) (ad : AdditionalDetails) :
  itemId listing = Some id -> id <> "" ->
  getShoppingApiDetails R fuel id (logged (LogProcessing listing) w) = Some (Ok ad, w') ->
  getDetailedListings_step R fuel listing acc w
  = Some (Ok (acc ++ [enriched listing ad]), w').
Proof.
  intros Hid Hne Hcall.
  unfold getDetailedListings_step, try_catch.
  unfold bind at 1. rewrite logger_run, Hid.
  destruct (String.eqb_spec id ""); [contradiction|].
  unfold bind. rewrite Hcall. reflexivity.
Qed.

(** The fallback path of one turn. *)
Lemma step_fallback (listing : Listing) (id : string)
    (acc : list EnrichedListing) (w w' : World) (e : JsError) :
  itemId listing = Some id -> id <> "" ->
  getShoppingApiDetails R fuel id (logged (LogProcessing listing) w) = Some (Throw e, w') ->
  getDetailedListings_step R fuel listing acc w
  = Some (Ok (acc ++ [fallback listing]), logged (LogListingError e) w').
Proof.
  intros Hid Hne Hcall.
  unfold getDetailedListings_step, try_catch.
  unfold bind at 1. rewrite logger_run, Hid.
  destruct (String.eqb_spec id ""); [contradiction|].
  unfold bind at 1. rewrite Hcall. reflexivity.
Qed.

(** The loop settles when every detail call does, with one record for each
    listing that has an item identifier, in the order of the batch. *)
Lemma loop_settles (bound : nat) :
  quiet_from R bound ->
  forall (listings : list Listing) (acc : list EnrichedListing) (w : World),
    budget bound w < fuel ->
    exists out w',
      getDetailedListings_loop R fuel listings acc w = Some (Ok out, w')
      /\ map originalListing out
         = map originalListing acc ++ filter has_itemId listings.
Proof.
  intros Hq. induction listings as [|listing rest IH]; intros acc w Hb.
  - exists acc, w. split; [reflexivity|]. simpl. now rewrite app_nil_r.
  - cbn [getDetailedListings_loop filter]. unfold bind.
    destruct (has_itemId listing) eqn:Hid.
    + apply has_itemId_true in Hid as (id & Hid & Hne).
      destruct (detail_call_settles R bound Hq fuel id (logged (LogProcessing listing) w))
        as (res & w1 & Hcall & Hb1); [exact Hb|].
      change (budget bound (logged (LogProcessing listing) w)) with (budget bound w) in Hb1.
      destruct res as [ad|e].
      * rewrite (step_success _ _ _ _ _ _ Hid Hne Hcall).
        destruct (IH (acc ++ [enriched listing ad]) w1) as (out & w' & -> & Hm); [lia|].
        exists out, w'. split; [reflexivity|].
        rewrite Hm, map_app, <- app_assoc. reflexivity.
      * rewrite (step_fallback _ _ _ _ _ _ Hid Hne Hcall).
        destruct (IH (acc ++ [fallback listing]) (logged (LogListingError e) w1))
          as (out & w' & -> & Hm).
        { change (budget bound (logged (LogListingError e) w1)) with (budget bound w1). lia. }
        exists out, w'. split; [reflexivity|].
        rewrite Hm, map_app, <- app_assoc. reflexivity.
    + rewrite (step_skip _ _ _ Hid).
      apply IH. exact Hb.
Qed.

(** On both paths no entry of the image list is absent or empty. *)
Lemma images_truthy (listing : Listing) (ad : AdditionalDetails) (x : Url) :
  In x (images (enriched listing ad)) \/ In x (images (fallback listing)) ->
  Js.truthy x = true.
Proof.
  intros [H|H].
  - cbn [images enriched] in H. unfold uniqueImages in H.
    apply in_map_iff in H as (k & <- & Hk).
    rewrite truthy_convertToHighRes.
    apply (proj1 (set_of_In _ _)) in Hk. unfold combinedImages in Hk.
    now apply filter_In in Hk.
  - now apply (extractBasicImages_truthy listing).
Qed.

(** The image list of the fallback path has no duplicates. *)
Lemma fallback_images_NoDup (listing : Listing) :
  NoDup (images (fallback listing)).
Proof. apply extractBasicImages_NoDup. Qed.

End Enricher.

(** C2 (as stated, refuted): a listing without an item identifier is
    dropped, so a batch can yield fewer records than it has listings. *)
Lemma C2_listing_without_id_dropped :
  ~ (forall R fuel listings w out w',
       getDetailedListings R fuel listings w = Some (Ok out, w') ->
       length out = length listings).
Proof.
  intros H.
  specialize (H Sample.R_no_item 1 [Sample.listing_no_id] Sample.w_token
                [] _ eq_refl).
  discriminate.
Qed.

(** C2 (amended): for every batch the enricher yields exactly one record
    for each listing that has an item identifier, in the order of the
    batch, whatever the detail calls do, as long as the invalid-token
    answers of the remotes come to an end; a listing without an item
    identifier is skipped.  When the detail call of a listing raises, the
    record is the partial one: the summary and the summary-derived images,
    no description and no details. *)
Theorem C2_one_record_per_identified_listing
    (R : Remote) (bound fuel : nat) (listings : list Listing) (w : World) :
  quiet_from R bound ->
  budget bound w < fuel ->
  (exists out w',
     getDetailedListings R fuel listings w = Some (Ok out, w')
     /\ map originalListing out = filter has_itemId listings
     /\ length out = length (filter has_itemId listings))
  /\ (forall listing id acc w0 e w1,
        itemId listing = Some id -> id <> "" ->
        getShoppingApiDetails R fuel id (logged (LogProcessing listing) w0)
        = Some (Throw e, w1) ->
        getDetailedListings_step R fuel listing acc w0
        = Some (Ok (acc ++ [fallback listing]), logged (LogListingError e) w1)
        /\ images (fallback listing) = extractBasicImages listing
        /\ description (fallback listing) = None
        /\ details (fallback listing) = None).
Proof.
  intros Hq Hb. split.
  - destruct (loop_settles R fuel bound Hq listings [] w Hb) as (out & w' & Hrun & Hm).
    exists out, w'. simpl in Hm. repeat split; [exact Hrun | exact Hm |].
    rewrite <- Hm. now rewrite length_map.
  - intros listing id acc w0 e w1 Hid Hne Hcall.
    repeat split. now apply (step_fallback R fuel listing id).
Qed.

Lemma C2_one_record_per_identified_listing_witness :
  exists out w',
    getDetailedListings Sample.R_object_body 1
      [Sample.listing_thumbnail; Sample.listing_no_id; Sample.listing_three]
      Sample.w_token
    = Some (Ok out, w')
    /\ length out = 2.
Proof.
  destruct (C2_one_record_per_identified_listing Sample.R_object_body 0 1
              [Sample.listing_thumbnail; Sample.listing_no_id; Sample.listing_three]
              Sample.w_token)
    as [(out & w' & Hrun & _ & Hlen) _].
  - intros n _. split; reflexivity.
  - vm_compute. lia.
  - exists out, w'. split; [exact Hrun | exact Hlen].
Defined.
(** C4 (the code against its own error branch): the parser delivers every
    child node of an answer as an array, so a failure answer carries [Ack]
    as the array ['Failure'] and the comparison [Ack === 'Failure'] is
    false.  On such an answer the detail call logs no error entry, starts
    no token refresh and raises nothing: it sends its one request and
    resolves to [{ images: [] }] as for an answer without item, and the
    caller stays on its success path, without a listing error in the
    log. *)
Theorem C4_array_ack_failure_ignored
    (R : Remote) (fuel : nat) (listing : Listing) (id : string)
    (acc : list EnrichedListing) (w : World) (response : GetSingleItemResponse)
    (ack : list string) :
  itemId listing = Some id -> id <> "" ->
  Js.truthy (applicationToken w) = true ->
  axios_post R (detailCalls w) (applicationToken w) id = Parsed (Some response) ->
  Ack response = XArray ack ->
  Item_ response = None ->
  let w' := requested (logged (LogProcessing listing) w) in
  getShoppingApiDetails R (S fuel) id (logged (LogProcessing listing) w)
  = Some (Ok no_details, w')
  /\ getDetailedListings_step R (S fuel) listing acc w
     = Some (Ok (acc ++ [enriched listing no_details]), w')
  /\ tokenCalls w' = tokenCalls w
  /\ applicationToken w' = applicationToken w
  /\ log w' = log w ++ [LogProcessing listing].
Proof.
  intros Hid Hne Htok Hax Hack Hitem w'.
  assert (Hcall : getShoppingApiDetails R (S fuel) id (logged (LogProcessing listing) w)
                  = Some (Ok no_details, w')).
  { subst w'. set (w0 := logged (LogProcessing listing) w).
    change (Js.truthy (applicationToken w0) = true) in Htok.
    change (axios_post R (detailCalls w0) (applicationToken w0) id
            = Parsed (Some response)) in Hax.
    rewrite getShoppingApiDetails_S.
    unfold try_catch, getShoppingApiDetails_try.
    unfold bind at 1. rewrite Htok. unfold ret at 1.
    unfold bind at 1, post_GetSingleItem.
    rewrite Hax, Hack, Hitem. reflexivity. }
  repeat split.
  - exact Hcall.
  - now apply (step_success R (S fuel) listing id).
Qed.

Lemma C4_array_ack_failure_ignored_witness :
  getDetailedListings_step Sample.R_ack_failure 1 Sample.listing_thumbnail []
    Sample.w_token
  = Some (Ok [enriched Sample.listing_thumbnail no_details],
          requested (logged (LogProcessing Sample.listing_thumbnail) Sample.w_token))
  /\ tokenCalls (requested (logged (LogProcessing Sample.listing_thumbnail)
                              Sample.w_token)) = 0
  /\ log (requested (logged (LogProcessing Sample.listing_thumbnail) Sample.w_token))
     = [LogProcessing Sample.listing_thumbnail].
Proof.
  destruct (C4_array_ack_failure_ignored Sample.R_ack_failure 0
              Sample.listing_thumbnail "110" [] Sample.w_token
              Sample.failure_response ["Failure"])
    as (_ & Hstep & Ht & _ & Hl).
  - reflexivity.
  - discriminate.
  - reflexivity.
  - reflexivity.
  - reflexivity.
  - reflexivity.
  - split; [exact Hstep | split; [exact Ht | exact Hl]].
Defined.

(** C1 (as stated, refuted): a gallery thumbnail and a detail picture
    whose raw URLs differ and whose upgraded forms agree end up as one
    entry of the final list, not two. *)
Lemma C1_equal_after_upgrade_deduplicated :
  exists r w',
    getDetailedListings Sample.R_one_picture 1 [Sample.listing_thumbnail]
      Sample.w_token
    = Some (Ok [r], w')
    /\ galleryURL Sample.listing_thumbnail
       <> Some "https://i.ebayimg.com/images/g/abc/s-l1600.jpg"
    /\ detail_raw (mkAdditionalDetails (description r) [] (details r))
       = [Some "https://i.ebayimg.com/images/g/abc/s-l1600.jpg"]
    /\ images r = [Some "https://i.ebayimg.com/images/g/abc/s-l1600.jpg"].
Proof.
  do 2 eexists. split; [vm_compute; reflexivity|].
  split; [discriminate|]. split; reflexivity.
Qed.

(** C1 (amended): on the success path the images are deduplicated on the
    URLs as the two extractors return them, that is after their resolution
    upgrade: the final list is the upgrade of a duplicate-free list of
    keys, and the keys are exactly the non-empty upgraded forms of the raw
    summary URLs and of the raw detail URLs.  Two raw URLs with the same
    upgraded form therefore share one key, whether or not they were
    identical before the upgrade. *)
Theorem C1_dedup_on_upgraded_urls
    (R : Remote) (fuel : nat) (listing : Listing) (id : string)
    (acc : list EnrichedListing) (w w' : World) (ad : AdditionalDetails) :
  itemId listing = Some id -> id <> "" ->
  getShoppingApiDetails R fuel id (logged (LogProcessing listing) w) = Some (Ok ad, w') ->
  exists keys,
    getDetailedListings_step R fuel listing acc w
    = Some (Ok (acc ++ [enriched listing ad]), w')
    /\ images (enriched listing ad) = map convertToHighRes_val keys
    /\ NoDup keys
    /\ (forall k,
          In k keys <->
          Js.truthy k = true
          /\ exists raw,
               k = convertToHighRes_val raw
               /\ (In raw (filter Js.truthy (summary_urls listing))
                   \/ In raw (detail_raw ad))).
Proof.
  intros Hid Hne Hcall.
  exists (set_of (combinedImages (extractBasicImages listing) ad)).
  split; [now apply (step_success R fuel listing id)|].
  split; [reflexivity|]. split; [apply set_of_NoDup|].
  intros k. rewrite set_of_In. unfold combinedImages.
  rewrite filter_In, in_app_iff, extractBasicImages_eq, set_of_In, in_map_iff.
  assert (Hd : In k (ad_images ad)
               <-> exists raw, k = convertToHighRes_val raw /\ In raw (detail_raw ad)).
  { destruct (detail_call_shape R fuel id _ _ _ Hcall) as [->|(item & ->)].
    - simpl. split; [tauto | intros (raw & _ & [])].
    - unfold detail_raw. cbn [ad_images ad_details].
      rewrite extractAllImages_eq, set_of_In, in_map_iff.
      split; intros (raw & H1 & H2); exists raw; auto. }
  rewrite Hd. split.
  - intros [[(raw & <- & H)|(raw & -> & H)] Ht]; split; eauto.
  - intros (Ht & raw & -> & [H|H]); split; eauto.
Qed.

Lemma C1_dedup_on_upgraded_urls_witness :
  exists keys w',
    getDetailedListings_step Sample.R_one_picture 1 Sample.listing_thumbnail []
      Sample.w_token
    = Some (Ok [enriched Sample.listing_thumbnail
                  (mkAdditionalDetails None
                     [Some "https://i.ebayimg.com/images/g/abc/s-l1600.jpg"]
                     (Some (mkItem None
                        (UrlArray [Some "https://i.ebayimg.com/images/g/abc/s-l1600.jpg"])
                        None None None None None None)))], w')
    /\ NoDup keys
    /\ In (Some "https://i.ebayimg.com/images/g/abc/s-l1600.jpg") keys.
Proof.
  eassert (Hcall : getShoppingApiDetails Sample.R_one_picture 1 "110"
                     (logged (LogProcessing Sample.listing_thumbnail) Sample.w_token)
                   = Some (Ok _, _)) by (vm_compute; reflexivity).
  destruct (C1_dedup_on_upgraded_urls Sample.R_one_picture 1 Sample.listing_thumbnail
              "110" [] Sample.w_token _ _ eq_refl ltac:(discriminate) Hcall)
    as (keys & Hstep & _ & Hnd & Hin).
  exists keys. eexists. split; [exact Hstep|]. split; [exact Hnd|].
  apply Hin. split; [reflexivity|].
  exists (Some "https://i.ebayimg.com/thumbs/images/g/abc/s-l64.jpg").
  split; [reflexivity|]. left. simpl. tauto.
Defined.

(** C7 (the code at the failing input): two summary URLs that differ
    after one upgrade and agree after two are both kept by the set and
    then mapped to the same URL, so the final list of the success path
    holds that URL twice. *)
Theorem C7_duplicate_after_second_upgrade :
  exists r w',
    getDetailedListings Sample.R_no_item 1 [Sample.listing_nested_thumbs]
      Sample.w_token
    = Some (Ok [r], w')
    /\ images r = [Some "https://i.ebayimg.com/a.jpg"; Some "https://i.ebayimg.com/a.jpg"]
    /\ ~ NoDup (images r).
Proof.
  do 2 eexists. split; [vm_compute; reflexivity|]. split; [reflexivity|].
  cbn [images]. intros H. apply NoDup_cons_iff in H as [H _]. apply H. simpl. tauto.
Qed.

(** C10: on the success path the final list is the upgrade of the summary
    images, in their insertion order (gallery URL first, then the summary
    pictures, each once), followed by the upgrade of those detail images
    that were not among the summary images, each once and in the order of
    the detail list. *)
Theorem C10_summary_images_first
    (R : Remote) (fuel : nat) (listing : Listing) (id : string)
    (acc : list EnrichedListing) (w w' : World) (ad : AdditionalDetails) :
  itemId listing = Some id -> id <> "" ->
  getShoppingApiDetails R fuel id (logged (LogProcessing listing) w) = Some (Ok ad, w') ->
  exists extra,
    getDetailedListings_step R fuel listing acc w
    = Some (Ok (acc ++ [enriched listing ad]), w')
    /\ images (enriched listing ad)
       = map convertToHighRes_val (extractBasicImages listing)
         ++ map convertToHighRes_val extra
    /\ extractBasicImages listing
       = fresh []
           (map convertToHighRes_val
              (filter Js.truthy (galleryURL listing :: urls_of (pictureURL listing))))
    /\ extra = fresh (extractBasicImages listing) (filter Js.truthy (ad_images ad))
    /\ NoDup extra
    /\ (forall x,
          In x extra <->
          In x (ad_images ad) /\ Js.truthy x = true
          /\ ~ In x (extractBasicImages listing)).
Proof.
  intros Hid Hne Hcall.
  exists (fresh (extractBasicImages listing) (filter Js.truthy (ad_images ad))).
  split; [now apply (step_success R fuel listing id)|].
  split.
  { cbn [images enriched]. unfold uniqueImages.
    now rewrite set_of_combinedImages, map_app. }
  split.
  { rewrite extractBasicImages_eq. unfold set_of.
    match goal with
    | |- fold_left _ ?l [] = _ => change (add_all l [] = fresh [] l)
    end.
    now rewrite add_all_fresh. }
  split; [reflexivity|]. split; [apply fresh_NoDup|].
  intros x. rewrite fresh_In, filter_In. tauto.
Qed.

Lemma C10_summary_images_first_witness :
  exists r w',
    getDetailedListings_step Sample.R_one_picture 1 Sample.listing_three []
      Sample.w_token
    = Some (Ok [r], w')
    /\ images r
       = [Some "https://i.ebayimg.com/images/g/v/s-l1600.jpg";
          Some "https://i.ebayimg.com/images/g/w/s-l1600.jpg";
          Some "https://i.ebayimg.com/images/g/abc/s-l1600.jpg"].
Proof.
  eassert (Hcall : getShoppingApiDetails Sample.R_one_picture 1 "111"
                     (logged (LogProcessing Sample.listing_three) Sample.w_token)
                   = Some (Ok _, _)) by (vm_compute; reflexivity).
  destruct (C10_summary_images_first Sample.R_one_picture 1 Sample.listing_three
              "111" [] Sample.w_token _ _ eq_refl ltac:(discriminate) Hcall)
    as (extra & Hstep & Himg & _ & -> & _).
  do 2 eexists. split; [exact Hstep|]. rewrite Himg. reflexivity.
Defined.

(* ===================================================================== *)
(** ** The fetcher *)
(* ===================================================================== *)

Section Fetcher.

Variable R : Remote.

Let items_of (page : nat) : list Listing := page_items (findItemsIneBayStores R page).

(** The page loop from any page on: it requests [k] consecutive pages,
    returns what they hold in page order, goes on after a rejected or a
    full page and stops after a short or empty one. *)
Lemma fetch_pages_spec (remaining : nat) :
  forall (page : nat) (acc : list Listing) (w : World),
  exists k w',
    fetch_pages R remaining page acc w
    = Some (Ok (acc ++ flat_map items_of (seq page k)), w')
    /\ k <= remaining
    /\ pagesRequested w' = pagesRequested w ++ seq page k
    /\ (forall p, page <= p -> S p < page + k ->
          last_page (findItemsIneBayStores R p) = false)
    /\ (k = remaining
        \/ (0 < k /\ last_page (findItemsIneBayStores R (page + k - 1)) = true))
    /\ (forall p e, page <= p < page + k ->
          findItemsIneBayStores R p = PageRejected e ->
          In (LogPageError p e) (log w'))
    /\ (forall entry, In entry (log w) -> In entry (log w')).
Proof.
  induction remaining as [|remaining IH]; intros page acc w.
  - exists 0, w. simpl. rewrite app_nil_r.
    repeat split; auto; try lia. now rewrite app_nil_r.
  - cbn [fetch_pages]. unfold bind at 1, request_page.
    destruct (findItemsIneBayStores R page) as [e|[items|]] eqn:Hpage.
    + (* rejected: logged, next page *)
      unfold bind at 1. rewrite logger_run.
      match goal with
      | |- context [fetch_pages R remaining (S page) acc ?w1] =>
          destruct (IH (S page) acc w1) as (k & w' & Hrun & Hk & Hreq & Hmid & Hend & Hlog & Hmono)
      end.
      exists (S k), w'. cbn [seq flat_map]. unfold items_of at 1. rewrite Hpage.
      split; [exact Hrun|]. simpl in Hreq, Hmono.
      split; [lia|]. split; [now rewrite Hreq, <- app_assoc|].
      split.
      { intros p Hp1 Hp2. destruct (Nat.eq_dec p page) as [->|Hne].
        - now rewrite Hpage.
        - apply Hmid; lia. }
      split.
      { destruct Hend as [->|[Hpos Hlast]]; [now left | right].
        split; [lia|]. replace (page + S k - 1) with (S page + k - 1) by lia. exact Hlast. }
      split.
      { intros p e' Hp Hrej. destruct (Nat.eq_dec p page) as [->|Hne].
        - rewrite Hpage in Hrej. injection Hrej as <-.
          apply Hmono, in_or_app. simpl. tauto.
        - apply Hlog; [lia | exact Hrej]. }
      intros entry Hin. apply Hmono, in_or_app. now left.
    + (* a page with an item list *)
      unfold bind at 1. rewrite logger_run.
      destruct (Nat.ltb_spec (length items) BATCH_SIZE) as [Hshort|Hfull].
      * unfold bind. rewrite logger_run.
        exists 1. eexists. cbn [seq flat_map]. unfold items_of. rewrite Hpage.
        cbn [page_items]. rewrite app_nil_r.
        split; [reflexivity|]. simpl.
        split; [lia|]. split; [reflexivity|].
        split; [intros; lia|].
        split.
        { right. split; [lia|]. replace (page + 1 - 1) with page by lia.
          rewrite Hpage. simpl. now apply Nat.ltb_lt. }
        split.
        { intros p e [Hp1 Hp2] Hrej. assert (p = page) as -> by lia. congruence. }
        intros entry Hin. apply in_or_app. left.
        apply in_or_app. now left.
      * match goal with
        | |- context [fetch_pages R remaining (S page) (acc ++ items) ?w1] =>
            destruct (IH (S page) (acc ++ items) w1)
              as (k & w' & Hrun & Hk & Hreq & Hmid & Hend & Hlog & Hmono)
        end.
        exists (S k), w'. cbn [seq flat_map]. unfold items_of at 1. rewrite Hpage.
        cbn [page_items]. rewrite app_assoc.
        split; [exact Hrun|]. simpl in Hreq, Hmono.
        split; [lia|]. split; [now rewrite Hreq, <- app_assoc|].
        split.
        { intros p Hp1 Hp2. destruct (Nat.eq_dec p page) as [->|Hne].
          - rewrite Hpage. simpl. now apply Nat.ltb_ge.
          - apply Hmid; lia. }
        split.
        { destruct Hend as [->|[Hpos Hlast]]; [now left | right].
          split; [lia|]. replace (page + S k - 1) with (S page + k - 1) by lia. exact Hlast. }
        split.
        { intros p e' Hp Hrej. destruct (Nat.eq_dec p page) as [->|Hne].
          - congruence.
          - apply Hlog; [lia | exact Hrej]. }
        intros entry Hin. apply Hmono, in_or_app. now left.
    + (* no item list: stop *)
      unfold bind. rewrite logger_run.
      exists 1. eexists. cbn [seq flat_map]. unfold items_of. rewrite Hpage.
      cbn [page_items]. rewrite app_nil_r.
      split; [reflexivity|]. simpl.
      split; [lia|]. split; [reflexivity|].
      split; [intros; lia|].
      split.
      { right. split; [lia|]. replace (page + 1 - 1) with page by lia.
        now rewrite Hpage. }
      split.
      { intros p e [Hp1 Hp2] Hrej. assert (p = page) as -> by lia. congruence. }
      intros entry Hin. apply in_or_app. now left.
Qed.

End Fetcher.

(** C9: the fetcher is the page loop from page 1 with the cap [MAX_PAGES].
    For every cap the loop requests the pages 1..k in order, with
    [k <= cap], and returns the concatenation of their items in page order;
    every page before the last requested one was a full or a rejected page,
    and the loop stopped either at the cap or behind a page with fewer
    items than a full page or with no item list.  A rejected page is
    logged and does not end the fetch.  When the first page has no items,
    the result is empty. *)
Theorem C9_fetcher_pages (R : Remote) (cap : nat) (w : World) :
  getAllEbayListings R = fetch_pages R MAX_PAGES 1 []
  /\ exists k items w',
       fetch_pages R cap 1 [] w = Some (Ok items, w')
       /\ items = flat_map (fun p => page_items (findItemsIneBayStores R p)) (seq 1 k)
       /\ k <= cap
       /\ pagesRequested w' = pagesRequested w ++ seq 1 k
       /\ (forall p, 1 <= p < k -> last_page (findItemsIneBayStores R p) = false)
       /\ (k = cap \/ (1 <= k /\ last_page (findItemsIneBayStores R k) = true))
       /\ (forall p e, 1 <= p <= k ->
             findItemsIneBayStores R p = PageRejected e ->
             In (LogPageError p e) (log w'))
       /\ (1 <= cap ->
           last_page (findItemsIneBayStores R 1) = true ->
           page_items (findItemsIneBayStores R 1) = [] ->
           items = []).
Proof.
  split; [reflexivity|].
  destruct (fetch_pages_spec R cap 1 [] w)
    as (k & w' & Hrun & Hk & Hreq & Hmid & Hend & Hlog & _).
  exists k. eexists. exists w'. split; [exact Hrun|].
  split; [reflexivity|]. split; [exact Hk|]. split; [exact Hreq|].
  split; [intros p Hp; apply Hmid; lia|].
  split.
  { destruct Hend as [->|[Hpos Hlast]]; [now left | right].
    split; [lia|]. now replace (1 + k - 1) with k in Hlast by lia. }
  split; [intros p e Hp; apply Hlog; lia|].
  intros Hcap Hlast Hnone.
  destruct k as [|[|k]]; [reflexivity | |].
  - simpl. rewrite Hnone. reflexivity.
  - rewrite (Hmid 1) in Hlast by lia. discriminate.
Qed.

(* ===================================================================== *)
(** ** The mapper *)
(* ===================================================================== *)

Section Mapper.

Lemma slice0_length (n : nat) (s : string) :
  n <= String.length s -> String.length (Js.slice0 n s) = n.
Proof.
  revert s. induction n as [|n IH]; intros s H; [reflexivity|].
  destruct s as [|c s]; simpl in *; [lia|]. f_equal. apply IH. lia.
Qed.

Lemma slice0_prefix (n : nat) (s : string) :
  exists rest, s = (Js.slice0 n s ++ rest)%string.
Proof.
  revert s. induction n as [|n IH]; intros s.
  - exists s. reflexivity.
  - destruct s as [|c s]; [exists ""; reflexivity|].
    destruct (IH s) as (rest & H). exists rest. simpl. now f_equal.
Qed.

Lemma length_xs (n : nat) : String.length (Sample.xs n) = n.
Proof. induction n; simpl; congruence. Qed.

(** The description of a product that the mapper returns. *)
Lemma convertToWixProduct_description (listing : EnrichedListing) (sku : string)
    (p : Wix.Product) :
  convertToWixProduct listing sku = Ok p ->
  Wix.product_description p
  = match description listing with
    | Some d =>
        if (MAX_DESCRIPTION <? String.length d)%nat
        then Some (Js.slice0 MAX_DESCRIPTION d)
        else Some d
    | None => None
    end.
Proof.
  unfold convertToWixProduct.
  destruct (extractBrand listing); [|discriminate].
  destruct (createMetaDescription listing); [|discriminate].
  intros [= <-]. reflexivity.
Qed.

End Mapper.

(** C6 (as stated, refuted): a quantity that is present and is not a
    number is handed to [parseInt], which yields [NaN], not 1. *)
Lemma C6_unparsable_quantity_is_NaN :
  exists p,
    convertToWixProduct Sample.enriched_bad_quantity "k3x9qf" = Ok p
    /\ Wix.quantity (Wix.inventory p) = Js.NaN
    /\ Wix.quantity (Wix.inventory p) <> Js.Fin 1 0.
Proof.
  eexists. split; [vm_compute; reflexivity|].
  split; [reflexivity | discriminate].
Qed.

(** C6 (amended): for every enriched listing without selling status and
    without details (whatever its title, condition, description and
    images), the mapper does not raise and yields a product with price 0,
    inventory quantity 1 and brand 'Unbranded'. *)
Theorem C6_defaults (listing : EnrichedListing) (sku : string) :
  sellingStatus (summary listing) = None ->
  details listing = None ->
  exists p,
    convertToWixProduct listing sku = Ok p
    /\ Wix.price (Wix.priceData p) = Js.Fin 0 0
    /\ Wix.quantity (Wix.inventory p) = Js.Fin 1 0
    /\ Wix.brand p = "Unbranded".
Proof.
  intros Hs Hd.
  unfold convertToWixProduct, createMetaDescription, extractBrand,
    nameValueList_of, current_price_field, converted_price_field.
  rewrite Hs, Hd. eexists. split; [reflexivity|].
  repeat split.
Qed.

Lemma C6_defaults_witness :
  exists p,
    convertToWixProduct Sample.enriched_bare "k3x9qf" = Ok p
    /\ Wix.price (Wix.priceData p) = Js.Fin 0 0
    /\ Wix.quantity (Wix.inventory p) = Js.Fin 1 0
    /\ Wix.brand p = "Unbranded".
Proof.
  apply (C6_defaults Sample.enriched_bare "k3x9qf"); reflexivity.
Defined.

(** C8: when the mapper returns a product for a listing whose description
    is longer than [MAX_DESCRIPTION] characters, the product's description
    is the prefix of that description of exactly [MAX_DESCRIPTION]
    characters, with nothing appended; a description of at most
    [MAX_DESCRIPTION] characters is passed on as it is. *)
Theorem C8_description_truncated (listing : EnrichedListing) (sku : string)
    (p : Wix.Product) (d : string) :
  convertToWixProduct listing sku = Ok p ->
  description listing = Some d ->
  (MAX_DESCRIPTION < String.length d ->
   Wix.product_description p = Some (Js.slice0 MAX_DESCRIPTION d)
   /\ String.length (Js.slice0 MAX_DESCRIPTION d) = MAX_DESCRIPTION
   /\ exists rest, d = (Js.slice0 MAX_DESCRIPTION d ++ rest)%string)
  /\ (String.length d <= MAX_DESCRIPTION -> Wix.product_description p = Some d).
Proof.
  intros Hp Hd. rewrite (convertToWixProduct_description _ _ _ Hp), Hd.
  destruct (Nat.ltb_spec MAX_DESCRIPTION (String.length d)) as [Hlong|Hshort].
  - split; [intros _ | lia].
    split; [reflexivity|]. split; [apply slice0_length; lia | apply slice0_prefix].
  - split; [lia | reflexivity].
Qed.

Lemma C8_description_truncated_witness :
  Wix.product_description Sample.product_long
  = Some (Js.slice0 MAX_DESCRIPTION (Sample.xs (S MAX_DESCRIPTION)))
  /\ String.length (Js.slice0 MAX_DESCRIPTION (Sample.xs (S MAX_DESCRIPTION)))
     = MAX_DESCRIPTION.
Proof.
  destruct (C8_description_truncated Sample.enriched_long "k3x9qf"
              Sample.product_long (Sample.xs (S MAX_DESCRIPTION)))
    as [H _].
  - vm_compute. reflexivity.
  - reflexivity.
  - destruct H as (H1 & H2 & _).
    + rewrite length_xs. apply Nat.lt_succ_diag_r.
    + split; [exact H1 | exact H2].
Defined.

(* ===================================================================== *)
(** ** Further properties of the extractors and of the detail call *)
(* ===================================================================== *)

(** X1: [extractAllImages] returns the upgraded detail URLs, each once, in the
    order of their first occurrence: top-level pictures, top-level gallery
    URL, the gallery URL and the pictures of the picture details, then the
    pictures of the variations.  An absent or empty entry can only come
    from the gallery URL of the picture details, the one place where the
    URL is not tested before it is added. *)
Theorem extractAllImages_first_occurrence (item : Item) :
  extractAllImages item = fresh [] (map convertToHighRes_val (detail_urls item))
  /\ NoDup (extractAllImages item)
  /\ (forall k, In k (extractAllImages item) <->
                exists raw, In raw (detail_urls item) /\ k = convertToHighRes_val raw)
  /\ (forall k, In k (extractAllImages item) -> Js.truthy k = false ->
        exists pd g,
          PictureDetails item = Some pd
          /\ pd_GalleryURL pd = Some g
          /\ Js.truthy (nth 0 g None) = false).
Proof.
  assert (E : extractAllImages item
              = fresh [] (map convertToHighRes_val (detail_urls item))).
  { rewrite extractAllImages_eq.
    change (set_of (map convertToHighRes_val (detail_urls item)))
      with (add_all (map convertToHighRes_val (detail_urls item)) []).
    now rewrite add_all_fresh. }
  split; [exact E|]. split; [rewrite E; apply fresh_NoDup|].
  assert (Hin : forall k, In k (extractAllImages item) <->
                  exists raw, In raw (detail_urls item) /\ k = convertToHighRes_val raw).
  { intros k. rewrite extractAllImages_eq, set_of_In, in_map_iff.
    split; intros (raw & H1 & H2); exists raw; auto. }
  split; [exact Hin|].
  intros k Hk Hfalse. apply Hin in Hk as (raw & Hraw & ->).
  rewrite truthy_convertToHighRes in Hfalse.
  unfold detail_urls in Hraw.
  repeat (apply in_app_or in Hraw as [Hraw|Hraw]).
  - apply filter_In in Hraw as [_ H]. congruence.
  - destruct (GalleryURL item); [|contradiction].
    apply filter_In in Hraw as [_ H]. congruence.
  - destruct (PictureDetails item) as [pd|]; [|contradiction].
    apply in_app_or in Hraw as [Hraw|Hraw].
    + destruct (pd_GalleryURL pd) as [g|] eqn:Hg; [|contradiction].
      destruct Hraw as [<-|[]]. exists pd, g. auto.
    + apply filter_In in Hraw as [_ H]. congruence.
  - destruct (Variations item) as [v|]; [|contradiction].
    destruct (Pictures v) as [pics|]; [|contradiction].
    apply in_flat_map in Hraw as (p & _ & Hraw).
    apply filter_In in Hraw as [_ H]. congruence.
Qed.

(** X2: The summary images (the whole image list of a fallback record) hold
    no duplicate and no absent or empty entry; they are the upgraded forms
    of the non-empty summary URLs, and the upgraded gallery URL comes
    first when there is one. *)
Theorem extractBasicImages_invariants (listing : Listing) :
  NoDup (extractBasicImages listing)
  /\ (forall x, In x (extractBasicImages listing) ->
        Js.truthy x = true
        /\ exists raw, In raw (summary_urls listing) /\ Js.truthy raw = true
                       /\ x = convertToHighRes_val raw)
  /\ (forall raw, In raw (summary_urls listing) -> Js.truthy raw = true ->
        In (convertToHighRes_val raw) (extractBasicImages listing))
  /\ (Js.truthy (galleryURL listing) = true ->
      hd_error (extractBasicImages listing)
      = Some (convertToHighRes_val (galleryURL listing))).
Proof.
  split; [apply extractBasicImages_NoDup|].
  split; [|split].
  - intros x Hx. split; [now apply (extractBasicImages_truthy listing)|].
    rewrite extractBasicImages_eq, set_of_In, in_map_iff in Hx.
    destruct Hx as (raw & <- & Hraw). apply filter_In in Hraw as [H1 H2].
    exists raw. auto.
  - intros raw Hraw Ht.
    rewrite extractBasicImages_eq, set_of_In, in_map_iff.
    exists raw. split; [reflexivity|]. apply filter_In. auto.
  - intros Hg. unfold extractBasicImages. rewrite Hg, add_urls_eq, add_all_fresh.
    reflexivity.
Qed.

Lemma extractBasicImages_invariants_witness :
  hd_error (extractBasicImages Sample.listing_three)
  = Some (Some "https://i.ebayimg.com/images/g/v/s-l1600.jpg").
Proof.
  destruct (extractBasicImages_invariants Sample.listing_three) as (_ & _ & _ & H).
  rewrite H; reflexivity.
Defined.


Section DetailCallMore.

Variable R : Remote.

(** The [catch] block on an error without invalid-token text and without
    an object body: one log line, then [{ images: [] }]. *)
Lemma catch_plain (fuel : nat) (id : string) (w w1 : World) (e : JsError) :
  getShoppingApiDetails_try R id w = Some (Throw e, w1) ->
  token_signal e = false ->
  response_data e <> ObjData ->
  getShoppingApiDetails R (S fuel) id w
  = Some (Ok no_details, logged (LogShoppingApiError e) w1).
Proof.
  intros Htry Hsig Hobj. rewrite getShoppingApiDetails_S. unfold try_catch.
  rewrite Htry. unfold bind. rewrite logger_run.
  unfold token_signal in Hsig.
  destruct (response_data e) as [|body|]; [reflexivity | | contradiction].
  now rewrite Hsig.
Qed.

End DetailCallMore.

(** X3: With a token at hand, the detail call never raises on an answer that
    could be parsed: it resolves to the first item of the answer with its
    description and images, and to [{ images: [] }] when the answer has no
    item, an empty item list or [Ack = 'Failure'].  It sends exactly one
    request, and unless the answer is a failure it leaves the token alone. *)
Theorem detail_call_on_parsed_answer
    (R : Remote) (fuel : nat) (id : string) (w : World)
    (result : option GetSingleItemResponse) :
  Js.truthy (applicationToken w) = true ->
  axios_post R (detailCalls w) (applicationToken w) id = Parsed result ->
  exists w',
    getShoppingApiDetails R (S fuel) id w = Some (Ok (details_of result), w')
    /\ detailCalls w' = S (detailCalls w)
    /\ (match result with
        | Some response => is_string (Ack response) "Failure" = false
        | None => True
        end ->
        tokenCalls w' = tokenCalls w /\ applicationToken w' = applicationToken w).
Proof.
  intros Htok Hax.
  destruct result as [response|].
  - destruct (is_string (Ack response) "Failure") eqn:Hack.
    + destruct (detail_call_ack_failure R fuel id w response Htok Hax Hack)
        as (w' & Hrun & Hd & _).
      exists w'. unfold details_of. rewrite Hack.
      repeat split; auto; discriminate.
    + assert (Htry : exists res,
                getShoppingApiDetails_try R id w = Some (res, requested w)
                /\ (res = Ok (details_of (Some response))
                    \/ (res = Throw (TypeError "Cannot read properties of undefined")
                        /\ details_of (Some response) = no_details))).
      { unfold getShoppingApiDetails_try. unfold bind at 1. rewrite Htok.
        unfold ret at 1. unfold bind at 1, post_GetSingleItem. rewrite Hax, Hack.
        fold (requested w). unfold details_of. rewrite Hack.
        destruct (Item_ response) as [[|item rest]|]; eexists; split;
          try reflexivity; auto. }
      destruct Htry as (res & Htry & [->|[-> Hnone]]).
      * exists (requested w). rewrite getShoppingApiDetails_S. unfold try_catch.
        rewrite Htry. repeat split.
      * eexists. rewrite (catch_plain R fuel id w _ _ Htry); [|reflexivity|discriminate].
        rewrite Hnone. repeat split.
  - exists (requested w). rewrite getShoppingApiDetails_S.
    unfold try_catch, getShoppingApiDetails_try.
    unfold bind at 1. rewrite Htok. unfold ret at 1.
    unfold bind at 1, post_GetSingleItem. rewrite Hax.
    repeat split.
Qed.

Lemma detail_call_on_parsed_answer_witness :
  exists w',
    getShoppingApiDetails Sample.R_one_picture 1 "110" Sample.w_token
    = Some (Ok (mkAdditionalDetails None
                  [Some "https://i.ebayimg.com/images/g/abc/s-l1600.jpg"]
                  (Some (mkItem None
                     (UrlArray [Some "https://i.ebayimg.com/images/g/abc/s-l1600.jpg"])
                     None None None None None None))), w')
    /\ detailCalls w' = 1.
Proof.
  destruct (detail_call_on_parsed_answer Sample.R_one_picture 0 "110" Sample.w_token _
              eq_refl eq_refl) as (w' & Hrun & Hd & _).
  exists w'. split; [exact Hrun | exact Hd].
Defined.

(** X4: A transport or parse failure whose body has no invalid-token text (and
    is not an object) costs one request and one log line: the detail call
    resolves to [{ images: [] }], without a refresh and without a retry. *)
Theorem detail_call_on_plain_failure
    (R : Remote) (fuel : nat) (id : string) (w : World) (e : JsError) :
  Js.truthy (applicationToken w) = true ->
  axios_post R (detailCalls w) (applicationToken w) id = AxiosRejected e
  \/ axios_post R (detailCalls w) (applicationToken w) id = XmlRejected e ->
  token_signal e = false ->
  response_data e <> ObjData ->
  getShoppingApiDetails R (S fuel) id w
  = Some (Ok no_details, logged (LogShoppingApiError e) (requested w)).
Proof.
  intros Htok Hax Hsig Hobj.
  apply catch_plain; [|exact Hsig|exact Hobj].
  unfold getShoppingApiDetails_try. unfold bind at 1. rewrite Htok.
  unfold ret at 1. unfold bind at 1, post_GetSingleItem.
  destruct Hax as [-> | ->]; reflexivity.
Qed.

Lemma detail_call_on_plain_failure_witness :
  getShoppingApiDetails
    (mkRemote (fun _ => TokenGranted (Some "v^1.1#i^1#fresh"))
              (fun _ _ _ => AxiosRejected (mkError "socket hang up" NoData))
              (fun _ => PageResult None))
    1 "110" Sample.w_token
  = Some (Ok no_details,
          logged (LogShoppingApiError (mkError "socket hang up" NoData))
                 (requested Sample.w_token)).
Proof.
  apply detail_call_on_plain_failure.
  - reflexivity.
  - left. reflexivity.
  - reflexivity.
  - discriminate.
Defined.

(** X5: Without a token the detail call refreshes first.  When that refresh is
    rejected (without invalid-token text), no request is sent at all and
    the call still resolves to [{ images: [] }]. *)
Theorem detail_call_without_token_refresh_rejected
    (R : Remote) (fuel : nat) (id : string) (w : World) (e : JsError) :
  Js.truthy (applicationToken w) = false ->
  getApplicationToken R (tokenCalls w) = TokenRejected e ->
  token_signal e = false ->
  response_data e <> ObjData ->
  exists w',
    getShoppingApiDetails R (S fuel) id w = Some (Ok no_details, w')
    /\ detailCalls w' = detailCalls w
    /\ tokenCalls w' = S (tokenCalls w)
    /\ applicationToken w' = applicationToken w.
Proof.
  intros Htok Hrej Hsig Hobj.
  eexists. split.
  - apply catch_plain; [|exact Hsig|exact Hobj].
    unfold getShoppingApiDetails_try. unfold bind at 1. rewrite Htok.
    unfold refreshApplicationToken. rewrite Hrej. reflexivity.
  - repeat split.
Qed.

Lemma detail_call_without_token_refresh_rejected_witness :
  exists w',
    getShoppingApiDetails
      (mkRemote (fun _ => TokenRejected (mkError "invalid_client" NoData))
                (fun _ _ _ => Parsed None)
                (fun _ => PageResult None))
      1 "110" (mkWorld None 0 0 [] [])
    = Some (Ok no_details, w')
    /\ detailCalls w' = 0.
Proof.
  destruct (detail_call_without_token_refresh_rejected
              (mkRemote (fun _ => TokenRejected (mkError "invalid_client" NoData))
                        (fun _ _ _ => Parsed None)
                        (fun _ => PageResult None))
              0 "110" (mkWorld None 0 0 [] []) (mkError "invalid_client" NoData))
    as (w' & Hrun & Hd & _).
  - reflexivity.
  - reflexivity.
  - reflexivity.
  - discriminate.
  - exists w'. split; [exact Hrun | exact Hd].
Defined.

(** X6: Without a token the detail call refreshes first, and the request that
    follows carries the token just granted. *)
Theorem detail_call_without_token_uses_fresh_token
    (R : Remote) (fuel : nat) (id : string) (w : World) (token : option string)
    (result : option GetSingleItemResponse) :
  Js.truthy (applicationToken w) = false ->
  getApplicationToken R (tokenCalls w) = TokenGranted token ->
  axios_post R (detailCalls w) token id = Parsed result ->
  match result with
  | Some response => is_string (Ack response) "Failure" = false
  | None => True
  end ->
  exists w',
    getShoppingApiDetails R (S fuel) id w = Some (Ok (details_of result), w')
    /\ applicationToken w' = token
    /\ tokenCalls w' = S (tokenCalls w)
    /\ detailCalls w' = S (detailCalls w).
Proof.
  intros Htok Hgrant Hax Hack.
  set (w0 := mkWorld token (S (tokenCalls w)) (detailCalls w) (pagesRequested w)
                     (log w ++ [LogTokenRefreshed])).
  assert (Htry : exists res,
            getShoppingApiDetails_try R id w = Some (res, requested w0)
            /\ (res = Ok (details_of result)
                \/ (res = Throw (TypeError "Cannot read properties of undefined")
                    /\ details_of result = no_details))).
  { unfold getShoppingApiDetails_try. unfold bind at 1. rewrite Htok.
    unfold refreshApplicationToken. rewrite Hgrant. fold w0.
    unfold bind at 1, post_GetSingleItem.
    change (detailCalls w0) with (detailCalls w).
    change (applicationToken w0) with token. rewrite Hax.
    fold (requested w0). unfold details_of.
    destruct result as [response|]; [|eexists; split; [reflexivity | auto]].
    rewrite Hack.
    destruct (Item_ response) as [[|item rest]|]; eexists; split;
      try reflexivity; auto. }
  destruct Htry as (res & Htry & [->|[-> Hnone]]).
  - exists (requested w0). rewrite getShoppingApiDetails_S. unfold try_catch.
    rewrite Htry. repeat split.
  - eexists. rewrite (catch_plain R fuel id w _ _ Htry); [|reflexivity|discriminate].
    rewrite Hnone. repeat split.
Qed.

Lemma detail_call_without_token_uses_fresh_token_witness :
  exists w',
    getShoppingApiDetails Sample.R_no_item 1 "110" (mkWorld None 0 0 [] [])
    = Some (Ok no_details, w')
    /\ applicationToken w' = Some "v^1.1#i^1#fresh".
Proof.
  destruct (detail_call_without_token_uses_fresh_token Sample.R_no_item 0 "110"
              (mkWorld None 0 0 [] []) (Some "v^1.1#i^1#fresh") None)
    as (w' & Hrun & Ht & _).
  - reflexivity.
  - reflexivity.
  - reflexivity.
  - exact I.
  - exists w'. split; [exact Hrun | exact Ht].
Defined.

(** X7: The detail call raises to its caller in two cases only: a caught error
    carried an object as response body (then [includes] is not a function),
    or the token endpoint rejected the refresh made in the [catch] block;
    every other error ends in [{ images: [] }]. *)
Theorem detail_call_raises_only
    (R : Remote) (fuel : nat) (id : string) (w w' : World) (e : JsError) :
  getShoppingApiDetails R fuel id w = Some (Throw e, w') ->
  e = TypeError "includes is not a function"
  \/ exists n, getApplicationToken R n = TokenRejected e.
Proof.
  revert w. induction fuel as [|fuel IH]; intros w; [discriminate|].
  rewrite getShoppingApiDetails_S. unfold try_catch.
  destruct (try_run R id w) as (res & w1 & -> & _).
  destruct res as [ad|e1]; [discriminate|].
  unfold bind at 1. rewrite logger_run.
  destruct (response_data e1) as [|body|].
  - discriminate.
  - destruct (invalid_token_body body); [|discriminate].
    unfold bind.
    destruct (refresh_run R (logged (LogShoppingApiError e1) w1))
      as ([[]|e2] & w2 & -> & _ & _ & _ & Hrej & _).
    + apply IH.
    + intros [= <- <-]. right. eexists. apply Hrej. reflexivity.
  - intros [= <- <-]. now left.
Qed.

Lemma detail_call_raises_only_witness :
  exists e w',
    getShoppingApiDetails Sample.R_object_body 1 "110" Sample.w_token
    = Some (Throw e, w')
    /\ (e = TypeError "includes is not a function"
        \/ exists n, getApplicationToken Sample.R_object_body n = TokenRejected e).
Proof.
  eassert (Hrun : getShoppingApiDetails Sample.R_object_body 1 "110" Sample.w_token
                  = Some (Throw _, _)) by (vm_compute; reflexivity).
  do 2 eexists. split; [exact Hrun|].
  exact (detail_call_raises_only Sample.R_object_body 1 "110" Sample.w_token _ _ Hrun).
Defined.

(* ===================================================================== *)
(** ** Further properties of the mapper *)
(* ===================================================================== *)

Section MapperMore.

Lemma or_lit_nonempty (a : option string) (lit : string) :
  lit <> "" -> Js.or_lit a lit <> "".
Proof.
  intros H. unfold Js.or_lit. destruct a as [s|]; [|exact H].
  destruct (String.eqb_spec s ""); assumption.
Qed.

Lemma slice0_length_le (n : nat) (s : string) :
  String.length (Js.slice0 n s) <= n.
Proof.
  revert s. induction n as [|n IH]; intros s; simpl; [lia|].
  destruct s as [|c s]; simpl; [lia|]. specialize (IH s). lia.
Qed.

Lemma extractBrand_mappable (listing : EnrichedListing) :
  match extractBrand listing with
  | Ok _ => mappable listing = true
  | Throw e => mappable listing = false /\ e = TypeError "find is not a function"
  end.
Proof.
  unfold extractBrand, mappable.
  destruct (nameValueList_of listing) as [|l|]; auto.
  destruct (find _ l); reflexivity.
Qed.

Lemma convertToWixProduct_mappable (listing : EnrichedListing) (sku : string) :
  match convertToWixProduct listing sku with
  | Ok p => mappable listing = true /\ Wix.sku p = sku
  | Throw e => mappable listing = false /\ e = TypeError "find is not a function"
  end.
Proof.
  unfold convertToWixProduct, createMetaDescription.
  pose proof (extractBrand_mappable listing) as H.
  destruct (extractBrand listing) as [b|e]; [|exact H].
  split; [exact H | reflexivity].
Qed.

Lemma convertToWixProduct_name (listing : EnrichedListing) (sku : string)
    (p : Wix.Product) :
  convertToWixProduct listing sku = Ok p ->
  Wix.name p = title (summary listing).
Proof.
  unfold convertToWixProduct, createMetaDescription.
  destruct (extractBrand listing) as [b|e]; [|discriminate].
  intros [= <-]. reflexivity.
Qed.

(** The fields of a product that the mapper returns. *)
Lemma convertToWixProduct_fields (listing : EnrichedListing) (sku : string)
    (p : Wix.Product) :
  convertToWixProduct listing sku = Ok p ->
  exists b,
    extractBrand listing = Ok b
    /\ Wix.brand p = match b with "" => "Unbranded" | _ => b end
    /\ Wix.currency (Wix.priceData p)
       = Js.or_lit (current_price_field listing currencyId) "USD"
    /\ Wix.price (Wix.priceData p)
       = Js.parseFloat
           (Js.or_lit
              (Js.or_else (current_price_field listing value)
                          (converted_price_field listing value))
              "0")
    /\ Wix.seoData p
       = [Wix.TitleTag (Js.or_lit (title (summary listing)) "");
          Wix.MetaTag "description"
            (Js.slice0 160
               (Js.trim (condition_label listing ++ " " ++ b ++ " "
                         ++ Js.or_lit (title (summary listing)) "")%string))]
    /\ map Wix.title (Wix.additionalInfoSections p)
       = ["Product Details"; "Return Policy"].
Proof.
  unfold convertToWixProduct, createMetaDescription.
  destruct (extractBrand listing) as [b|e]; [|discriminate].
  intros [= <-]. exists b. repeat split.
Qed.

End MapperMore.

(** X8: The mapper raises exactly when the name/value list of the item
    specifics is present and is not an array (then [find] is not a
    function); in every other case, whatever else is missing, it returns a
    product. *)
Theorem convertToWixProduct_raises_iff (listing : EnrichedListing) (sku : string) :
  match convertToWixProduct listing sku with
  | Ok p => mappable listing = true /\ Wix.sku p = sku
  | Throw e => mappable listing = false /\ e = TypeError "find is not a function"
  end.
Proof. apply convertToWixProduct_mappable. Qed.

(** X9: Every product the mapper returns has a non-empty brand and a non-empty
    currency, a meta description of at most 160 characters, a description
    of at most [MAX_DESCRIPTION] characters, and exactly the two sections
    'Product Details' and 'Return Policy'. *)
Theorem convertToWixProduct_invariants (listing : EnrichedListing) (sku : string)
    (p : Wix.Product) :
  convertToWixProduct listing sku = Ok p ->
  Wix.brand p <> ""
  /\ Wix.currency (Wix.priceData p) <> ""
  /\ (exists t m,
        Wix.seoData p = [Wix.TitleTag t; Wix.MetaTag "description" m]
        /\ String.length m <= 160)
  /\ (forall d, Wix.product_description p = Some d ->
                String.length d <= MAX_DESCRIPTION)
  /\ map Wix.title (Wix.additionalInfoSections p) = ["Product Details"; "Return Policy"].
Proof.
  intros Hp. pose proof (convertToWixProduct_description _ _ _ Hp) as Hd.
  destruct (convertToWixProduct_fields _ _ _ Hp) as (b & _ & Hb & Hc & _ & Hseo & Hsec).
  split; [rewrite Hb; destruct b; discriminate|].
  split; [rewrite Hc; apply or_lit_nonempty; discriminate|].
  split; [do 2 eexists; split; [exact Hseo | apply slice0_length_le]|].
  split; [|exact Hsec].
  intros d. rewrite Hd. destruct (description listing) as [d0|]; [|discriminate].
  destruct (Nat.ltb_spec MAX_DESCRIPTION (String.length d0)); intros Heq.
  - replace d with (Js.slice0 MAX_DESCRIPTION d0) by congruence.
    apply slice0_length_le.
  - now replace d with d0 by congruence.
Qed.

Lemma convertToWixProduct_invariants_witness :
  Wix.brand Sample.product_long <> ""
  /\ Wix.currency (Wix.priceData Sample.product_long) <> "".
Proof.
  destruct (convertToWixProduct_invariants Sample.enriched_long "k3x9qf"
              Sample.product_long) as (H1 & H2 & _).
  - vm_compute. reflexivity.
  - split; [exact H1 | exact H2].
Defined.

(** X10: The brand of the product is the first value of the first item specific
    whose first name is 'Brand'; when that entry has no value or an empty
    one the brand is 'Unbranded', even if a later 'Brand' entry has a
    value. *)
Theorem convertToWixProduct_brand (listing : EnrichedListing) (sku : string)
    (p : Wix.Product) (before after : list NameValue) (spec : NameValue) :
  convertToWixProduct listing sku = Ok p ->
  nameValueList_of listing = NvlArray (before ++ spec :: after) ->
  (forall s, In s before -> idx0 (Name s) <> Some "Brand") ->
  idx0 (Name spec) = Some "Brand" ->
  Wix.brand p = Js.or_lit (idx0 (Value spec)) "Unbranded".
Proof.
  intros Hp Hnvl Hbefore Hspec.
  destruct (convertToWixProduct_fields _ _ _ Hp) as (b & Hb & -> & _).
  revert Hb. unfold extractBrand. rewrite Hnvl.
  assert (Hfind : find (fun s => match idx0 (Name s) with
                                 | Some n => n =? "Brand"
                                 | None => false
                                 end) (before ++ spec :: after) = Some spec).
  { clear Hnvl. induction before as [|s before IH]; simpl.
    - now rewrite Hspec.
    - destruct (idx0 (Name s)) as [n|] eqn:Hn.
      + destruct (String.eqb_spec n "Brand") as [->|_].
        * exfalso. apply (Hbefore s); [now left | exact Hn].
        * apply IH. intros s' Hs'. apply Hbefore. now right.
      + apply IH. intros s' Hs'. apply Hbefore. now right. }
  rewrite Hfind. intros [= <-].
  unfold Js.or_lit. destruct (idx0 (Value spec)) as [v|]; [|reflexivity].
  destruct (String.eqb_spec v "") as [->|Hv]; [reflexivity|].
  destruct v; [contradiction | reflexivity].
Qed.

Lemma convertToWixProduct_brand_witness :
  exists p,
    convertToWixProduct SampleRun.enriched_branded "k3x9qf" = Ok p
    /\ Wix.brand p = "Acme".
Proof.
  eassert (Hp : convertToWixProduct SampleRun.enriched_branded "k3x9qf" = Ok _)
    by (vm_compute; reflexivity).
  eexists. split; [exact Hp|].
  rewrite (convertToWixProduct_brand _ _ _
             [mkNameValue (Some ["Color"]) (Some ["Red"])]
             [mkNameValue (Some ["Brand"]) (Some ["Other"])]
             (mkNameValue (Some ["Brand"]) (Some ["Acme"; "Ajax"])) Hp).
  - reflexivity.
  - reflexivity.
  - intros s [<-|[]]. discriminate.
  - reflexivity.
Defined.

(** X11: The price is read from the current price when that has a non-empty
    value, else from the converted current price, else it is 0; the
    currency is that of the current price, or 'USD' when it is absent or
    empty (also when the converted price supplied the value). *)
Theorem convertToWixProduct_price (listing : EnrichedListing) (sku : string)
    (p : Wix.Product) :
  convertToWixProduct listing sku = Ok p ->
  let current := current_price_field listing value in
  let converted := converted_price_field listing value in
  Wix.price (Wix.priceData p)
  = (if Js.truthy current then Js.parseFloat (Js.or_lit current "0")
     else if Js.truthy converted then Js.parseFloat (Js.or_lit converted "0")
     else Js.Fin 0 0)
  /\ Wix.currency (Wix.priceData p)
     = (if Js.truthy (current_price_field listing currencyId)
        then Js.or_lit (current_price_field listing currencyId) "USD"
        else "USD").
Proof.
  intros Hp. destruct (convertToWixProduct_fields _ _ _ Hp) as (b & _ & _ & Hc & Hv & _).
  cbv zeta. rewrite Hc, Hv. split.
  - unfold Js.or_else.
    destruct (Js.truthy (current_price_field listing value)) eqn:H1; [reflexivity|].
    destruct (Js.truthy (converted_price_field listing value)) eqn:H2; [reflexivity|].
    unfold Js.truthy in H2. unfold Js.or_lit.
    destruct (converted_price_field listing value) as [s|]; [|reflexivity].
    destruct (s =? ""); [reflexivity | discriminate].
  - unfold Js.truthy, Js.or_lit.
    destruct (current_price_field listing currencyId) as [s|]; [|reflexivity].
    destruct (s =? ""); reflexivity.
Qed.

Lemma convertToWixProduct_price_witness :
  exists p,
    convertToWixProduct SampleRun.enriched_converted_price "k3x9qf" = Ok p
    /\ Wix.price (Wix.priceData p) = Js.Fin 1250 (-2)
    /\ Wix.currency (Wix.priceData p) = "EUR".
Proof.
  eassert (Hp : convertToWixProduct SampleRun.enriched_converted_price "k3x9qf" = Ok _)
    by (vm_compute; reflexivity).
  eexists. split; [exact Hp|].
  destruct (convertToWixProduct_price _ _ _ Hp) as [H1 H2].
  rewrite H1, H2. split; reflexivity.
Defined.

(* ===================================================================== *)
(** ** Further properties of the fetcher and of the enricher *)
(* ===================================================================== *)

Lemma getAllEbayListings_run (R : Remote) (w : World) :
  exists w',
    getAllEbayListings R w
    = Some (Ok (page_items (findItemsIneBayStores R 1)), w')
    /\ pagesRequested w' = pagesRequested w ++ [1]
    /\ applicationToken w' = applicationToken w
    /\ tokenCalls w' = tokenCalls w
    /\ detailCalls w' = detailCalls w.
Proof.
  unfold getAllEbayListings, MAX_PAGES. cbn [fetch_pages].
  unfold bind at 1, request_page.
  destruct (findItemsIneBayStores R 1) as [e|[items|]]; cbn [page_items].
  - eexists. split; [reflexivity|]. repeat split.
  - unfold bind at 1. rewrite logger_run.
    destruct (length items <? BATCH_SIZE)%nat;
      eexists; (split; [reflexivity|]); repeat split.
  - eexists. split; [reflexivity|]. repeat split.
Qed.

(** X12: With [MAX_PAGES = 1] the fetcher asks for page 1 and for nothing else:
    it returns the items of that page, however many they are, and the
    empty list when the page is rejected or has no item list; a rejected
    page is not asked for again.  It never raises and leaves the token and
    the counters of the other remotes alone. *)
Theorem getAllEbayListings_first_page_only (R : Remote) (w : World) :
  exists w',
    getAllEbayListings R w
    = Some (Ok (page_items (findItemsIneBayStores R 1)), w')
    /\ pagesRequested w' = pagesRequested w ++ [1]
    /\ applicationToken w' = applicationToken w
    /\ tokenCalls w' = tokenCalls w
    /\ detailCalls w' = detailCalls w.
Proof. apply getAllEbayListings_run. Qed.

Section EnricherMore.

Variable R : Remote.
Variable fuel : nat.

Lemma step_records (listing : Listing) (acc out : list EnrichedListing) (w w' : World) :
  getDetailedListings_step R fuel listing acc w = Some (Ok out, w') ->
  Forall well_formed_record acc -> Forall well_formed_record out.
Proof.
  intros Hstep Hacc.
  assert (Hf : has_itemId listing = true -> well_formed_record (fallback listing)).
  { intros Hid. repeat split; auto.
    intros x Hx. apply (images_truthy listing no_details). now right. }
  assert (He : forall ad, has_itemId listing = true ->
                          well_formed_record (enriched listing ad)).
  { intros ad Hid. repeat split; eauto.
    intros x Hx. apply (images_truthy listing ad). now left. }
  destruct (has_itemId listing) eqn:Hid.
  - destruct (proj1 (has_itemId_true listing) Hid) as (id & Hsome & Hne).
    destruct (getShoppingApiDetails R fuel id (logged (LogProcessing listing) w))
      as [[[ad|e] w1]|] eqn:Hcall.
    + rewrite (step_success R fuel _ _ acc _ _ _ Hsome Hne Hcall) in Hstep.
      injection Hstep as <- _. apply Forall_app. split; [exact Hacc|].
      constructor; [now apply He | constructor].
    + rewrite (step_fallback R fuel _ _ acc _ _ _ Hsome Hne Hcall) in Hstep.
      injection Hstep as <- _. apply Forall_app. split; [exact Hacc|].
      constructor; [now apply Hf | constructor].
    + exfalso. revert Hstep. unfold getDetailedListings_step, try_catch.
      unfold bind at 1. rewrite logger_run, Hsome.
      destruct (String.eqb_spec id ""); [contradiction|].
      unfold bind at 1. rewrite Hcall. discriminate.
  - rewrite (step_skip R fuel _ acc w Hid) in Hstep.
    injection Hstep as <- _. exact Hacc.
Qed.

Lemma loop_records (listings : list Listing) :
  forall (acc out : list EnrichedListing) (w w' : World),
    getDetailedListings_loop R fuel listings acc w = Some (Ok out, w') ->
    Forall well_formed_record acc -> Forall well_formed_record out.
Proof.
  induction listings as [|listing rest IH]; intros acc out w w' Hrun Hacc.
  - injection Hrun as <- _. exact Hacc.
  - cbn [getDetailedListings_loop] in Hrun. unfold bind in Hrun.
    destruct (getDetailedListings_step R fuel listing acc w)
      as [[[acc1|e] w1]|] eqn:Hstep; try discriminate.
    apply (IH _ _ _ _ Hrun). apply (step_records _ _ _ _ _ Hstep Hacc).
Qed.

(** The loop with the call counters in view: it settles, yields one record
    for each listing with an item identifier, and does not move the
    counters away from the bound. *)
Lemma loop_settles_budget (bound : nat) :
  quiet_from R bound ->
  forall (listings : list Listing) (acc : list EnrichedListing) (w : World),
    budget bound w < fuel ->
    exists out w',
      getDetailedListings_loop R fuel listings acc w = Some (Ok out, w')
      /\ map originalListing out
         = map originalListing acc ++ filter has_itemId listings
      /\ budget bound w' <= budget bound w.
Proof.
  intros Hq. induction listings as [|listing rest IH]; intros acc w Hb.
  - exists acc, w. split; [reflexivity|]. simpl. rewrite app_nil_r. auto.
  - cbn [getDetailedListings_loop filter]. unfold bind.
    destruct (has_itemId listing) eqn:Hid.
    + apply has_itemId_true in Hid as (id & Hid & Hne).
      destruct (detail_call_settles R bound Hq fuel id (logged (LogProcessing listing) w))
        as (res & w1 & Hcall & Hb1); [exact Hb|].
      change (budget bound (logged (LogProcessing listing) w)) with (budget bound w) in Hb1.
      destruct res as [ad|e].
      * rewrite (step_success _ _ _ _ _ _ _ _ Hid Hne Hcall).
        destruct (IH (acc ++ [enriched listing ad]) w1) as (out & w' & -> & Hm & Hb'); [lia|].
        exists out, w'. split; [reflexivity|]. split; [|lia].
        rewrite Hm, map_app, <- app_assoc. reflexivity.
      * rewrite (step_fallback _ _ _ _ _ _ _ _ Hid Hne Hcall).
        destruct (IH (acc ++ [fallback listing]) (logged (LogListingError e) w1))
          as (out & w' & -> & Hm & Hb').
        { change (budget bound (logged (LogListingError e) w1)) with (budget bound w1). lia. }
        exists out, w'. split; [reflexivity|].
        change (budget bound (logged (LogListingError e) w1)) with (budget bound w1) in Hb'.
        split; [|lia].
        rewrite Hm, map_app, <- app_assoc. reflexivity.
    + rewrite (step_skip _ _ _ _ _ Hid).
      destruct (IH acc (logged (LogMissingItemId listing) (logged (LogProcessing listing) w)))
        as (out & w' & -> & Hm & Hb'); [exact Hb|].
      exists out, w'. split; [reflexivity|]. split; [exact Hm | exact Hb'].
Qed.

End EnricherMore.

(** X13: Every record the enricher returns is well formed: it repeats the
    summary it was made from as its back reference, that summary has an
    item identifier, no entry of its image list is absent or empty, and it
    is either the partial record of the fallback path or the record of the
    success path for some answer of the detail call. *)
Theorem getDetailedListings_records
    (R : Remote) (fuel : nat) (listings : list Listing)
    (out : list EnrichedListing) (w w' : World) :
  getDetailedListings R fuel listings w = Some (Ok out, w') ->
  Forall well_formed_record out.
Proof.
  intros Hrun. apply (loop_records R fuel listings [] out w w' Hrun). constructor.
Qed.

Lemma getDetailedListings_records_witness :
  exists out w',
    getDetailedListings Sample.R_object_body 1
      [Sample.listing_thumbnail; Sample.listing_no_id] Sample.w_token
    = Some (Ok out, w')
    /\ Forall well_formed_record out.
Proof.
  eassert (Hrun : getDetailedListings Sample.R_object_body 1
                    [Sample.listing_thumbnail; Sample.listing_no_id] Sample.w_token
                  = Some (Ok _, _)) by (vm_compute; reflexivity).
  do 2 eexists. split; [exact Hrun|].
  exact (getDetailedListings_records _ _ _ _ _ _ Hrun).
Defined.

(* ===================================================================== *)
(** ** The publisher *)
(* ===================================================================== *)

Section Publisher.

Variable X : WixRemote.
Variable total : nat.

Lemma loggerP_run (entry : PublishLog) (st : Run) :
  loggerP entry st
  = Some (Ok tt, mkRun (ebay st) (skuDraws st) (createCalls st) (mediaCalls st)
                       (publishLog st ++ [entry])).
Proof. reflexivity. Qed.

(** The mapper raised: nothing is posted. *)
Lemma publish_unmappable (listing : EnrichedListing) (count : nat) (st : Run)
    (e : JsError) :
  convertToWixProduct listing (random_sku X (skuDraws st)) = Throw e ->
  processListings_step X total listing count st
  = Some (Ok count,
          mkRun (ebay st) (S (skuDraws st)) (createCalls st) (mediaCalls st)
                (publishLog st
                 ++ [LogPublishError (title (originalListing listing)) (message e)])).
Proof.
  intros Hp. unfold processListings_step, try_catchP.
  unfold bindP at 1, draw_sku. unfold bindP at 1. rewrite Hp. reflexivity.
Qed.

(** The product was rejected: no media, not counted. *)
Lemma publish_create_rejected (listing : EnrichedListing) (count : nat) (st : Run)
    (p : Wix.Product) (e : JsError) :
  convertToWixProduct listing (random_sku X (skuDraws st)) = Ok p ->
  wix_create X (length (createCalls st)) p = CreateRejected e ->
  processListings_step X total listing count st
  = Some (Ok count,
          mkRun (ebay st) (S (skuDraws st)) (createCalls st ++ [p]) (mediaCalls st)
                (publishLog st
                 ++ [LogCreateError e]
                 ++ [LogPublishError (title (originalListing listing)) (message e)])).
Proof.
  intros Hp Hc. unfold processListings_step, try_catchP.
  unfold bindP at 1, draw_sku. unfold bindP at 1. rewrite Hp.
  unfold of_result, retP at 1. unfold bindP at 1, createWixProduct.
  cbn [createCalls skuDraws ebay mediaCalls publishLog]. rewrite Hc.
  unfold bindP, loggerP, retP. cbn [createCalls skuDraws ebay mediaCalls publishLog].
  now rewrite <- app_assoc.
Qed.

(** The product was created and the record has no image: counted, even
    when the response carries no product. *)
Lemma publish_no_images (listing : EnrichedListing) (count : nat) (st : Run)
    (p : Wix.Product) (data : option (option string)) :
  convertToWixProduct listing (random_sku X (skuDraws st)) = Ok p ->
  wix_create X (length (createCalls st)) p = CreateResponse data ->
  images listing = [] ->
  processListings_step X total listing count st
  = Some (Ok (S count),
          mkRun (ebay st) (S (skuDraws st)) (createCalls st ++ [p]) (mediaCalls st)
                (publishLog st ++ [LogProcessed (S count) total])).
Proof.
  intros Hp Hc Hi. unfold processListings_step, try_catchP.
  unfold bindP at 1, draw_sku. unfold bindP at 1. rewrite Hp.
  unfold of_result, retP at 1. unfold bindP at 1, createWixProduct.
  cbn [createCalls skuDraws ebay mediaCalls publishLog]. rewrite Hc, Hi.
  reflexivity.
Qed.

(** The response carries no product and the record has images: reading
    the identifier raises, no media is posted, the record is not counted. *)
Lemma publish_no_product (listing : EnrichedListing) (count : nat) (st : Run)
    (p : Wix.Product) :
  convertToWixProduct listing (random_sku X (skuDraws st)) = Ok p ->
  wix_create X (length (createCalls st)) p = CreateResponse None ->
  images listing <> [] ->
  processListings_step X total listing count st
  = Some (Ok count,
          mkRun (ebay st) (S (skuDraws st)) (createCalls st ++ [p]) (mediaCalls st)
                (publishLog st
                 ++ [LogPublishError (title (originalListing listing))
                                     "Cannot read properties of undefined"])).
Proof.
  intros Hp Hc Hi. unfold processListings_step, try_catchP.
  unfold bindP at 1, draw_sku. unfold bindP at 1. rewrite Hp.
  unfold of_result, retP at 1. unfold bindP at 1, createWixProduct.
  cbn [createCalls skuDraws ebay mediaCalls publishLog]. rewrite Hc.
  destruct (images listing); [contradiction|]. reflexivity.
Qed.

(** Product created and media attached: counted. *)
Lemma publish_media_attached (listing : EnrichedListing) (count : nat) (st : Run)
    (p : Wix.Product) (id : option string) :
  convertToWixProduct listing (random_sku X (skuDraws st)) = Ok p ->
  wix_create X (length (createCalls st)) p = CreateResponse (Some id) ->
  images listing <> [] ->
  wix_media X (length (mediaCalls st)) id (images listing) = MediaAttached ->
  processListings_step X total listing count st
  = Some (Ok (S count),
          mkRun (ebay st) (S (skuDraws st)) (createCalls st ++ [p])
                (mediaCalls st ++ [(id, images listing)])
                (publishLog st ++ [LogProcessed (S count) total])).
Proof.
  intros Hp Hc Hi Hm. unfold processListings_step, try_catchP.
  unfold bindP at 1, draw_sku. unfold bindP at 1. rewrite Hp.
  unfold of_result, retP at 1. unfold bindP at 1, createWixProduct.
  cbn [createCalls skuDraws ebay mediaCalls publishLog]. rewrite Hc.
  destruct (images listing) as [|u us] eqn:Himg; [contradiction|].
  unfold bindP at 1, addMediaToWixProduct.
  cbn [createCalls skuDraws ebay mediaCalls publishLog]. rewrite Hm.
  reflexivity.
Qed.

(** Product created and media rejected: the product stays posted, the
    record is not counted. *)
Lemma publish_media_rejected (listing : EnrichedListing) (count : nat) (st : Run)
    (p : Wix.Product) (id : option string) (e : JsError) :
  convertToWixProduct listing (random_sku X (skuDraws st)) = Ok p ->
  wix_create X (length (createCalls st)) p = CreateResponse (Some id) ->
  images listing <> [] ->
  wix_media X (length (mediaCalls st)) id (images listing) = MediaRejected e ->
  processListings_step X total listing count st
  = Some (Ok count,
          mkRun (ebay st) (S (skuDraws st)) (createCalls st ++ [p])
                (mediaCalls st ++ [(id, images listing)])
                (publishLog st
                 ++ [LogMediaError e]
                 ++ [LogPublishError (title (originalListing listing)) (message e)])).
Proof.
  intros Hp Hc Hi Hm. unfold processListings_step, try_catchP.
  unfold bindP at 1, draw_sku. unfold bindP at 1. rewrite Hp.
  unfold of_result, retP at 1. unfold bindP at 1, createWixProduct.
  cbn [createCalls skuDraws ebay mediaCalls publishLog]. rewrite Hc.
  destruct (images listing) as [|u us] eqn:Himg; [contradiction|].
  unfold bindP at 1, addMediaToWixProduct.
  cbn [createCalls skuDraws ebay mediaCalls publishLog]. rewrite Hm.
  unfold bindP, loggerP, retP. cbn [createCalls skuDraws ebay mediaCalls publishLog].
  now rewrite <- app_assoc.
Qed.

(** One turn of the publisher, whatever happens: it settles without
    raising, draws one SKU, posts the product when there is one, and posts
    media at most once, for a record with images whose product was
    created. *)
Lemma publish_step_run (listing : EnrichedListing) (count : nat) (st : Run) :
  exists count' st',
    processListings_step X total listing count st = Some (Ok count', st')
    /\ ebay st' = ebay st
    /\ skuDraws st' = S (skuDraws st)
    /\ (count' = count \/ count' = S count)
    /\ length (createCalls st')
       = length (createCalls st) + (if mappable listing then 1 else 0)
    /\ (mediaCalls st' = mediaCalls st
        \/ (has_images listing = true /\ mappable listing = true
            /\ exists id, mediaCalls st' = mediaCalls st ++ [(id, images listing)])).
Proof.
  pose proof (convertToWixProduct_mappable listing (random_sku X (skuDraws st))) as Hmap.
  destruct (convertToWixProduct listing (random_sku X (skuDraws st))) as [p|e] eqn:Hp.
  - destruct Hmap as [Hmap _]. rewrite Hmap.
    destruct (wix_create X (length (createCalls st)) p) as [e|data] eqn:Hc.
    + rewrite (publish_create_rejected _ _ _ _ _ Hp Hc).
      do 2 eexists. split; [reflexivity|]. cbn. rewrite length_app. simpl.
      repeat split; auto.
    + destruct (images listing) as [|u us] eqn:Hi.
      * rewrite (publish_no_images _ _ _ _ _ Hp Hc Hi).
        do 2 eexists. split; [reflexivity|]. cbn. rewrite length_app. simpl.
        repeat split; auto.
      * assert (Hne : images listing <> []) by (rewrite Hi; discriminate).
        assert (Hhas : has_images listing = true) by (unfold has_images; now rewrite Hi).
        destruct data as [id|].
        -- destruct (wix_media X (length (mediaCalls st)) id (images listing))
             as [e|] eqn:Hm.
           ++ rewrite <- Hi. rewrite (publish_media_rejected _ _ _ _ _ _ Hp Hc Hne Hm).
              do 2 eexists. split; [reflexivity|]. cbn. rewrite length_app. simpl.
              repeat split; auto. right. eauto.
           ++ rewrite <- Hi. rewrite (publish_media_attached _ _ _ _ _ Hp Hc Hne Hm).
              do 2 eexists. split; [reflexivity|]. cbn. rewrite length_app. simpl.
              repeat split; auto. right. eauto.
        -- rewrite <- Hi. rewrite (publish_no_product _ _ _ _ Hp Hc Hne).
           do 2 eexists. split; [reflexivity|]. cbn. rewrite length_app. simpl.
           repeat split; auto.
  - destruct Hmap as [Hmap _]. rewrite Hmap.
    rewrite (publish_unmappable _ _ _ _ Hp).
    do 2 eexists. split; [reflexivity|]. cbn.
    repeat split; auto.
Qed.

End Publisher.

Section PublisherLoop.

Variable X : WixRemote.
Variable total : nat.

Lemma publish_loop_run (listings : list EnrichedListing) :
  forall (count : nat) (st : Run),
  exists count' st',
    processListings_loop X total listings count st = Some (Ok count', st')
    /\ ebay st' = ebay st
    /\ skuDraws st' = skuDraws st + length listings
    /\ count <= count' <= count + length listings
    /\ length (createCalls st')
       = length (createCalls st) + length (filter mappable listings)
    /\ exists new,
         mediaCalls st' = mediaCalls st ++ new
         /\ length new <= length (filter (fun l => has_images l && mappable l) listings)
         /\ Forall (fun call => snd call <> []
                                /\ exists l, In l listings /\ snd call = images l) new.
Proof.
  induction listings as [|listing rest IH]; intros count st.
  - exists count, st. split; [reflexivity|]. simpl.
    repeat split; try lia. exists []. rewrite app_nil_r. auto.
  - cbn [processListings_loop]. unfold bindP.
    destruct (publish_step_run X total listing count st)
      as (c1 & st1 & -> & He & Hs & Hc & Hcr & Hmed).
    destruct (IH c1 st1) as (c2 & st2 & -> & He2 & Hs2 & Hc2 & Hcr2 & new2 & Hm2 & Hl2 & Hf2).
    exists c2, st2. split; [reflexivity|].
    split; [congruence|]. split; [simpl; lia|]. split; [simpl; lia|].
    split.
    { cbn [filter]. destruct (mappable listing); simpl; lia. }
    assert (Hf2' : Forall (fun call => snd call <> []
                     /\ exists l, In l (listing :: rest) /\ snd call = images l) new2).
    { eapply Forall_impl; [|exact Hf2].
      intros call (H1 & l & H2 & H3). split; [exact H1|]. exists l. split; [now right | exact H3]. }
    destruct Hmed as [Hmed|(Hhas & Hmap & id & Hmed)].
    + exists new2. split; [congruence|]. split; [|exact Hf2'].
      cbn [filter]. destruct (has_images listing && mappable listing); simpl; lia.
    + exists ((id, images listing) :: new2).
      split; [rewrite Hm2, Hmed, <- app_assoc; reflexivity|].
      split; [cbn [filter]; rewrite Hhas, Hmap; simpl; lia|].
      constructor; [|exact Hf2']. cbn [snd]. split.
      * unfold has_images in Hhas. destruct (images listing); [discriminate | discriminate].
      * exists listing. split; [now left | reflexivity].
Qed.

(** When the Wix API accepts every post, every mappable record is counted:
    its product is posted with the SKU drawn for it, and its media follow
    when it has images. *)
Lemma publish_loop_accepted (listings : list EnrichedListing) :
  (forall n p, exists id, wix_create X n p = CreateResponse (Some id)) ->
  (forall n id urls, wix_media X n id urls = MediaAttached) ->
  forallb mappable listings = true ->
  forall (count : nat) (st : Run),
  exists st' products new,
    processListings_loop X total listings count st
    = Some (Ok (count + length listings), st')
    /\ createCalls st' = createCalls st ++ products
    /\ map Wix.sku products
       = map (random_sku X) (seq (skuDraws st) (length listings))
    /\ map Wix.name products = map (fun l => title (summary l)) listings
    /\ mediaCalls st' = mediaCalls st ++ new
    /\ map snd new = map images (filter has_images listings).
Proof.
  intros Hcreate Hmedia. induction listings as [|listing rest IH]; intros Hall count st.
  - exists st, [], []. rewrite Nat.add_0_r, !app_nil_r. repeat split.
  - cbn [forallb] in Hall. apply andb_prop in Hall as [Hmap Hall].
    cbn [processListings_loop]. unfold bindP.
    pose proof (convertToWixProduct_mappable listing (random_sku X (skuDraws st))) as Hp.
    destruct (convertToWixProduct listing (random_sku X (skuDraws st))) as [p|e] eqn:Hconv;
      [destruct Hp as [_ Hsku] | destruct Hp as [Hp _]; congruence].
    pose proof (convertToWixProduct_name _ _ _ Hconv) as Hname.
    destruct (Hcreate (length (createCalls st)) p) as (id & Hc).
    destruct (images listing) as [|u us] eqn:Hi.
    + rewrite (publish_no_images X total _ _ _ _ _ Hconv Hc Hi).
      match goal with
      | |- context [processListings_loop X total rest (S count) ?st1] =>
          destruct (IH Hall (S count) st1)
            as (st' & products & new & Hrun & Hcr & Hsk & Hnm & Hmd & Hsn)
      end.
      exists st', (p :: products), new.
      cbn [createCalls mediaCalls skuDraws] in Hcr, Hmd, Hsk.
      split; [rewrite Hrun; do 3 f_equal; simpl; lia|].
      split; [rewrite Hcr, <- app_assoc; reflexivity|].
      split; [cbn [length seq map]; now rewrite Hsku, Hsk|].
      split; [cbn [map]; now rewrite Hname, Hnm|].
      split; [exact Hmd|].
      cbn [filter]. unfold has_images at 1. rewrite Hi. exact Hsn.
    + assert (Hne : images listing <> []) by (rewrite Hi; discriminate).
      rewrite (publish_media_attached X total _ _ _ _ _ Hconv Hc Hne (Hmedia _ _ _)).
      match goal with
      | |- context [processListings_loop X total rest (S count) ?st1] =>
          destruct (IH Hall (S count) st1)
            as (st' & products & new & Hrun & Hcr & Hsk & Hnm & Hmd & Hsn)
      end.
      exists st', (p :: products), ((id, images listing) :: new).
      cbn [createCalls mediaCalls skuDraws] in Hcr, Hmd, Hsk.
      split; [rewrite Hrun; do 3 f_equal; simpl; lia|].
      split; [rewrite Hcr, <- app_assoc; reflexivity|].
      split; [cbn [length seq map]; now rewrite Hsku, Hsk|].
      split; [cbn [map]; now rewrite Hname, Hnm|].
      split; [rewrite Hmd, <- app_assoc; reflexivity|].
      cbn [filter]. unfold has_images at 1. rewrite Hi. cbn [map snd].
      now rewrite Hsn, Hi.
Qed.

(** When the Wix API rejects every product, each mappable record is still
    posted once, none is counted and no media is posted. *)
Lemma publish_loop_rejected (listings : list EnrichedListing) :
  (forall n p, exists e, wix_create X n p = CreateRejected e) ->
  forall (count : nat) (st : Run),
  exists st',
    processListings_loop X total listings count st = Some (Ok count, st')
    /\ mediaCalls st' = mediaCalls st
    /\ length (createCalls st')
       = length (createCalls st) + length (filter mappable listings).
Proof.
  intros Hcreate. induction listings as [|listing rest IH]; intros count st.
  - exists st. repeat split. simpl. lia.
  - cbn [processListings_loop filter]. unfold bindP.
    pose proof (convertToWixProduct_mappable listing (random_sku X (skuDraws st))) as Hp.
    destruct (convertToWixProduct listing (random_sku X (skuDraws st))) as [p|e] eqn:Hconv.
    + destruct Hp as [Hmap _]. rewrite Hmap.
      destruct (Hcreate (length (createCalls st)) p) as (e & Hc).
      rewrite (publish_create_rejected X total _ _ _ _ _ Hconv Hc).
      match goal with
      | |- context [processListings_loop X total rest count ?st1] =>
          destruct (IH count st1) as (st' & Hrun & Hmd & Hcr)
      end.
      exists st'. split; [exact Hrun|]. split; [exact Hmd|].
      rewrite Hcr. cbn [createCalls]. rewrite length_app. simpl. lia.
    + destruct Hp as [Hmap _]. rewrite Hmap.
      rewrite (publish_unmappable X total _ _ _ _ Hconv).
      match goal with
      | |- context [processListings_loop X total rest count ?st1] =>
          destruct (IH count st1) as (st' & Hrun & Hmd & Hcr)
      end.
      exists st'. split; [exact Hrun|]. split; [exact Hmd|]. exact Hcr.
Qed.

End PublisherLoop.

(** X14: The publisher never raises and never stops early: for every batch it
    draws one SKU per record, posts one product for every record the
    mapper accepts (whatever happened to the records before it), and
    posts media at most once per record, only for records with images
    whose product went through.  The count it reports is at most the
    number of records.  It does not touch the eBay side. *)
Theorem processListings_skips_and_continues
    (X : WixRemote) (listings : list EnrichedListing) (st : Run) :
  exists count st' new,
    processListings X listings st = Some (Ok count, st')
    /\ count <= length listings
    /\ ebay st' = ebay st
    /\ skuDraws st' = skuDraws st + length listings
    /\ length (createCalls st')
       = length (createCalls st) + length (filter mappable listings)
    /\ mediaCalls st' = mediaCalls st ++ new
    /\ length new <= length (filter (fun l => has_images l && mappable l) listings)
    /\ Forall (fun call => snd call <> []
                           /\ exists l, In l listings /\ snd call = images l) new
    /\ In (LogProcessedTotal count) (publishLog st').
Proof.
  unfold processListings, bindP.
  destruct (publish_loop_run X (length listings) listings 0 st)
    as (count & st1 & -> & He & Hs & Hc & Hcr & new & Hm & Hl & Hf).
  rewrite loggerP_run. unfold retP.
  exists count. eexists. exists new. split; [reflexivity|].
  cbn [ebay skuDraws createCalls mediaCalls publishLog].
  repeat split; auto; try lia.
  apply in_or_app. simpl. tauto.
Qed.

(** X15: When the Wix API accepts every post and the mapper accepts every
    record, all records are counted; the products are posted in the order
    of the records, each under the record's title and with the SKU drawn
    for it, and the media posts are those of the records that have
    images, in the same order. *)
Theorem processListings_all_accepted
    (X : WixRemote) (listings : list EnrichedListing) (st : Run) :
  (forall n p, exists id, wix_create X n p = CreateResponse (Some id)) ->
  (forall n id urls, wix_media X n id urls = MediaAttached) ->
  forallb mappable listings = true ->
  exists st' products new,
    processListings X listings st = Some (Ok (length listings), st')
    /\ createCalls st' = createCalls st ++ products
    /\ map Wix.sku products
       = map (random_sku X) (seq (skuDraws st) (length listings))
    /\ map Wix.name products = map (fun l => title (summary l)) listings
    /\ mediaCalls st' = mediaCalls st ++ new
    /\ map snd new = map images (filter has_images listings).
Proof.
  intros Hc Hm Hall. unfold processListings, bindP.
  destruct (publish_loop_accepted X (length listings) listings Hc Hm Hall 0 st)
    as (st1 & products & new & -> & H1 & H2 & H3 & H4 & H5).
  rewrite loggerP_run. unfold retP.
  eexists. exists products, new. split; [reflexivity|].
  cbn [createCalls mediaCalls]. auto.
Qed.

Lemma processListings_all_accepted_witness :
  exists st',
    processListings SampleRun.X_accepts
      [fallback Sample.listing_three; Sample.enriched_bare] SampleRun.st_start
    = Some (Ok 2, st')
    /\ length (mediaCalls st') = 1.
Proof.
  destruct (processListings_all_accepted SampleRun.X_accepts
              [fallback Sample.listing_three; Sample.enriched_bare] SampleRun.st_start)
    as (st' & products & new & Hrun & _ & _ & _ & Hm & Hn).
  - intros n p. eexists. reflexivity.
  - reflexivity.
  - reflexivity.
  - exists st'. split; [exact Hrun|].
    rewrite Hm. simpl. apply (f_equal (@length _)) in Hn.
    rewrite length_map in Hn. exact Hn.
Defined.

(** X16: When the Wix API rejects every product, the publisher still posts one
    product for every record the mapper accepts (a failure does not end
    the batch), counts none and posts no media. *)
Theorem processListings_all_rejected
    (X : WixRemote) (listings : list EnrichedListing) (st : Run) :
  (forall n p, exists e, wix_create X n p = CreateRejected e) ->
  exists st',
    processListings X listings st = Some (Ok 0, st')
    /\ mediaCalls st' = mediaCalls st
    /\ length (createCalls st')
       = length (createCalls st) + length (filter mappable listings).
Proof.
  intros Hc. unfold processListings, bindP.
  destruct (publish_loop_rejected X (length listings) listings Hc 0 st)
    as (st1 & -> & H1 & H2).
  rewrite loggerP_run. unfold retP.
  eexists. split; [reflexivity|]. cbn [createCalls mediaCalls]. auto.
Qed.

Lemma processListings_all_rejected_witness :
  exists st',
    processListings SampleRun.X_rejects
      [fallback Sample.listing_three; Sample.enriched_bare] SampleRun.st_start
    = Some (Ok 0, st')
    /\ length (createCalls st') = 2.
Proof.
  destruct (processListings_all_rejected SampleRun.X_rejects
              [fallback Sample.listing_three; Sample.enriched_bare] SampleRun.st_start)
    as (st' & Hrun & _ & Hc).
  - intros n p. eexists. reflexivity.
  - exists st'. split; [exact Hrun | exact Hc].
Defined.

(** X17: No rollback: when the product of a record went through and its media
    are rejected, the product stays posted, the media post was made once,
    the record is not counted, and the publisher moves on with two log
    lines. *)
Theorem publisher_keeps_product_when_media_fail
    (X : WixRemote) (total : nat) (listing : EnrichedListing) (count : nat)
    (st : Run) (p : Wix.Product) (id : option string) (e : JsError) :
  convertToWixProduct listing (random_sku X (skuDraws st)) = Ok p ->
  wix_create X (length (createCalls st)) p = CreateResponse (Some id) ->
  images listing <> [] ->
  wix_media X (length (mediaCalls st)) id (images listing) = MediaRejected e ->
  exists st',
    processListings_step X total listing count st = Some (Ok count, st')
    /\ createCalls st' = createCalls st ++ [p]
    /\ mediaCalls st' = mediaCalls st ++ [(id, images listing)]
    /\ publishLog st'
       = publishLog st
         ++ [LogMediaError e;
             LogPublishError (title (originalListing listing)) (message e)].
Proof.
  intros Hp Hc Hi Hm.
  rewrite (publish_media_rejected X total _ _ _ _ _ _ Hp Hc Hi Hm).
  eexists. split; [reflexivity|]. repeat split.
Qed.

Lemma publisher_keeps_product_when_media_fail_witness :
  exists st',
    processListings_step SampleRun.X_no_media 1 (fallback Sample.listing_three) 0
      SampleRun.st_start
    = Some (Ok 0, st')
    /\ length (createCalls st') = 1.
Proof.
  eassert (Hp : convertToWixProduct (fallback Sample.listing_three)
                  (random_sku SampleRun.X_no_media (skuDraws SampleRun.st_start))
                = Ok _) by (vm_compute; reflexivity).
  destruct (publisher_keeps_product_when_media_fail SampleRun.X_no_media 1
              (fallback Sample.listing_three) 0 SampleRun.st_start _
              (Some "3f2c9a10-product")
              (mkError "Request failed with status code 413" NoData) Hp)
    as (st' & Hrun & Hc & _).
  - reflexivity.
  - discriminate.
  - reflexivity.
  - exists st'. split; [exact Hrun|]. rewrite Hc. reflexivity.
Defined.

(** X18: A response of the create call without a product: a record without
    images is counted all the same (the identifier is never read); for a
    record with images reading the identifier raises, so no media is
    posted and the record is not counted, though its product was
    posted. *)
Theorem publisher_response_without_product
    (X : WixRemote) (total : nat) (listing : EnrichedListing) (count : nat)
    (st : Run) (p : Wix.Product) :
  convertToWixProduct listing (random_sku X (skuDraws st)) = Ok p ->
  wix_create X (length (createCalls st)) p = CreateResponse None ->
  exists st',
    processListings_step X total listing count st
    = Some (Ok (if has_images listing then count else S count), st')
    /\ createCalls st' = createCalls st ++ [p]
    /\ mediaCalls st' = mediaCalls st.
Proof.
  intros Hp Hc. unfold has_images.
  destruct (images listing) as [|u us] eqn:Hi.
  - rewrite (publish_no_images X total _ _ _ _ _ Hp Hc Hi).
    eexists. split; [reflexivity|]. split; reflexivity.
  - assert (Hne : images listing <> []) by (rewrite Hi; discriminate).
    rewrite (publish_no_product X total _ _ _ _ Hp Hc Hne).
    eexists. split; [reflexivity|]. split; reflexivity.
Qed.

Lemma publisher_response_without_product_witness :
  exists st',
    processListings_step
      (mkWixRemote (fun _ _ => CreateResponse None) (fun _ _ _ => MediaAttached)
                   (fun _ => "k3x9qf"))
      1 (fallback Sample.listing_three) 0 SampleRun.st_start
    = Some (Ok 0, st')
    /\ mediaCalls st' = [].
Proof.
  eassert (Hp : convertToWixProduct (fallback Sample.listing_three) "k3x9qf" = Ok _)
    by (vm_compute; reflexivity).
  destruct (publisher_response_without_product
              (mkWixRemote (fun _ _ => CreateResponse None) (fun _ _ _ => MediaAttached)
                           (fun _ => "k3x9qf"))
              1 (fallback Sample.listing_three) 0 SampleRun.st_start _ Hp)
    as (st' & Hrun & _ & Hm).
  - reflexivity.
  - exists st'. split; [exact Hrun | exact Hm].
Defined.

(* ===================================================================== *)
(** ** The scheduled run *)
(* ===================================================================== *)

Section Sync.

Variable R : Remote.
Variable X : WixRemote.
Variable fuel : nat.

Lemma publish_step_log (total : nat) (listing : EnrichedListing) (count : nat) (st : Run) :
  exists count' st' entries,
    processListings_step X total listing count st = Some (Ok count', st')
    /\ publishLog st' = publishLog st ++ entries.
Proof.
  destruct (convertToWixProduct listing (random_sku X (skuDraws st))) as [p|e] eqn:Hp.
  - destruct (wix_create X (length (createCalls st)) p) as [e|data] eqn:Hc.
    + rewrite (publish_create_rejected X total _ _ _ _ _ Hp Hc).
      do 3 eexists. split; reflexivity.
    + destruct (images listing) as [|u us] eqn:Hi.
      * rewrite (publish_no_images X total _ _ _ _ _ Hp Hc Hi).
        do 3 eexists. split; reflexivity.
      * assert (Hne : images listing <> []) by (rewrite Hi; discriminate).
        destruct data as [id|].
        -- destruct (wix_media X (length (mediaCalls st)) id (images listing))
             as [e|] eqn:Hm.
           ++ rewrite (publish_media_rejected X total _ _ _ _ _ _ Hp Hc Hne Hm).
              do 3 eexists. split; reflexivity.
           ++ rewrite (publish_media_attached X total _ _ _ _ _ Hp Hc Hne Hm).
              do 3 eexists. split; reflexivity.
        -- rewrite (publish_no_product X total _ _ _ _ Hp Hc Hne).
           do 3 eexists. split; reflexivity.
  - rewrite (publish_unmappable X total _ _ _ _ Hp).
    do 3 eexists. split; reflexivity.
Qed.

Lemma publish_loop_log (total : nat) (listings : list EnrichedListing) :
  forall (count : nat) (st : Run),
  exists count' st' entries,
    processListings_loop X total listings count st = Some (Ok count', st')
    /\ publishLog st' = publishLog st ++ entries.
Proof.
  induction listings as [|listing rest IH]; intros count st.
  - exists count, st, []. split; [reflexivity | now rewrite app_nil_r].
  - cbn [processListings_loop]. unfold bindP.
    destruct (publish_step_log total listing count st) as (c1 & st1 & en1 & -> & H1).
    destruct (IH c1 st1) as (c2 & st2 & en2 & -> & H2).
    exists c2, st2, (en1 ++ en2). split; [reflexivity|].
    now rewrite H2, H1, app_assoc.
Qed.

(** The publisher seen from the run. *)
Lemma processListings_frame (listings : list EnrichedListing) (st : Run) :
  exists count st' entries,
    processListings X listings st = Some (Ok count, st')
    /\ ebay st' = ebay st
    /\ skuDraws st' = skuDraws st + length listings
    /\ length (createCalls st') <= length (createCalls st) + length listings
    /\ publishLog st' = publishLog st ++ entries.
Proof.
  unfold processListings, bindP.
  destruct (publish_loop_run X (length listings) listings 0 st)
    as (count & st1 & Hrun & He & Hs & _ & Hcr & _).
  destruct (publish_loop_log (length listings) listings 0 st)
    as (count' & st1' & entries & Hrun' & Hlog).
  rewrite Hrun in Hrun'. injection Hrun' as <- <-.
  rewrite Hrun, loggerP_run. unfold retP.
  do 3 eexists. split; [reflexivity|].
  cbn [ebay skuDraws createCalls publishLog].
  split; [exact He|]. split; [exact Hs|]. split.
  - rewrite Hcr. pose proof (filter_length_le mappable listings). lia.
  - rewrite Hlog, <- app_assoc. reflexivity.
Qed.

Lemma filter_skipn_batch (listings : list Listing) (i : nat) :
  filter has_itemId (skipn i listings)
  = filter has_itemId (firstn BATCH_SIZE (skipn i listings))
    ++ filter has_itemId (skipn (i + BATCH_SIZE) listings).
Proof.
  rewrite <- filter_app. f_equal.
  rewrite Nat.add_comm, <- skipn_skipn. symmetry. apply firstn_skipn.
Qed.

(** The batch loop settles when the detail calls do, and hands every
    listing with an item identifier to the publisher once. *)
Lemma sync_batches_settles (bound : nat) (listings : list Listing) :
  quiet_from R bound ->
  forall (turns i : nat) (st : Run),
    budget bound (ebay st) < fuel ->
    length listings <= i + turns * BATCH_SIZE ->
    exists st' entries,
      sync_batches R X fuel listings turns i st = Some (Ok tt, st')
      /\ skuDraws st'
         = skuDraws st + length (filter has_itemId (skipn i listings))
      /\ length (createCalls st')
         <= length (createCalls st) + length (filter has_itemId (skipn i listings))
      /\ budget bound (ebay st') <= budget bound (ebay st)
      /\ publishLog st' = publishLog st ++ entries.
Proof.
  intros Hq. induction turns as [|turns IH]; intros i st Hb Hlen.
  - exists st, []. split; [reflexivity|].
    rewrite skipn_all2 by (simpl in Hlen; lia). simpl.
    repeat split; try lia. now rewrite app_nil_r.
  - cbn [sync_batches].
    destruct (Nat.ltb_spec i (length listings)) as [Hi|Hi].
    + unfold bindP at 1, on_ebay, getDetailedListings.
      destruct (loop_settles_budget R fuel bound Hq
                  (firstn BATCH_SIZE (skipn i listings)) [] (ebay st) Hb)
        as (out & w' & Hrun & Hmap & Hb').
      rewrite Hrun. unfold bindP at 1.
      match goal with
      | |- context [processListings X out ?st1] =>
          destruct (processListings_frame out st1)
            as (count & st2 & en2 & -> & He2 & Hs2 & Hc2 & Hl2)
      end.
      unfold bindP at 1. rewrite loggerP_run.
      match goal with
      | |- context [sync_batches R X fuel listings turns (i + BATCH_SIZE) ?st3] =>
          destruct (IH (i + BATCH_SIZE) st3)
            as (st' & en3 & -> & Hs3 & Hc3 & Hb3 & Hl3)
      end.
      { cbn [ebay]. rewrite He2. cbn [ebay]. lia. }
      { rewrite Nat.mul_succ_l in Hlen. lia. }
      cbn [ebay skuDraws createCalls publishLog] in *.
      assert (Hout : length out
                     = length (filter has_itemId (firstn BATCH_SIZE (skipn i listings)))).
      { cbn [map app] in Hmap. rewrite <- Hmap. now rewrite length_map. }
      exists st'. eexists. split; [reflexivity|].
      rewrite (filter_skipn_batch listings i), length_app.
      rewrite He2 in Hb3. cbn [ebay] in Hb3.
      split; [lia|]. split; [lia|]. split; [lia|].
      rewrite Hl3, Hl2, <- !app_assoc. reflexivity.
    + exists st, []. split; [reflexivity|].
      rewrite skipn_all2 by lia. simpl.
      repeat split; try lia. now rewrite app_nil_r.
Qed.

End Sync.

(** X19: A whole run, when the invalid-token answers of the remotes come to an
    end: it settles on its normal path (its last log line is the
    completion line, so the outer [catch] was not entered), and every
    listing of the first page that has an item identifier is handed to
    the publisher exactly once, in batches: one SKU is drawn per such
    listing and at most one product is posted for it. *)
Theorem sync_publishes_every_identified_listing
    (R : Remote) (X : WixRemote) (bound fuel : nat) (st : Run) :
  quiet_from R bound ->
  budget bound (ebay st) < fuel ->
  exists st' entries,
    syncEbayListingsWithWix R X fuel st = Some (Ok tt, st')
    /\ skuDraws st'
       = skuDraws st
         + length (filter has_itemId (page_items (findItemsIneBayStores R 1)))
    /\ length (createCalls st')
       <= length (createCalls st)
          + length (filter has_itemId (page_items (findItemsIneBayStores R 1)))
    /\ publishLog st'
       = publishLog st
         ++ [LogSyncStart;
             LogRetrieved (length (page_items (findItemsIneBayStores R 1)))]
         ++ entries ++ [LogSyncCompleted].
Proof.
  intros Hq Hb. unfold syncEbayListingsWithWix, try_catchP.
  unfold bindP at 1. rewrite loggerP_run.
  unfold bindP at 1, on_ebay. cbn [ebay].
  destruct (getAllEbayListings_run R (ebay st)) as (w1 & -> & _ & _ & Ht & Hd).
  set (listings := page_items (findItemsIneBayStores R 1)).
  unfold bindP at 1. rewrite loggerP_run. cbn [ebay skuDraws createCalls mediaCalls publishLog].
  unfold bindP at 1.
  destruct (Nat.ltb_spec 0 (length listings)) as [Hpos|Hzero].
  - match goal with
    | |- context [sync_batches R X fuel listings (length listings) 0 ?st1] =>
        destruct (sync_batches_settles R X fuel bound listings Hq (length listings) 0 st1)
          as (st' & entries & -> & Hs & Hc & _ & Hl)
    end.
    { cbn [ebay]. unfold budget in *. rewrite Ht, Hd. exact Hb. }
    { unfold BATCH_SIZE. lia. }
    rewrite loggerP_run.
    cbn [ebay skuDraws createCalls mediaCalls publishLog skipn] in *.
    eexists. exists entries. split; [reflexivity|].
    cbn [skuDraws createCalls publishLog].
    split; [exact Hs|]. split; [exact Hc|].
    rewrite Hl, <- !app_assoc. reflexivity.
  - rewrite !loggerP_run. cbn [ebay skuDraws createCalls mediaCalls publishLog].
    assert (Hnil : listings = []) by (destruct listings; [reflexivity | simpl in Hzero; lia]).
    rewrite Hnil. eexists. exists [LogNoListings]. split; [reflexivity|].
    cbn [skuDraws createCalls publishLog filter length].
    split; [lia|]. split; [lia|].
    rewrite <- !app_assoc. reflexivity.
Qed.

Lemma sync_publishes_every_identified_listing_witness :
  exists st',
    syncEbayListingsWithWix SampleRun.R_three_listings SampleRun.X_accepts 1
      SampleRun.st_start
    = Some (Ok tt, st')
    /\ skuDraws st' = 3.
Proof.
  destruct (sync_publishes_every_identified_listing SampleRun.R_three_listings
              SampleRun.X_accepts 0 1 SampleRun.st_start)
    as (st' & entries & Hrun & Hs & _).
  - intros n _. split; reflexivity.
  - vm_compute. lia.
  - exists st'. split; [exact Hrun | exact Hs].
Defined.

(** X20: A store whose first page holds no listing (or is rejected): the run
    does nothing but log; it sends no detail request, draws no SKU and
    posts nothing to Wix. *)
Theorem sync_empty_store (R : Remote) (X : WixRemote) (fuel : nat) (st : Run) :
  page_items (findItemsIneBayStores R 1) = [] ->
  exists st',
    syncEbayListingsWithWix R X fuel st = Some (Ok tt, st')
    /\ detailCalls (ebay st') = detailCalls (ebay st)
    /\ tokenCalls (ebay st') = tokenCalls (ebay st)
    /\ skuDraws st' = skuDraws st
    /\ createCalls st' = createCalls st
    /\ mediaCalls st' = mediaCalls st
    /\ publishLog st'
       = publishLog st
         ++ [LogSyncStart; LogRetrieved 0; LogNoListings; LogSyncCompleted].
Proof.
  intros Hnone. unfold syncEbayListingsWithWix, try_catchP.
  unfold bindP at 1. rewrite loggerP_run.
  unfold bindP at 1, on_ebay. cbn [ebay].
  destruct (getAllEbayListings_run R (ebay st)) as (w1 & -> & _ & _ & Ht & Hd).
  rewrite Hnone. unfold bindP. rewrite !loggerP_run.
  cbn [length Nat.ltb Nat.leb]. rewrite !loggerP_run.
  eexists. split; [reflexivity|].
  cbn [ebay skuDraws createCalls mediaCalls publishLog].
  repeat split; auto. rewrite <- !app_assoc. reflexivity.
Qed.

Lemma sync_empty_store_witness :
  exists st',
    syncEbayListingsWithWix Sample.R_no_item SampleRun.X_accepts 1 SampleRun.st_start
    = Some (Ok tt, st')
    /\ createCalls st' = [].
Proof.
  destruct (sync_empty_store Sample.R_no_item SampleRun.X_accepts 1 SampleRun.st_start)
    as (st' & Hrun & _ & _ & _ & Hc & _).
  - reflexivity.
  - exists st'. split; [exact Hrun | exact Hc].
Defined.

(* ===================================================================== *)
(** ** Fixed points of the upgrade *)
(* ===================================================================== *)

Section FixedPoints.

Lemma length_append (a b : string) :
  String.length (a ++ b) = String.length a + String.length b.
Proof. induction a as [|c a IH]; simpl; congruence. Qed.

Lemma replace_first_length (pat rep s : string) :
  Js.includes s pat = true ->
  String.length (Js.replace_first pat rep s) + String.length pat
  = String.length s + String.length rep.
Proof.
  induction s as [|c s IH]; cbn [Js.includes Js.replace_first].
  - destruct (Js.strip_prefix pat "") as [rest|] eqn:Hp; [|discriminate].
    intros _. apply strip_prefix_app, (f_equal String.length) in Hp.
    rewrite length_append in *. lia.
  - destruct (Js.strip_prefix pat (String c s)) as [rest|] eqn:Hp.
    + intros _. apply strip_prefix_app, (f_equal String.length) in Hp.
      rewrite length_append in *. lia.
    + intros H. specialize (IH H). simpl. lia.
Qed.

Lemma replace_first_length_le (pat rep s : string) :
  String.length rep <= String.length pat ->
  String.length (Js.replace_first pat rep s) <= String.length s.
Proof.
  intros Hle. destruct (Js.includes s pat) eqn:Hin.
  - pose proof (replace_first_length pat rep s Hin). lia.
  - now rewrite replace_first_absent.
Qed.

Lemma take_digits_nonempty_length (r : string) :
  Js.take_digits r <> "" -> 1 <= String.length (Js.take_digits r).
Proof. destruct (Js.take_digits r); [congruence | simpl; lia]. Qed.

Lemma match_size_suffix_length (s rest : string) :
  match_size_suffix s = Some rest -> String.length rest + 6 <= String.length s.
Proof.
  unfold match_size_suffix.
  destruct (Js.strip_prefix "/s-l" s) as [r|] eqn:Hp; [|discriminate].
  apply strip_prefix_app in Hp.
  destruct (Js.take_digits r) as [|d ds] eqn:Hd; [discriminate|].
  destruct (Js.drop_digits r) as [|c rest'] eqn:Hr; [discriminate|].
  destruct c as [[] [] [] [] [] [] [] []]; try discriminate.
  intros [= <-]. rewrite Hp, <- (digits_split r), Hd, Hr.
  rewrite !length_append. simpl. lia.
Qed.

(** The size rewrite lengthens a URL by three characters at most. *)
Lemma replace_size_suffix_length (s : string) :
  String.length (replace_size_suffix s) <= String.length s + 3.
Proof.
  induction s as [|c s IH]; [simpl; lia|].
  cbn [replace_size_suffix].
  destruct (match_size_suffix (String c s)) as [rest|] eqn:Hm.
  - apply match_size_suffix_length in Hm. rewrite length_append.
    change (String.length "/s-l1600.") with 9. lia.
  - simpl. lia.
Qed.

Lemma replace_size_suffix_fixed (s : string) :
  replace_size_suffix s = s -> size_suffix_canonical s = true.
Proof.
  induction s as [|c s IH]; [reflexivity|].
  cbn [replace_size_suffix size_suffix_canonical].
  destruct (match_size_suffix (String c s)) as [rest|] eqn:Hm.
  - intros <-. now rewrite strip_prefix_self.
  - intros [= H]. auto.
Qed.

Lemma convertToHighRes_fixed (url : string) :
  convertToHighRes url = url -> canonical url = true.
Proof.
  unfold convertToHighRes, canonical.
  destruct (String.eqb_spec url "") as [->|Hne]; [reflexivity|].
  set (s1 := Js.replace_first "/thumbs/" "/" url).
  set (s2 := replace_size_suffix s1).
  intros Hfix.
  pose proof (replace_size_suffix_length s1) as H2. fold s2 in H2.
  pose proof (replace_first_length_le "-thumb." "." s2) as H3.
  pose proof (replace_first_length_le "/thumbs/" "/" url) as H1. fold s1 in H1.
  change (String.length "/") with 1 in H1. change (String.length "/thumbs/") with 8 in H1.
  change (String.length ".") with 1 in H3. change (String.length "-thumb.") with 7 in H3.
  specialize (H1 ltac:(lia)). specialize (H3 ltac:(lia)).
  assert (Hlen : String.length (Js.replace_first "-thumb." "." s2) = String.length url)
    by now rewrite Hfix.
  destruct (Js.includes url "/thumbs/") eqn:Ht.
  { pose proof (replace_first_length "/thumbs/" "/" url Ht) as H. fold s1 in H.
    change (String.length "/") with 1 in H. change (String.length "/thumbs/") with 8 in H.
    lia. }
  assert (Hs1 : s1 = url) by (apply replace_first_absent, Ht).
  destruct (Js.includes s2 "-thumb.") eqn:Hb.
  { pose proof (replace_first_length "-thumb." "." s2 Hb) as H.
    change (String.length ".") with 1 in H. change (String.length "-thumb.") with 7 in H.
    rewrite Hs1 in H2. lia. }
  rewrite (replace_first_absent _ _ _ Hb) in Hfix.
  unfold s2 in Hfix. rewrite Hs1 in Hfix.
  rewrite (replace_size_suffix_fixed _ Hfix).
  unfold s2 in Hb. rewrite Hs1, Hfix in Hb. rewrite Hb. reflexivity.
Qed.

End FixedPoints.

(** X21: The URLs that the upgrade leaves unchanged are exactly those in
    high-resolution form: no [/thumbs/] segment, no [-thumb.] suffix, and
    a leftmost size suffix, if any, that is [/s-l1600.].  Hence applying
    the upgrade twice gives the same as once exactly when the upgraded URL
    is in that form.  The upgrade never empties a URL. *)
Theorem convertToHighRes_fixed_points (url : string) :
  (convertToHighRes url = url <-> canonical url = true)
  /\ (convertToHighRes (convertToHighRes url) = convertToHighRes url
      <-> canonical (convertToHighRes url) = true)
  /\ (url <> "" -> convertToHighRes url <> "").
Proof.
  split; [|split].
  - split; [apply convertToHighRes_fixed | apply convertToHighRes_canonical].
  - split; [apply convertToHighRes_fixed | apply convertToHighRes_canonical].
  - apply convertToHighRes_nonempty.
Qed.

(** X22: When the upgraded forms that the two extractors return are all in
    high-resolution form, the second upgrade of the success path changes
    nothing: the final image list is the deduplicated list itself and has
    no duplicates. *)
Theorem enriched_images_NoDup_when_canonical
    (listing : Listing) (ad : AdditionalDetails) :
  (forall s, In (Some s) (extractBasicImages listing ++ ad_images ad) ->
             canonical s = true) ->
  images (enriched listing ad)
  = set_of (combinedImages (extractBasicImages listing) ad)
  /\ NoDup (images (enriched listing ad)).
Proof.
  intros Hcan.
  assert (E : images (enriched listing ad)
              = set_of (combinedImages (extractBasicImages listing) ad)).
  { cbn [images enriched]. unfold uniqueImages.
    rewrite <- (map_id (set_of (combinedImages (extractBasicImages listing) ad))) at 2.
    apply map_ext_in. intros k Hk.
    apply (proj1 (set_of_In _ _)) in Hk. unfold combinedImages in Hk.
    apply filter_In in Hk as [Hk _].
    destruct k as [s|]; [|reflexivity]. simpl. f_equal.
    apply convertToHighRes_canonical, Hcan, Hk. }
  split; [exact E|]. rewrite E. apply set_of_NoDup.
Qed.

Lemma enriched_images_NoDup_when_canonical_witness :
  NoDup (images (enriched Sample.listing_three no_details)).
Proof.
  apply (enriched_images_NoDup_when_canonical Sample.listing_three no_details).
  intros s Hs. vm_compute in Hs.
  destruct Hs as [[= <-]|[[= <-]|[]]]; reflexivity.
Defined.

Section DetailCallRequests.

Variable R : Remote.

(** One pass through the [try] block sends one request at most. *)
Lemma try_requests (id : string) (w w1 : World) (res : Result AdditionalDetails) :
  getShoppingApiDetails_try R id w = Some (res, w1) ->
  detailCalls w1 <= S (detailCalls w).
Proof.
  unfold getShoppingApiDetails_try. unfold bind at 1.
  destruct (Js.truthy (applicationToken w)).
  - unfold ret at 1.
    destruct (request_run R id w) as (res' & w' & -> & _ & Hd & _).
    intros [= _ <-]. lia.
  - destruct (refresh_run R w) as ([[]|e0] & w0 & -> & _ & Hd0 & _).
    + destruct (request_run R id w0) as (res' & w' & -> & _ & Hd & _).
      intros [= _ <-]. lia.
    + intros [= _ <-]. lia.
Qed.

Lemma detail_call_requests (fuel : nat) (id : string) :
  forall (w w' : World) (res : Result AdditionalDetails),
    getShoppingApiDetails R fuel id w = Some (res, w') ->
    detailCalls w' <= detailCalls w + fuel.
Proof.
  induction fuel as [|fuel IH]; intros w w' res; [discriminate|].
  rewrite getShoppingApiDetails_S. unfold try_catch.
  destruct (getShoppingApiDetails_try R id w) as [[[ad|e] w1]|] eqn:Htry;
    [| |discriminate]; pose proof (try_requests _ _ _ _ Htry) as H1.
  - intros [= _ <-]. lia.
  - unfold bind at 1. rewrite logger_run.
    destruct (response_data e) as [|body|].
    + intros [= _ <-]. simpl. lia.
    + destruct (invalid_token_body body).
      * unfold bind.
        destruct (refresh_run R (logged (LogShoppingApiError e) w1))
          as ([[]|e2] & w2 & -> & _ & Hd2 & _).
        -- intros Hrun. apply IH in Hrun. simpl in Hd2. lia.
        -- intros [= _ <-]. simpl in Hd2. lia.
      * intros [= _ <-]. simpl. lia.
    + intros [= _ <-]. simpl. lia.
Qed.

End DetailCallRequests.

(** X24: Termination of the detail call: when the remotes stop answering with
    an invalid-token text from some call number on, a retry budget above
    the distance of the call counters to that number is enough for the
    call to settle; and whenever the call settles within a retry budget it
    has sent at most that many requests, one per attempt. *)
Theorem detail_call_terminates
    (R : Remote) (bound fuel : nat) (id : string) (w : World) :
  quiet_from R bound ->
  budget bound w < fuel ->
  exists res w',
    getShoppingApiDetails R fuel id w = Some (res, w')
    /\ detailCalls w' <= detailCalls w + fuel.
Proof.
  intros Hq Hb.
  destruct (detail_call_settles R bound Hq fuel id w Hb) as (res & w' & Hrun & _).
  exists res, w'. split; [exact Hrun|].
  apply (detail_call_requests R fuel id w w' res Hrun).
Qed.

Lemma detail_call_terminates_witness :
  exists res w',
    getShoppingApiDetails (Sample.R_invalid 2) 5 "110" Sample.w_token = Some (res, w')
    /\ detailCalls w' <= 5.
Proof.
  destruct (detail_call_terminates (Sample.R_invalid 2) 2 5 "110" Sample.w_token)
    as (res & w' & Hrun & Hd).
  - intros n Hn. split; [|reflexivity]. intros token id.
    unfold Sample.R_invalid. cbn [axios_post].
    destruct (Nat.ltb_spec n 2); [lia | reflexivity].
  - vm_compute. lia.
  - exists res, w'. split; [exact Hrun | exact Hd].
Defined.
